(** * Page objects of the Sauce Demo end-to-end suite

    A shallow embedding of the page-object layer (InventoryPage, CartPage,
    the checkout pages, LoginPage) and of the cart clean-up hook of the
    checkout suite, together with the parts of the JavaScript runtime and of
    the browser-automation engine these functions call.

    Conventions.
    - JavaScript strings are modelled by [string]; a character stands for a
      UTF-16 code unit below 256 (the Latin-1 range), and the character
      classes and the case mapping below are the ECMAScript ones restricted
      to that range.
    - JavaScript numbers are binary64 floats, modelled by [spec_float] with
      precision 53 and maximal exponent 1024.
    - An asynchronous call is a function from the state of the browser page
      to an outcome and a new state; a rejected promise keeps the state
      changes made before the rejection. *)

From Stdlib Require Import String Ascii List Arith NArith ZArith Lia Bool.
From Stdlib Require Import Floats.SpecFloat.
From Stdlib Require Import DecimalString DecimalNat DecimalN.
From Stdlib Require Import Sorting.Permutation.
Import ListNotations.

Local Open Scope nat_scope.
Local Open Scope list_scope.
Local Open Scope string_scope.

(* ====================================================================== *)
(** * Part I. The JavaScript runtime                                       *)
(* ====================================================================== *)

Module JS.

(** ** Characters and strings *)

(** The double-quote character, used inside attribute selectors. *)
Definition dquote : string := String (ascii_of_nat 34) EmptyString.

Definition code (c : ascii) : N := N_of_ascii c.

(** [\d]: the ten ASCII digits. *)
Definition isDigit (c : ascii) : bool :=
  ((48 <=? code c) && (code c <=? 57))%N.

(** [\s] and [StrWhiteSpaceChar]: TAB, LF, VT, FF, CR, SP and NBSP. *)
Definition isSpace (c : ascii) : bool :=
  (((9 <=? code c) && (code c <=? 13)) || (code c =? 32) || (code c =? 160))%N.

(** Line terminators, which [.] does not match. *)
Definition isLineTerminator (c : ascii) : bool :=
  ((code c =? 10) || (code c =? 13))%N.

(** [String.prototype.toLowerCase] on one code unit: A-Z and the accented
    capitals 192..222 (except the multiplication sign 215) move up by 32. *)
Definition lowerChar (c : ascii) : ascii :=
  if (((65 <=? code c) && (code c <=? 90))
      || ((192 <=? code c) && (code c <=? 222) && negb (code c =? 215)))%N
  then ascii_of_N (code c + 32) else c.

Fixpoint toLowerCase (s : string) : string :=
  match s with
  | EmptyString => EmptyString
  | String c s' => String (lowerChar c) (toLowerCase s')
  end.

(** [s.substring(0, n)]. *)
Fixpoint take (n : nat) (s : string) : string :=
  match n, s with
  | S n', String c s' => String c (take n' s')
  | _, _ => EmptyString
  end.

(** The part of [s] that was consumed when [rest] is what remains of it. *)
Definition consumed (s rest : string) : string :=
  take (String.length s - String.length rest) s.

(** [s.startsWith(p)], returning what follows the prefix. *)
Fixpoint stripPrefix (p s : string) : option string :=
  match p, s with
  | EmptyString, _ => Some s
  | String a p', String b s' => if Ascii.eqb a b then stripPrefix p' s' else None
  | String _ _, EmptyString => None
  end.

(** Longest prefix of characters satisfying [f], and the remainder. *)
Fixpoint span (f : ascii -> bool) (s : string) : string * string :=
  match s with
  | String c s' =>
      if f c then let (a, b) := span f s' in (String c a, b) else (EmptyString, s)
  | EmptyString => (EmptyString, EmptyString)
  end.

(** [TrimString(s, start)]. *)
Fixpoint trimStart (s : string) : string :=
  match s with
  | String c s' => if isSpace c then trimStart s' else s
  | EmptyString => EmptyString
  end.

(** ** Regular expressions

    The fragment of the regular-expression language that the page objects
    use, with the backtracking semantics of ECMAScript: quantifiers are
    greedy and give back what they took when the rest of the pattern does
    not match. *)

Inductive CharClass :=
| CLit (c : ascii)      (* a literal character, also an escaped one: \$ \. *)
| CDigit                (* \d *)
| CSpace                (* \s *)
| CDot.                 (* .  *)

Definition inClass (k : CharClass) (c : ascii) : bool :=
  match k with
  | CLit a => Ascii.eqb a c
  | CDigit => isDigit c
  | CSpace => isSpace c
  | CDot => negb (isLineTerminator c)
  end.

Inductive Regex :=
| RChar (k : CharClass)         (* one character of the class *)
| RStr (t : string)             (* a run of literal characters *)
| RStar (k : CharClass)         (* k*  *)
| RPlus (k : CharClass)         (* k+  *)
| ROpt (r : Regex)              (* r?  *)
| RSeq (r1 r2 : Regex)          (* r1 r2 *)
| RGroup (r : Regex).           (* ( r ), capturing *)

Section Matcher.
Context {R : Type}.

(** Greedy iteration of a class: the longest run first, then shorter ones. *)
Fixpoint matchStar (k : CharClass) (s : string) (cont : string -> option R)
  : option R :=
  match s with
  | String c s' =>
      if inClass k c then
        match matchStar k s' cont with
        | Some r => Some r
        | None => cont s
        end
      else cont s
  | EmptyString => cont s
  end.

(** [matchAt r s caps cont]: match [r] at the start of [s]; on success call
    the continuation with the rest of the input and the captures so far. *)
Fixpoint matchAt (r : Regex) (s : string) (caps : list string)
         (cont : string -> list string -> option R) : option R :=
  match r with
  | RChar k =>
      match s with
      | String c s' => if inClass k c then cont s' caps else None
      | EmptyString => None
      end
  | RStr t =>
      match stripPrefix t s with
      | Some s' => cont s' caps
      | None => None
      end
  | RStar k => matchStar k s (fun s' => cont s' caps)
  | RPlus k =>
      match s with
      | String c s' =>
          if inClass k c then matchStar k s' (fun s'' => cont s'' caps) else None
      | EmptyString => None
      end
  | ROpt r1 =>
      match matchAt r1 s caps cont with
      | Some x => Some x
      | None => cont s caps
      end
  | RSeq r1 r2 =>
      matchAt r1 s caps (fun s' caps' => matchAt r2 s' caps' cont)
  | RGroup r1 =>
      matchAt r1 s caps (fun s' caps' => cont s' (caps' ++ [consumed s s'])%list)
  end.
End Matcher.

(** The result of a successful match: where it starts, the matched text
    ([m[0]]), the captures ([m[1]], ...) and the input after the match. *)
Record MatchResult := {
  index : nat;
  matched : string;
  groups : list string;
  after : string
}.

Definition matchHere (r : Regex) (s : string) (i : nat) : option MatchResult :=
  matchAt r s [] (fun rest caps =>
    Some {| index := i; matched := consumed s rest; groups := caps; after := rest |}).

(** Leftmost match: try every start position in turn. *)
Fixpoint execFrom (r : Regex) (s : string) (i : nat) : option MatchResult :=
  match matchHere r s i with
  | Some m => Some m
  | None =>
      match s with
      | String _ s' => execFrom r s' (S i)
      | EmptyString => None
      end
  end.

(** [s.match(r)] for a regular expression without the [g] flag. *)
Definition match_ (s : string) (r : Regex) : option MatchResult := execFrom r s 0.

(** [r.test(s)]. *)
Definition test (r : Regex) (s : string) : bool :=
  match execFrom r s 0 with Some _ => true | None => false end.

(** [s.replace(r, by)] for a regular expression with the [g] flag: every
    match, left to right, is replaced; after an empty match the scan moves
    one character on. *)
Fixpoint replaceAllFuel (fuel : nat) (r : Regex) (by_ : string) (s : string) : string :=
  match fuel with
  | 0 => s
  | S fuel' =>
      match matchHere r s 0 with
      | Some m =>
          if (String.length (after m) <? String.length s)%nat
          then by_ ++ replaceAllFuel fuel' r by_ (after m)
          else match s with
               | String c s' => by_ ++ String c (replaceAllFuel fuel' r by_ s')
               | EmptyString => by_
               end
      | None =>
          match s with
          | String c s' => String c (replaceAllFuel fuel' r by_ s')
          | EmptyString => EmptyString
          end
      end
  end.

Definition replaceAll (s : string) (r : Regex) (by_ : string) : string :=
  replaceAllFuel (S (String.length s)) r by_ s.

(** [s.replace(pattern, by)] for a string pattern: the first occurrence
    of the pattern is replaced. The replacement is taken as it is written
    (the page objects pass the empty string). *)
Fixpoint replaceFirst (s pattern by_ : string) : string :=
  match stripPrefix pattern s with
  | Some rest => by_ ++ rest
  | None =>
      match s with
      | String c s' => String c (replaceFirst s' pattern by_)
      | EmptyString => EmptyString
      end
  end.

(** ** Arrays *)

(** [a.includes(x)] on an array of strings. *)
Definition includes (a : list string) (x : string) : bool :=
  existsb (String.eqb x) a.

(** [a.every(f)]. *)
Definition every {A} (a : list A) (f : A -> bool) : bool := forallb f a.

(** [a[i]]; outside the array the result is [undefined]. *)
Definition at_ {A} (a : list A) (i : nat) : option A := nth_error a i.

(** ** Numbers *)

Definition number := spec_float.

Definition prec : Z := 53.
Definition emax : Z := 1024.

Definition NaN : number := S754_nan.

(** The literal [0]. *)
Definition zero : number := S754_zero false.

(** [a + b]. *)
Definition add (a b : number) : number := SFadd prec emax a b.

Definition number_eqb (a b : number) : bool :=
  match a, b with
  | S754_zero s, S754_zero t => Bool.eqb s t
  | S754_infinity s, S754_infinity t => Bool.eqb s t
  | S754_nan, S754_nan => true
  | S754_finite s m e, S754_finite t n f =>
      Bool.eqb s t && Pos.eqb m n && Z.eqb e f
  | _, _ => false
  end.

(** The value of a string of decimal digits. *)
Definition digitsValue (s : string) : N :=
  match NilEmpty.uint_of_string s with
  | Some d => N.of_uint d
  | None => 0%N
  end.

(** The decimal digits of a natural number, without leading zeros. *)
Definition decimal (n : N) : string := NilEmpty.string_of_uint (N.to_uint n).

(** The Number value of the decimal [(-1)^neg * m * 10^x]: the binary64
    float nearest to it, ties to even. *)
Definition ofDecimal (neg : bool) (m : N) (x : Z) : number :=
  match m with
  | N0 => S754_zero neg
  | Npos p =>
      match x with
      | Zneg k =>
          SFdiv prec emax (S754_finite neg p 0) (S754_finite false (10 ^ k) 0)
      | _ =>
          binary_normalize prec emax
            (cond_Zopp neg (Zpos p * 10 ^ x)) 0 neg
      end
  end.

(** An optional sign, as accepted by [parseInt] and [parseFloat]. *)
Definition signPrefix (s : string) : bool * string :=
  match s with
  | String c s' =>
      if Ascii.eqb c "-" then (true, s')
      else if Ascii.eqb c "+" then (false, s')
      else (false, s)
  | EmptyString => (false, s)
  end.

(** [parseInt(s, 10)]: leading white space is skipped, a sign is accepted,
    then the longest run of digits is read; no digit at all gives [NaN]. *)
Definition parseInt10 (s : string) : number :=
  let '(neg, u) := signPrefix (trimStart s) in
  let '(ds, _) := span isDigit u in
  match ds with
  | EmptyString => NaN
  | _ => ofDecimal neg (digitsValue ds) 0
  end.

(** The exponent part [e|E] [+|-] digits, when there is a complete one. *)
Definition exponentPart (s : string) : Z :=
  match s with
  | String c s' =>
      if Ascii.eqb c "e" || Ascii.eqb c "E" then
        let '(neg, u) := signPrefix s' in
        let '(ds, _) := span isDigit u in
        match ds with
        | EmptyString => 0%Z
        | _ => cond_Zopp neg (Z.of_N (digitsValue ds))
        end
      else 0%Z
  | EmptyString => 0%Z
  end.

(** [parseFloat(s)]: the longest prefix of the trimmed input that is a
    decimal literal (or [Infinity]) is converted; none gives [NaN]. *)
Definition parseFloat (s : string) : number :=
  let '(neg, u) := signPrefix (trimStart s) in
  match stripPrefix "Infinity" u with
  | Some _ => S754_infinity neg
  | None =>
      let '(ip, r1) := span isDigit u in
      let '(fp, r2) :=
        match r1 with
        | String c r => if Ascii.eqb c "." then span isDigit r else (EmptyString, r1)
        | EmptyString => (EmptyString, r1)
        end in
      match ip ++ fp with
      | EmptyString => NaN
      | ds =>
          ofDecimal neg (digitsValue ds)
            (exponentPart r2 - Z.of_nat (String.length fp))
      end
  end.

(** *** Number.prototype.toFixed and Number::toString *)

(** The magnitude of a finite float as a fraction [num / den]. *)
Definition fraction (m : positive) (e : Z) : Z * Z :=
  match e with
  | Zneg k => (Zpos m, 2 ^ Zpos k)%Z
  | _ => (Zpos m * 2 ^ e, 1)%Z
  end.

(** [x >= 10^21] on the magnitude. *)
Definition atLeast1e21 (m : positive) (e : Z) : bool :=
  let '(num, den) := fraction m e in (10 ^ 21 * den <=? num)%Z.

(** The integer [n] for which [n / 10^f - x] is as close to zero as
    possible; of two such [n], the larger. *)
Definition nearestScaled (f : nat) (m : positive) (e : Z) : Z :=
  let '(num, den) := fraction m e in
  ((2 * num * 10 ^ Z.of_nat f + den) / (2 * den))%Z.

(** Digits [m] with a decimal point before the last [f] of them, after
    padding with zeros on the left to at least [f + 1] digits. *)
Fixpoint zeros (n : nat) : string :=
  match n with 0 => EmptyString | S n' => String "0" (zeros n') end.

Definition padLeft (width : nat) (m : string) : string :=
  zeros (width - String.length m) ++ m.

Definition pointBeforeLast (f : nat) (m : string) : string :=
  match f with
  | 0 => m
  | _ =>
      let m' := padLeft (f + 1) m in
      let k := String.length m' in
      substring 0 (k - f) m' ++ "." ++ substring (k - f) f m'
  end.

(** Does the decimal [s * 10^p] convert back to [x]? *)
Definition roundTrips (x : number) (s : Z) (p : nat) : bool :=
  number_eqb (ofDecimal false (Z.to_N s) (Z.of_nat p)) x.

(** The search for the shortest digits of a float [x = num / den] whose
    integer part has [nd] decimal digits: for k = 1, 2, ... digits, the two
    k-digit decimals around [x]; the first k at which one of them converts
    back to [x] wins, the one nearer to [x] when both do (the even one on a
    tie). The result is the pair [(s, p)] standing for [s * 10^p]. *)
Fixpoint shortestFrom (fuel : nat) (x : number) (num den : Z) (nd k : nat)
  : option (Z * nat) :=
  match fuel with
  | 0 => None
  | S fuel' =>
      let p := nd - k in
      let lo := (num / (den * 10 ^ Z.of_nat p))%Z in
      let hi := (lo + 1)%Z in
      let hi' := if (hi =? 10 ^ Z.of_nat k)%Z
                 then ((10 ^ Z.of_nat (k - 1))%Z, S p) else (hi, p) in
      let okLo := roundTrips x lo p in
      let okHi := roundTrips x hi p in
      let twice := (2 * num ?= (lo + hi) * 10 ^ Z.of_nat p * den)%Z in
      if okLo && okHi then
        match twice with
        | Lt => Some (lo, p)
        | Gt => Some hi'
        | Eq => if Z.even lo then Some (lo, p) else Some hi'
        end
      else if okLo then Some (lo, p)
      else if okHi then Some hi'
      else shortestFrom fuel' x num den nd (S k)
  end.

(** Exponential notation [d.ddd e+N] of [s * 10^p]. *)
Definition exponential (s : Z) (p : nat) : string :=
  let ds := decimal (Z.to_N s) in
  let k := String.length ds in
  let e := decimal (N.of_nat (k + p - 1)) in
  match ds with
  | String d EmptyString => String d ("e+" ++ e)
  | String d rest => String d ("." ++ rest ++ "e+" ++ e)
  | EmptyString => EmptyString
  end.

(** [Number::toString(x)] for a finite [x >= 10^21], where the result is
    always in exponential notation. *)
Definition toStringLarge (m : positive) (e : Z) : string :=
  let '(num, den) := fraction m e in
  let whole := (num / den)%Z in
  let nd := String.length (decimal (Z.to_N whole)) in
  match shortestFrom nd (S754_finite false m e) num den nd 1 with
  | Some (s, p) => exponential s p
  | None => exponential whole 0
  end.

(** [x.toFixed(f)]. *)
Definition toFixed (x : number) (f : nat) : string :=
  match x with
  | S754_nan => "NaN"
  | S754_infinity false => "Infinity"
  | S754_infinity true => "-Infinity"
  | S754_zero _ => pointBeforeLast f "0"
  | S754_finite neg m e =>
      (if neg then "-" else EmptyString) ++
      (if atLeast1e21 m e then toStringLarge m e
       else pointBeforeLast f (decimal (Z.to_N (nearestScaled f m e))))
  end.

(** ** Products and Math.floor *)

(** [a * b]: the product, rounded to the nearest float. *)
Definition mul (a b : number) : number := SFmul prec emax a b.

(** A count (an array length, a number of elements) as a number. *)
Definition ofNat (n : nat) : number :=
  binary_normalize prec emax (Z.of_nat n) 0 false.

(** [Math.floor] of a finite number, as an integer: the mantissa is shifted
    to the right by the places after the binary point. Zero has the
    floor 0; NaN and the infinities, which [Math.floor] returns as they
    are, are no integers and are given 0 here. *)
Definition floor (x : number) : Z :=
  match x with
  | S754_finite s m e =>
      match e with
      | Z.neg k => (cond_Zopp s (Z.pos m) / 2 ^ Z.pos k)%Z
      | _ => (cond_Zopp s (Z.pos m) * 2 ^ e)%Z
      end
  | _ => 0%Z
  end.

(** ** Math.random *)

(** The successive results of [Math.random()]. *)
Definition Random := nat -> number.

(** The numbers [Math.random()] returns: the floats of the interval
    [0, 1), that is +0 and the positive floats [m * 2^e] below 1. *)
Definition inUnitInterval (u : number) : Prop :=
  u = S754_zero false \/
  exists m e, u = S754_finite false m e /\ bounded prec emax m e = true /\
              (Z.pos m < 2 ^ (- e))%Z.

(** [Math.floor(u * max)] as an array index: the floor of the rounded
    product. *)
Definition floorScaled (u : number) (max : nat) : nat :=
  Z.to_nat (floor (mul u (ofNat max))).

End JS.

(* ====================================================================== *)
(** * Part II. The browser-automation engine                               *)
(* ====================================================================== *)

Module Playwright.

(** ** Outcomes of asynchronous calls *)

Inductive Error :=
| TimeoutError (what : string)          (* a wait ran into its bound *)
| StrictModeViolation (selector : string)
                                        (* a locator resolved to several elements *)
| JsError (message : string).           (* throw new Error(message) *)

Inductive Outcome (A : Type) :=
| Fulfilled (a : A)                     (* the promise resolved with a value *)
| Rejected (e : Error)                  (* the promise rejected: an exception *)
| Pending.                              (* the call has not returned (out of fuel) *)

Arguments Fulfilled {A} a.
Arguments Rejected {A} e.
Arguments Pending {A}.

(** An asynchronous call on a page whose state has type [W]. *)
Definition Task (W A : Type) : Type := W -> Outcome A * W.

Definition ret {W A} (a : A) : Task W A := fun w => (Fulfilled a, w).

Definition bind {W A B} (m : Task W A) (f : A -> Task W B) : Task W B :=
  fun w =>
    match m w with
    | (Fulfilled a, w') => f a w'
    | (Rejected e, w') => (Rejected e, w')
    | (Pending, w') => (Pending, w')
    end.

Definition throw {W A} (e : Error) : Task W A := fun w => (Rejected e, w).

Definition pending {W A} : Task W A := fun w => (Pending, w).

(** [try { m } catch { handler }]. *)
Definition tryCatch {W A} (m : Task W A) (handler : Error -> Task W A) : Task W A :=
  fun w =>
    match m w with
    | (Rejected e, w') => handler e w'
    | r => r
    end.

Declare Scope task_scope.
Delimit Scope task_scope with task.
Notation "x <- m ;; k" := (bind m (fun x => k))
  (at level 61, m at next level, right associativity) : task_scope.
Notation "m ;; k" := (bind m (fun _ => k))
  (at level 61, right associativity) : task_scope.

(** ** Pages *)

(** An element of the document, as far as the page objects can observe it:
    the selectors that match it, its rendered text, and whether it is
    visible and enabled. *)
Record Node := {
  matching : list string;
  innerTextOf : string;
  visible : bool;
  enabled : bool
}.

(** A web application, seen from the engine. [document w] lists the elements
    in document order; [clickEffect i] is the application's reaction to a
    click on the [i]-th of them; [gotoEffect] loads a URL; [tick] lets one
    millisecond pass; [navigationTimeout] is the configured default bound,
    in milliseconds, of waits for navigation that name no bound of their
    own. A bound is a positive number of milliseconds: the value 0, by
    which the engine would wait without a bound, is not modelled. *)
Class Site (W : Type) := {
  document : W -> list Node;
  clickEffect : nat -> W -> W;
  gotoEffect : string -> W -> W;
  url : W -> string;
  tick : W -> W;
  navigationTimeout : positive
}.

(** ** Locators *)

Record Locator := {
  selector : string;
  position : option nat
}.

(** [page.locator(selector)]. *)
Definition locator (sel : string) : Locator :=
  {| selector := sel; position := None |}.

(** [locator.nth(index)]. *)
Definition nth (l : Locator) (index : nat) : Locator :=
  {| selector := selector l; position := Some index |}.

Definition matchesSelector (sel : string) (n : Node) : bool :=
  existsb (String.eqb sel) (matching n).

(** Elements paired with their place in the document. *)
Definition numbered {A} (l : list A) : list (nat * A) :=
  combine (seq 0 (List.length l)) l.

Section Engine.
Context {W : Type} {site : Site W}.

(** The elements a locator resolves to, with their place in the document. *)
Definition resolve (l : Locator) (w : W) : list (nat * Node) :=
  let all := filter (fun e => matchesSelector (selector l) (snd e))
                    (numbered (document w)) in
  match position l with
  | None => all
  | Some i =>
      match nth_error all i with
      | Some e => [e]
      | None => []
      end
  end.

(** [locator.count()]. *)
Definition count (l : Locator) : Task W nat :=
  fun w => (Fulfilled (List.length (resolve l w)), w).

(** Operations on one element are strict: no element lets the wait for it
    run out, several elements are a strict-mode violation. *)
Definition theElement (l : Locator) : Task W (nat * Node) :=
  fun w =>
    match resolve l w with
    | [] => (Rejected (TimeoutError (selector l)), w)
    | [e] => (Fulfilled e, w)
    | _ => (Rejected (StrictModeViolation (selector l)), w)
    end.

(** [locator.innerText()]. *)
Definition innerText (l : Locator) : Task W string :=
  (e <- theElement l ;; ret (innerTextOf (snd e)))%task.

(** [locator.allInnerTexts()]: the texts of all the elements the locator
    resolves to, in document order; it does not wait for any. *)
Definition allInnerTexts (l : Locator) : Task W (list string) :=
  fun w => (Fulfilled (map (fun e => innerTextOf (snd e)) (resolve l w)), w).

(** [locator.isVisible()]: does not wait; no element means not visible. *)
Definition isVisible (l : Locator) : Task W bool :=
  fun w =>
    match resolve l w with
    | [] => (Fulfilled false, w)
    | [e] => (Fulfilled (visible (snd e)), w)
    | _ => (Rejected (StrictModeViolation (selector l)), w)
    end.

(** [locator.isEnabled()]. *)
Definition isEnabled (l : Locator) : Task W bool :=
  (e <- theElement l ;; ret (enabled (snd e)))%task.

(** [locator.click()]: the element has to be visible and enabled. *)
Definition click (l : Locator) : Task W unit :=
  (e <- theElement l ;;
   if visible (snd e) && enabled (snd e)
   then (fun w => (Fulfilled tt, clickEffect (fst e) w))
   else throw (TimeoutError (selector l)))%task.

(** [page.goto(url)]. *)
Definition goto (u : string) : Task W unit :=
  fun w => (Fulfilled tt, gotoEffect u w).

(** [page.url()]. *)
Definition pageUrl : Task W string :=
  fun w => (Fulfilled (url w), w).

(** Waiting until the URL matches, one millisecond at a time, for at most
    [budget] milliseconds. *)
Fixpoint waitLoop (r : JS.Regex) (budget : nat) (w : W) : Outcome unit * W :=
  if JS.test r (url w) then (Fulfilled tt, w)
  else
    match budget with
    | 0 => (Rejected (TimeoutError "waitForURL"), w)
    | S budget' => waitLoop r budget' (tick w)
    end.

(** [page.waitForURL(r, { timeout })] with a positive [timeout], in
    milliseconds; without the option the configured default applies. The
    address is looked at now and after each millisecond, up to the bound. *)
Definition waitForURL (r : JS.Regex) (timeout : option positive) : Task W unit :=
  match timeout with
  | Some t => waitLoop r (Pos.to_nat t)
  | None => waitLoop r (Pos.to_nat navigationTimeout)
  end.
End Engine.

End Playwright.

(* ====================================================================== *)
(** * Part III. The page objects                                           *)
(* ====================================================================== *)

Import JS Playwright.
Local Open Scope task_scope.
Local Open Scope char_scope.
Local Open Scope string_scope.

(** Regular expression literals of the sources. *)

(** [/\s+/g] *)
Definition whiteSpaceRun : Regex := RPlus CSpace.

(** The pattern of [getSubtotal], [getTax] and [getTotal]: an escaped
    dollar sign, then the group [\d+ \.? \d*] (written here with spaces). *)
Definition currencyAmount : Regex :=
  RSeq (RChar (CLit "$"))
       (RGroup (RSeq (RPlus CDigit) (RSeq (ROpt (RChar (CLit "."))) (RStar CDigit)))).

(** [/.*inventory.html/] *)
Definition inventoryUrl : Regex :=
  RSeq (RStar CDot) (RSeq (RStr "inventory") (RSeq (RChar CDot) (RStr "html"))).

(** [/.*cart.html/] *)
Definition cartUrl : Regex :=
  RSeq (RStar CDot) (RSeq (RStr "cart") (RSeq (RChar CDot) (RStr "html"))).

(** [/.*checkout-step-one.html/] *)
Definition checkoutStepOneUrl : Regex :=
  RSeq (RStar CDot) (RSeq (RStr "checkout-step-one") (RSeq (RChar CDot) (RStr "html"))).

(** [/.*checkout-complete.html/] *)
Definition checkoutCompleteUrl : Regex :=
  RSeq (RStar CDot) (RSeq (RStr "checkout-complete") (RSeq (RChar CDot) (RStr "html"))).

(** The attribute selector [[data-test="value"]]. *)
Definition dataTest (value : string) : string :=
  "[data-test=" ++ dquote ++ value ++ dquote ++ "]".

(** The record [{ name, price }]. *)
Record ProductDetails := {
  name : string;
  price : string
}.

(** Counts in template literals; they are far below 2^53, where the digits
    of a number are the digits of the integer. *)
Definition showCount (n : nat) : string := decimal (N.of_nat n).

Module InventoryPage.
Section InventoryPage.
Context {W : Type} {site : Site W}.

Definition pageTitle := locator ".title".
Definition productCards := locator ".inventory_item".
Definition productNames := locator ".inventory_item_name".
Definition productPrices := locator ".inventory_item_price".
Definition addToCartButtons :=
  locator ("button[data-test^=" ++ dquote ++ "add-to-cart" ++ dquote ++ "]").
Definition shoppingCartBadge := locator ".shopping_cart_badge".
Definition shoppingCartLink := locator ".shopping_cart_link".

Definition open : Task W unit := goto "/inventory.html".

Definition getPageTitle : Task W string := innerText pageTitle.

Definition getProductCount : Task W nat := count productCards.

Definition getProductDetails (index : nat) : Task W ProductDetails :=
  name <- innerText (nth productNames index) ;;
  price <- innerText (nth productPrices index) ;;
  ret {| name := name; price := price |}.

Definition addProductToCartByIndex (index : nat) : Task W unit :=
  productName <- innerText (nth productNames index) ;;
  let productNameKebabCase :=
    replaceAll (toLowerCase productName) whiteSpaceRun "-" in
  let addButton := locator (dataTest ("add-to-cart-" ++ productNameKebabCase)) in
  click addButton.

(** [indices.includes(randomIndex)]. *)
Definition includes (indices : list nat) (x : nat) : bool :=
  existsb (Nat.eqb x) indices.

(** The [while] loop of [generateRandomUniqueIndices]; [drawn] counts the
    calls of [Math.random()] made so far, and each turn of the loop uses
    one unit of fuel. *)
Fixpoint generateLoop (fuel : nat) (random : Random) (drawn : nat)
         (max count : nat) (indices : list nat) : option (list nat) :=
  if (List.length indices <? count)%nat then
    match fuel with
    | 0 => None
    | S fuel' =>
        let randomIndex := floorScaled (random drawn) max in
        generateLoop fuel' random (S drawn) max count
          (if includes indices randomIndex then indices
           else (indices ++ [randomIndex])%list)
    end
  else Some indices.

Definition generateRandomUniqueIndices (fuel : nat) (random : Random)
           (max count : nat) : option (list nat) :=
  generateLoop fuel random 0 max count [].

(** The [for ... of] loop of [addRandomProductsToCart]. *)
Fixpoint addEach (randomIndices : list nat) (addedProducts : list ProductDetails)
  : Task W (list ProductDetails) :=
  match randomIndices with
  | [] => ret addedProducts
  | index :: rest =>
      productDetails <- getProductDetails index ;;
      addProductToCartByIndex index ;;
      addEach rest (addedProducts ++ [productDetails])%list
  end.

Definition notEnoughProducts (count totalProducts : nat) : string :=
  "Cannot add " ++ showCount count ++ " products. Only "
    ++ showCount totalProducts ++ " products available.".

Definition addRandomProductsToCart (fuel : nat) (random : Random) (count : nat)
  : Task W (list ProductDetails) :=
  totalProducts <- getProductCount ;;
  if (totalProducts <? count)%nat then
    throw (JsError (notEnoughProducts count totalProducts))
  else
    match generateRandomUniqueIndices fuel random totalProducts count with
    | None => pending
    | Some randomIndices => addEach randomIndices []
    end.

Definition getCartCount : Task W number :=
  tryCatch
    (badgeText <- innerText shoppingCartBadge ;;
     ret (parseInt10 badgeText))
    (fun _ => ret zero).

Definition isCartBadgeVisible : Task W bool := isVisible shoppingCartBadge.

Definition goToCart : Task W unit := click shoppingCartLink.

Definition getCurrentURL : Task W string := pageUrl.
End InventoryPage.
End InventoryPage.

Module CartPage.

(** The record [{ name, price, quantity }]. *)
Record ItemDetails := {
  name : string;
  price : string;
  quantity : number
}.

Section CartPage.
Context {W : Type} {site : Site W}.

Definition pageTitle := locator ".title".
Definition cartItems := locator ".cart_item".
Definition cartItemNames := locator ".inventory_item_name".
Definition cartItemPrices := locator ".inventory_item_price".
Definition cartItemQuantities := locator ".cart_quantity".
Definition removeButtons :=
  locator ("button[data-test^=" ++ dquote ++ "remove" ++ dquote ++ "]").
Definition continueShoppingButton := locator (dataTest "continue-shopping").
Definition checkoutButton := locator (dataTest "checkout").
Definition shoppingCartBadge := locator ".shopping_cart_badge".

Definition open : Task W unit := goto "https://www.saucedemo.com/cart.html".

Definition getPageTitle : Task W string := innerText pageTitle.

Definition getCartItemCount : Task W nat := count cartItems.

Definition removeItemByIndex (index : nat) : Task W unit :=
  click (nth removeButtons index).

Definition continueShopping : Task W unit := click continueShoppingButton.

Definition proceedToCheckout : Task W unit := click checkoutButton.

Definition getCartBadgeCount : Task W number :=
  tryCatch
    (badgeText <- innerText shoppingCartBadge ;;
     ret (parseInt10 badgeText))
    (fun _ => ret zero).

Definition getAllItemNames : Task W (list string) := allInnerTexts cartItemNames.

Definition getAllItemPrices : Task W (list string) := allInnerTexts cartItemPrices.

Definition getAllItemQuantities : Task W (list number) :=
  quantities <- allInnerTexts cartItemQuantities ;;
  ret (map parseInt10 quantities).

Definition getItemDetails (index : nat) : Task W ItemDetails :=
  name <- innerText (nth cartItemNames index) ;;
  price <- innerText (nth cartItemPrices index) ;;
  quantityText <- innerText (nth cartItemQuantities index) ;;
  let quantity := parseInt10 quantityText in
  ret {| name := name; price := price; quantity := quantity |}.

Definition removeItemByName (productName : string) : Task W unit :=
  let productNameKebabCase :=
    replaceAll (toLowerCase productName) whiteSpaceRun "-" in
  let removeButton := locator (dataTest ("remove-" ++ productNameKebabCase)) in
  click removeButton.

Definition isItemInCart (productName : string) : Task W bool :=
  itemNames <- getAllItemNames ;;
  ret (includes itemNames productName).

Definition areItemsInCart (productNames : list string) : Task W bool :=
  itemNames <- getAllItemNames ;;
  ret (every productNames (fun name => includes itemNames name)).

(** The [for ... of] loop of [calculateTotalPrice]. *)
Fixpoint addPrices (prices : list string) (total : number) : number :=
  match prices with
  | [] => total
  | priceStr :: rest =>
      let price := parseFloat (replaceFirst priceStr "$" EmptyString) in
      addPrices rest (add total price)
  end.

Definition calculateTotalPrice : Task W number :=
  prices <- getAllItemPrices ;;
  ret (addPrices prices zero).

(** The [for] loop of [getAllCartItems], from the index [i] on. *)
Fixpoint getItemsFrom (turns i : nat) (items : list ItemDetails)
  : Task W (list ItemDetails) :=
  match turns with
  | 0 => ret items
  | S turns' =>
      item <- getItemDetails i ;;
      getItemsFrom turns' (S i) (items ++ [item])%list
  end.

Definition getAllCartItems : Task W (list ItemDetails) :=
  itemCount <- getCartItemCount ;;
  getItemsFrom itemCount 0 [].

Definition isCartEmpty : Task W bool :=
  itemCount <- getCartItemCount ;;
  ret (itemCount =? 0)%nat.

Definition isCheckoutButtonEnabled : Task W bool := isEnabled checkoutButton.

Definition getCurrentURL : Task W string := pageUrl.

(** The [while] loop of [clearCart]; each turn uses one unit of fuel. *)
Fixpoint clearCartLoop (fuel : nat) (itemCount : nat) : Task W unit :=
  if (0 <? itemCount)%nat then
    match fuel with
    | 0 => pending
    | S fuel' =>
        removeItemByIndex 0 ;;
        itemCount' <- getCartItemCount ;;
        clearCartLoop fuel' itemCount'
    end
  else ret tt.

Definition clearCart (fuel : nat) : Task W unit :=
  itemCount <- getCartItemCount ;;
  clearCartLoop fuel itemCount.
End CartPage.
End CartPage.

Module CheckoutStepOnePage.
Section CheckoutStepOnePage.
Context {W : Type} {site : Site W}.

Definition pageTitle := locator ".title".

Definition waitForPageLoad : Task W unit :=
  waitForURL checkoutStepOneUrl (Some 10000%positive).

Definition getPageTitle : Task W string := innerText pageTitle.

Definition getCurrentURL : Task W string := pageUrl.
End CheckoutStepOnePage.
End CheckoutStepOnePage.

Module CheckoutStepTwoPage.
Section CheckoutStepTwoPage.
Context {W : Type} {site : Site W}.

Definition pageTitle := locator ".title".
Definition cartItems := locator ".cart_item".
Definition subtotalLabel := locator ".summary_subtotal_label".
Definition taxLabel := locator ".summary_tax_label".
Definition totalLabel := locator ".summary_total_label".
Definition finishButton := locator (dataTest "finish").
Definition cancelButton := locator (dataTest "cancel").
Definition cartItemNames := locator ".inventory_item_name".
Definition cartItemPrices := locator ".inventory_item_price".
Definition paymentInformation := locator (dataTest "payment-info-value").
Definition shippingInformation := locator (dataTest "shipping-info-value").

Definition getPageTitle : Task W string := innerText pageTitle.

Definition getItemCount : Task W nat := count cartItems.

(** [match ? parseFloat(match[1]) : 0] *)
Definition amountOf (text : string) : number :=
  match match_ text currencyAmount with
  | Some m => parseFloat (List.nth 0 (groups m) EmptyString)
  | None => zero
  end.

Definition getSubtotal : Task W number :=
  subtotalText <- innerText subtotalLabel ;;
  ret (amountOf subtotalText).

Definition getTax : Task W number :=
  taxText <- innerText taxLabel ;;
  ret (amountOf taxText).

Definition getTotal : Task W number :=
  totalText <- innerText totalLabel ;;
  ret (amountOf totalText).

(** The record [{ subtotal, tax, total }]. *)
Record PriceSummary := {
  subtotal : number;
  tax : number;
  total : number
}.

Definition getPriceSummary : Task W PriceSummary :=
  subtotal <- getSubtotal ;;
  tax <- getTax ;;
  total <- getTotal ;;
  ret {| subtotal := subtotal; tax := tax; total := total |}.

Definition isPriceCalculationCorrect : Task W bool :=
  summary <- getPriceSummary ;;
  let calculatedTotal := add (subtotal summary) (tax summary) in
  ret (String.eqb (toFixed calculatedTotal 2) (toFixed (total summary) 2)).

Definition getAllItemNames : Task W (list string) := allInnerTexts cartItemNames.

Definition getAllItemPrices : Task W (list string) := allInnerTexts cartItemPrices.

Definition getPaymentInformation : Task W string := innerText paymentInformation.

Definition getShippingInformation : Task W string := innerText shippingInformation.

(** The [for] loop of [getAllOrderItems], from the index [i] on. *)
Fixpoint getItemsFrom (turns i : nat) (items : list ProductDetails)
  : Task W (list ProductDetails) :=
  match turns with
  | 0 => ret items
  | S turns' =>
      name <- innerText (nth cartItemNames i) ;;
      price <- innerText (nth cartItemPrices i) ;;
      getItemsFrom turns' (S i) (items ++ [{| name := name; price := price |}])%list
  end.

Definition getAllOrderItems : Task W (list ProductDetails) :=
  itemCount <- getItemCount ;;
  getItemsFrom itemCount 0 [].

Definition areItemsInOrder (expectedItems : list string) : Task W bool :=
  orderItems <- getAllItemNames ;;
  ret (every expectedItems (fun item => includes orderItems item)).

Definition clickFinish : Task W unit := click finishButton.

Definition clickCancel : Task W unit := click cancelButton.

Definition completeCheckout : Task W unit := clickFinish.

Definition isFinishButtonEnabled : Task W bool := isEnabled finishButton.

Definition getCurrentURL : Task W string := pageUrl.

Definition waitForCheckoutComplete : Task W unit :=
  waitForURL checkoutCompleteUrl (Some 10000%positive).
End CheckoutStepTwoPage.
End CheckoutStepTwoPage.

Module CheckoutCompletePage.
Section CheckoutCompletePage.
Context {W : Type} {site : Site W}.

Definition pageTitle := locator ".title".
Definition completeHeader := locator ".complete-header".
Definition completeText := locator ".complete-text".
Definition ponyExpressImage := locator ".pony_express".
Definition backHomeButton := locator (dataTest "back-to-products").

Definition getPageTitle : Task W string := innerText pageTitle.

Definition isPonyExpressImageVisible : Task W bool := isVisible ponyExpressImage.

Definition clickBackHome : Task W unit := click backHomeButton.

Definition isBackHomeButtonEnabled : Task W bool := isEnabled backHomeButton.

Definition getCurrentURL : Task W string := pageUrl.

Definition isCheckoutSuccessful : Task W bool :=
  headerVisible <- isVisible completeHeader ;;
  textVisible <- isVisible completeText ;;
  imageVisible <- isVisible ponyExpressImage ;;
  buttonVisible <- isVisible backHomeButton ;;
  ret (headerVisible && textVisible && imageVisible && buttonVisible).

Definition waitForInventoryPage : Task W unit :=
  waitForURL inventoryUrl (Some 10000%positive).
End CheckoutCompletePage.
End CheckoutCompletePage.

Module LoginPage.
Section LoginPage.
Context {W : Type} {site : Site W}.

Definition loginButton := locator (dataTest "login-button").
Definition errorMessageContainer := locator (dataTest "error").

Definition open : Task W unit := goto "/".

Definition clickLoginButton : Task W unit := click loginButton.

Definition waitForInventoryPage : Task W unit :=
  waitForURL inventoryUrl None.

Definition getCurrentURL : Task W string := pageUrl.

Definition getErrorMessage : Task W string := innerText errorMessageContainer.

Definition isErrorMessageDisplayed : Task W bool := isVisible errorMessageContainer.

Definition isLoginButtonEnabled : Task W bool := isEnabled loginButton.
End LoginPage.
End LoginPage.

(** The [beforeEach] hook of the checkout suite. The page manager only
    builds the page objects over one page; here they are the functions
    above over one page state. *)
Module CheckoutFlow.
Section CheckoutFlow.
Context {W : Type} {site : Site W}.

(** [for (let i = start; i < start + turns; i++) body(i)]. *)
Fixpoint forEachIndex (turns : nat) (i : nat) (body : nat -> Task W unit)
  : Task W unit :=
  match turns with
  | 0 => ret tt
  | S turns' => body i ;; forEachIndex turns' (S i) body
  end.

Definition beforeEach : Task W unit :=
  InventoryPage.open ;;
  InventoryPage.goToCart ;;
  waitForURL cartUrl None ;;
  itemsInCart <- CartPage.getCartItemCount ;;
  (if (0 <? itemsInCart)%nat
   then forEachIndex itemsInCart 0 (fun i => CartPage.removeItemByIndex i)
   else ret tt) ;;
  InventoryPage.open.
End CheckoutFlow.
End CheckoutFlow.

(** The test data: the users, the checkout information and the two random
    helpers. *)
Module TestData.

(** The two environment variables the users are read from; a variable
    that is not set reads as [undefined]. *)
Record Env := {
  STANDARD_USERNAME : option string;
  STANDARD_PASSWORD : option string
}.

Record User := {
  username : option string;
  password : option string
}.

(** [TEST_USERS.STANDARD], the one property of [TEST_USERS]. *)
Definition STANDARD (env : Env) : User :=
  {| username := STANDARD_USERNAME env; password := STANDARD_PASSWORD env |}.

(** The array of [getRandomValidUser]; [TEST_USERS] has no property
    [PROBLEM], [PERFORMANCE_GLITCH], [ERROR] or [VISUAL], and reading one
    gives [undefined]. *)
Definition validUsers (env : Env) : list (option User) :=
  [Some (STANDARD env); None; None; None; None].

Definition getRandomValidUser (env : Env) (random : Random) : option User :=
  match at_ (validUsers env)
            (floorScaled (random 0) (List.length (validUsers env))) with
  | Some user => user
  | None => None
  end.

Record CheckoutInfo := {
  firstName : option string;
  lastName : option string;
  postalCode : option string
}.

Definition firstNames : list string :=
  ["John"; "Jane"; "Bob"; "Alice"; "Charlie"; "Diana"].
Definition lastNames : list string :=
  ["Smith"; "Johnson"; "Williams"; "Brown"; "Jones"; "Garcia"].
Definition postalCodes : list string :=
  ["12345"; "90210"; "10001"; "60601"; "94102"; "02101"].

Definition generateRandomCheckoutInfo (random : Random) : CheckoutInfo :=
  {| firstName := at_ firstNames (floorScaled (random 0) (List.length firstNames));
     lastName := at_ lastNames (floorScaled (random 1) (List.length lastNames));
     postalCode := at_ postalCodes (floorScaled (random 2) (List.length postalCodes)) |}.

End TestData.

(* ====================================================================== *)
(** * Part IV. Applications under test                                     *)
(* ====================================================================== *)

(** ** A page that does not react

    A fixed document at a fixed address: enough to state what the reading
    operations return. *)
Module StaticPage.

Record Page := {
  nodes : list Node;
  address : string
}.

#[global] Instance site : Site Page := {|
  document := nodes;
  clickEffect := fun _ w => w;
  gotoEffect := fun _ w => w;
  url := address;
  tick := fun w => w;
  navigationTimeout := 30000%positive
|}.

(** A visible, enabled element matched by one selector. *)
Definition label (sel text : string) : Node :=
  {| matching := [sel]; innerTextOf := text; visible := true; enabled := true |}.

End StaticPage.

(** ** A page on its way to another address

    The address changes from [origin] to [destination] once [remaining]
    milliseconds have passed. *)
Module Navigation.

Record Page := {
  remaining : nat;
  origin : string;
  destination : string
}.

#[global] Instance site : Site Page := {|
  document := fun _ => [];
  clickEffect := fun _ w => w;
  gotoEffect := fun _ w => w;
  url := fun w => match remaining w with 0 => destination w | _ => origin w end;
  tick := fun w => {| remaining := pred (remaining w);
                      origin := origin w;
                      destination := destination w |};
  navigationTimeout := 30000%positive
|}.

End Navigation.

(** ** The shop

    The inventory and cart screens of the demo shop, as the page objects
    see them. The shop shows its catalog in a fixed order; the cart keeps
    the catalog positions of the products in it, oldest first. A product
    that is in the cart shows a remove button in place of its add button,
    and the cart screen shows one row per product in the cart. The buttons
    are named after the product: the [data-test] attribute is the lower-cased
    name with each run of white space replaced by a hyphen, after the prefix
    [add-to-cart-] or [remove-]. Navigation between the two screens is
    immediate. *)
Module SauceDemo.

Inductive Screen := Inventory | Cart | Elsewhere.

Record Shop := {
  catalog : list ProductDetails;
  cart : list nat;
  screen : Screen
}.

Inductive Action :=
| AddToCart (product : nat)
| RemoveFromCart (product : nat)
| OpenCart
| ContinueShopping
| NoAction.

Definition slug (productName : string) : string :=
  replaceAll (toLowerCase productName) whiteSpaceRun "-".

Definition element (sels : list string) (text : string) (a : Action)
  : Node * Action :=
  ({| matching := sels; innerTextOf := text; visible := true; enabled := true |}, a).

Definition inCart (s : Shop) (product : nat) : bool :=
  existsb (Nat.eqb product) (cart s).

Definition addButton (product : nat) (p : ProductDetails) : Node * Action :=
  element [dataTest ("add-to-cart-" ++ slug (name p));
           "button[data-test^=" ++ dquote ++ "add-to-cart" ++ dquote ++ "]"]
          "Add to cart" (AddToCart product).

Definition removeButton (product : nat) (p : ProductDetails) : Node * Action :=
  element [dataTest ("remove-" ++ slug (name p));
           "button[data-test^=" ++ dquote ++ "remove" ++ dquote ++ "]"]
          "Remove" (RemoveFromCart product).

(** The cart link of the header, with its badge when the cart is not empty. *)
Definition header (s : Shop) (title : string) : list (Node * Action) :=
  element [".shopping_cart_link"] EmptyString OpenCart ::
  (match cart s with
   | [] => []
   | _ => [element [".shopping_cart_badge"]
                   (showCount (List.length (cart s))) NoAction]
   end) ++
  [element [".title"] title NoAction].

Definition productCard (s : Shop) (e : nat * ProductDetails) : list (Node * Action) :=
  let '(product, p) := e in
  [ element [".inventory_item"] EmptyString NoAction;
    element [".inventory_item_name"] (name p) NoAction;
    element [".inventory_item_price"] (price p) NoAction;
    if inCart s product then removeButton product p else addButton product p ].

Definition cartRow (s : Shop) (product : nat) : list (Node * Action) :=
  match nth_error (catalog s) product with
  | Some p =>
      [ element [".cart_item"] EmptyString NoAction;
        element [".cart_quantity"] "1" NoAction;
        element [".inventory_item_name"] (name p) NoAction;
        element [".inventory_item_price"] (price p) NoAction;
        removeButton product p ]
  | None => []
  end.

Definition elements (s : Shop) : list (Node * Action) :=
  match screen s with
  | Inventory =>
      header s "Products" ++ flat_map (productCard s) (numbered (catalog s))
  | Cart =>
      header s "Your Cart" ++ flat_map (cartRow s) (cart s) ++
      [ element [dataTest "continue-shopping"] "Continue Shopping" ContinueShopping;
        element [dataTest "checkout"] "Checkout" NoAction ]
  | Elsewhere => []
  end.

Fixpoint without (product : nat) (l : list nat) : list nat :=
  match l with
  | [] => []
  | x :: l' => if (x =? product)%nat then without product l' else x :: without product l'
  end.

Definition perform (a : Action) (s : Shop) : Shop :=
  match a with
  | AddToCart product =>
      {| catalog := catalog s;
         cart := if inCart s product then cart s else (cart s ++ [product])%list;
         screen := screen s |}
  | RemoveFromCart product =>
      {| catalog := catalog s; cart := without product (cart s); screen := screen s |}
  | OpenCart => {| catalog := catalog s; cart := cart s; screen := Cart |}
  | ContinueShopping => {| catalog := catalog s; cart := cart s; screen := Inventory |}
  | NoAction => s
  end.

Definition show (where_ : Screen) (s : Shop) : Shop :=
  {| catalog := catalog s; cart := cart s; screen := where_ |}.

#[global] Instance site : Site Shop := {|
  document := fun s => map fst (elements s);
  clickEffect := fun i s =>
    match nth_error (elements s) i with
    | Some (_, a) => perform a s
    | None => s
    end;
  gotoEffect := fun u s =>
    if String.eqb u "/inventory.html" then show Inventory s
    else if String.eqb u "https://www.saucedemo.com/cart.html" then show Cart s
    else show Elsewhere s;
  url := fun s =>
    match screen s with
    | Inventory => "https://www.saucedemo.com/inventory.html"
    | Cart => "https://www.saucedemo.com/cart.html"
    | Elsewhere => "https://www.saucedemo.com/"
    end;
  tick := fun s => s;
  navigationTimeout := 30000%positive
|}.

(** The inventory screen of a shop with an empty cart. *)
Definition fresh (products : list ProductDetails) : Shop :=
  {| catalog := products; cart := []; screen := Inventory |}.

(** The six products of the demo shop, in the order of its inventory. *)
Definition demoCatalog : list ProductDetails :=
  [ {| name := "Sauce Labs Backpack"; price := "$29.99" |};
    {| name := "Sauce Labs Bike Light"; price := "$9.99" |};
    {| name := "Sauce Labs Bolt T-Shirt"; price := "$15.99" |};
    {| name := "Sauce Labs Fleece Jacket"; price := "$49.99" |};
    {| name := "Sauce Labs Onesie"; price := "$7.99" |};
    {| name := "Test.allTheThings() T-Shirt (Red)"; price := "$15.99" |} ].

End SauceDemo.

(* ====================================================================== *)
(** * Part V. The vocabulary of the properties                            *)
(* ====================================================================== *)

(** ** Elements and their texts *)

(** No element of the document is matched by the selector. *)
Definition absent {W} {site : Site W} (sel : string) (w : W) : Prop :=
  Forall (fun n => matchesSelector sel n = false) (document w).

(** Exactly one element is matched by the selector, and it shows [text]. *)
Definition shows {W} {site : Site W} (sel text : string) (w : W) : Prop :=
  exists i n, resolve (locator sel) w = [(i, n)] /\ innerTextOf n = text.

(** The elements a selector matches, in document order. *)
Definition matches {W} {site : Site W} (sel : string) (w : W) : list Node :=
  filter (matchesSelector sel) (document w).

(** The elements of the shop a selector matches, with their actions. *)
Definition hits (sel : string) (s : SauceDemo.Shop) :
  list (Node * SauceDemo.Action) :=
  filter (fun e => matchesSelector sel (fst e)) (SauceDemo.elements s).

(** ** Navigations *)

(** The address first matches [r] when exactly [t] milliseconds have passed. *)
Definition arrivesAfter {W} {site : Site W} (r : Regex) (t : nat) (w : W) : Prop :=
  test r (url (Nat.iter t tick w)) = true /\
  forall u, u < t -> test r (url (Nat.iter u tick w)) = false.

(** The address does not match [r] now or at any time of the next [bound]
    milliseconds: the navigation comes later, or never. *)
Definition notWithin {W} {site : Site W} (r : Regex) (bound : nat) (w : W) : Prop :=
  forall u, u <= bound -> test r (url (Nat.iter u tick w)) = false.

(** What a wait for the address [r] under a bound of [bound] milliseconds
    does on the page [w]: reached within the bound, after [t] milliseconds,
    the wait is fulfilled at that time; not reached within the bound, the
    wait is rejected with a timeout error when the bound has passed. One of
    the two is the case. *)
Definition waitsAtMost {W} {site : Site W}
    (bound : nat) (r : Regex) (wait : Task W unit) (w : W) : Prop :=
  (forall t, t <= bound -> arrivesAfter r t w ->
     wait w = (Fulfilled tt, Nat.iter t tick w)) /\
  (notWithin r bound w ->
     wait w = (Rejected (TimeoutError "waitForURL"), Nat.iter bound tick w)) /\
  ((exists t, t <= bound /\ arrivesAfter r t w) \/ notWithin r bound w).

(** A page that stays at the login address. *)
Definition stuckLogin : StaticPage.Page :=
  {| StaticPage.nodes := [];
     StaticPage.address := "https://www.saucedemo.com/" |}.

(** A navigation to the inventory that takes [ms] milliseconds. *)
Definition slowLogin (ms : N) : Navigation.Page :=
  {| Navigation.remaining := N.to_nat ms;
     Navigation.origin := "https://www.saucedemo.com/";
     Navigation.destination := "https://www.saucedemo.com/inventory.html" |}.

(** ** The cart badge *)

(** Does the string start with a digit? *)
Definition startsWithDigit (s : string) : bool :=
  match s with
  | String c _ => isDigit c
  | EmptyString => false
  end.

(** A page whose only element is a cart badge showing [text]. *)
Definition badgePage (text : string) : StaticPage.Page :=
  {| StaticPage.nodes := [StaticPage.label ".shopping_cart_badge" text];
     StaticPage.address := "https://www.saucedemo.com/inventory.html" |}.

(** ** Random indices *)

(** What one turn of the loop does to the collected indices. *)
Definition collect (indices : list nat) (randomIndex : nat) : list nat :=
  if InventoryPage.includes indices randomIndex then indices
  else (indices ++ [randomIndex])%list.

(** The indices drawn by the calls number [drawn], ..., [drawn + n - 1]
    of [Math.random()]. *)
Definition draws (random : Random) (max drawn n : nat) : list nat :=
  map (fun d => floorScaled (random d) max) (seq drawn n).

(** The distinct indices among the first [n] draws, in the order in which
    they first appear. *)
Definition selection (random : Random) (max n : nat) : list nat :=
  fold_left collect (draws random max 0 n) [].

(** All sequences of [n] indices below [max]; with a uniform [Math.random]
    they are equally likely to be the first [n] draws. *)
Fixpoint indexSequences (max n : nat) : list (list nat) :=
  match n with
  | 0 => [[]]
  | S n' => flat_map (fun i => map (cons i) (indexSequences max n')) (seq 0 max)
  end.

(** After these draws the loop has collected fewer than [count] indices. *)
Definition stillRunning (count : nat) (l : list nat) : bool :=
  (List.length (fold_left collect l []) <? count)%nat.

(** The index [v] is not among the draws. *)
Definition avoids (v : nat) (l : list nat) : bool :=
  forallb (fun i => negb (i =? v)%nat) l.

(** The sum over [V] of the numbers of members of [L] that satisfy [g v]. *)
Definition tally {A B} (g : B -> A -> bool) (V : list B) (L : list A) : nat :=
  fold_right (fun v acc => List.length (filter (g v) L) + acc) 0 V.

(** A number of the unit interval whose product with [max] has the floor
    [i]: the quotient of [i * 2^53] by [max], rounded up, over [2^53]. *)
Definition indexSource (max i : nat) : number :=
  binary_normalize prec emax
    ((Z.of_nat i * 2 ^ 53 + Z.of_nat max - 1) / Z.of_nat max)%Z (-53)%Z false.

(** The source of random numbers whose draws below [max] are the members of
    [l], and 0 after them. *)
Definition sourceOf (max : nat) (l : list nat) : Random :=
  fun d => indexSource max (List.nth d l 0).

(** A source of random numbers that cycles through 0, the float nearest to
    1/3 (0.3333333333333333) and the float nearest to 2/3
    (0.6666666666666666). *)
Definition cycling : Random := fun d =>
  match d mod 3 with
  | 0 => S754_zero false
  | 1 => S754_finite false 6004799503160661 (-54)
  | _ => S754_finite false 6004799503160661 (-53)
  end.

(** ** The shop *)

(** The record of the product at a position of the catalog. *)
Definition productAt (products : list ProductDetails) (i : nat) : ProductDetails :=
  List.nth i products {| name := EmptyString; price := EmptyString |}.

(** The shop with other contents of the cart. *)
Definition withCart (s : SauceDemo.Shop) (k : list nat) : SauceDemo.Shop :=
  {| SauceDemo.catalog := SauceDemo.catalog s;
     SauceDemo.cart := k;
     SauceDemo.screen := SauceDemo.screen s |}.

(** The members at the odd places 1, 3, 5, ... of a list. *)
Fixpoint oddPlaces {A} (l : list A) : list A :=
  match l with
  | _ :: b :: t => b :: oddPlaces t
  | _ => []
  end.

(** The cart screen of the demo shop with two products in the cart. *)
Definition cartOfTwo : SauceDemo.Shop :=
  {| SauceDemo.catalog := SauceDemo.demoCatalog;
     SauceDemo.cart := [3; 1];
     SauceDemo.screen := SauceDemo.Cart |}.

(** ** Amounts in the labels of the overview *)

(** What the pattern of the amounts captures in a text that follows a dollar
    sign: the longest run of digits, then a point if there is one, then the
    longest run of digits; nothing when the text does not start with a
    digit. The second component is the text that remains. *)
Definition decimalPrefix (s : string) : option (string * string) :=
  if startsWithDigit s then
    let (whole, r1) := span isDigit s in
    let (point, r2) :=
      match r1 with
      | String c r => if Ascii.eqb "." c then (".", r) else (EmptyString, r1)
      | EmptyString => (EmptyString, r1)
      end in
    let (fraction, rest) := span isDigit r2 in
    Some (whole ++ point ++ fraction, rest)
  else None.

(** Does the text start with a dollar sign and a digit? *)
Definition dollarDigit (s : string) : bool :=
  match s with
  | String c t => Ascii.eqb "$" c && startsWithDigit t
  | EmptyString => false
  end.

(** Does some place of the text show a dollar sign followed by a digit? *)
Fixpoint dollarDigitWithin (s : string) : bool :=
  match s with
  | String c t => dollarDigit s || dollarDigitWithin t
  | EmptyString => false
  end.

(** Does the text start with a point? *)
Definition startsWithPoint (s : string) : bool :=
  match s with
  | String c _ => Ascii.eqb "." c
  | EmptyString => false
  end.

(** The text is all digits. *)
Fixpoint allDigits (s : string) : bool :=
  match s with
  | String c t => isDigit c && allDigits t
  | EmptyString => true
  end.

(** The captured text of the leftmost match of the pattern of the amounts. *)
Fixpoint firstAmount (text : string) : option string :=
  match text with
  | String c t =>
      match (if Ascii.eqb "$" c then decimalPrefix t else None) with
      | Some (captured, _) => Some captured
      | None => firstAmount t
      end
  | EmptyString => None
  end.

(** The overview of an order of the backpack. *)
Definition overviewPage : StaticPage.Page :=
  {| StaticPage.nodes :=
       [ StaticPage.label ".title" "Checkout: Overview";
         StaticPage.label ".summary_subtotal_label" "Item total: $29.99";
         StaticPage.label ".summary_tax_label" "Tax: $2.40";
         StaticPage.label ".summary_total_label" "Total: $32.39" ];
     StaticPage.address := "https://www.saucedemo.com/checkout-step-two.html" |}.

(** ** Strings of digits *)

(** The text without its points. *)
Fixpoint unpoint (s : string) : string :=
  match s with
  | String c t => if Ascii.eqb "." c then unpoint t else String c (unpoint t)
  | EmptyString => EmptyString
  end.

(** Is the character not the letter e? *)
Definition notE (c : ascii) : bool := negb (Ascii.eqb "e" c).

(** The text is made of digits and points. *)
Fixpoint plainDecimal (s : string) : bool :=
  match s with
  | String c t => (isDigit c || Ascii.eqb "." c) && plainDecimal t
  | EmptyString => true
  end.

(** ** Listings and probes *)

(** The texts of the elements a selector matches, in document order. *)
Definition textsOf {W} {site : Site W} (sel : string) (w : W) : list string :=
  map innerTextOf (matches sel w).

(** A price as the shop writes it: a dollar sign, digits, and possibly a
    point and more digits; nothing else. *)
Definition plainPrice (t : string) : bool :=
  match t with
  | String c u =>
      Ascii.eqb "$" c && startsWithDigit u &&
      match snd (span isDigit u) with
      | EmptyString => true
      | String d r => Ascii.eqb "." d && allDigits r
      end
  | EmptyString => false
  end.

(** The record that [getItemDetails(i)] reads from the [i]-th name, price
    and quantity of the page. *)
Definition cartItemAt {W} {site : Site W} (w : W) (i : nat) : CartPage.ItemDetails :=
  {| CartPage.name := List.nth i (textsOf ".inventory_item_name" w) EmptyString;
     CartPage.price := List.nth i (textsOf ".inventory_item_price" w) EmptyString;
     CartPage.quantity :=
       parseInt10 (List.nth i (textsOf ".cart_quantity" w) EmptyString) |}.

(** The record that [getAllOrderItems] reads at the index [i]. *)
Definition orderItemAt {W} {site : Site W} (w : W) (i : nat) : ProductDetails :=
  {| name := List.nth i (textsOf ".inventory_item_name" w) EmptyString;
     price := List.nth i (textsOf ".inventory_item_price" w) EmptyString |}.

(** A listing of two rows that shows the name, the price and the quantity
    of the first row only. *)
Definition brokenListing : StaticPage.Page :=
  {| StaticPage.nodes :=
       [ StaticPage.label ".cart_item" EmptyString;
         StaticPage.label ".cart_quantity" "1";
         StaticPage.label ".inventory_item_name" "Sauce Labs Onesie";
         StaticPage.label ".inventory_item_price" "$7.99";
         StaticPage.label ".cart_item" EmptyString ];
     StaticPage.address := "https://www.saucedemo.com/cart.html" |}.

(** The four elements [isCheckoutSuccessful] looks at. *)
Definition successElements : list string :=
  [".complete-header"; ".complete-text"; ".pony_express"; dataTest "back-to-products"].

(** A checkout-complete page with its four elements; the image is shown
    or not. *)
Definition completePage (image : bool) : StaticPage.Page :=
  {| StaticPage.nodes :=
       [ StaticPage.label ".title" "Checkout: Complete!";
         StaticPage.label ".complete-header" "Thank you for your order!";
         StaticPage.label ".complete-text" "Your order has been dispatched";
         {| matching := [".pony_express"]; innerTextOf := EmptyString;
            visible := image; enabled := true |};
         StaticPage.label (dataTest "back-to-products") "Back Home" ];
     StaticPage.address := "https://www.saucedemo.com/checkout-complete.html" |}.

(** ** Floats and their values *)

Section NumberVocabulary.

Local Open Scope Z_scope.

(** The exponent of the last place of a number of [e] binary digits. *)
Definition fexp64 (e : Z) : Z := fexp prec emax e.

(** A zero, an infinity, or a canonical finite float, of sign [s]. *)
Definition wellFormed (s : bool) (x : number) : Prop :=
  x = S754_zero s \/ x = S754_infinity s \/
  exists m e, x = S754_finite s m e /\ bounded prec emax m e = true.

(** The exact value [num / den] of a non-negative finite float. *)
Definition exactValue (x : number) : option (Z * Z) :=
  match x with
  | S754_zero _ => Some (0, 1)
  | S754_finite false m e => Some (fraction m e)
  | _ => None
  end.

(** [n] hundredths are the value of [x] rounded to two decimal places:
    [n - 1/2 <= 100 x < n + 1/2]. *)
Definition roundsToHundredths (x : number) (n : Z) : Prop :=
  match exactValue x with
  | Some (num, den) => (2 * n - 1) * den <= 200 * num < (2 * n + 1) * den
  | None => False
  end.

(** Two amounts agree after rounding to two decimal places; two infinite
    amounts agree as well. *)
Definition agreeToTwoDecimals (x y : number) : Prop :=
  (x = S754_infinity false /\ y = S754_infinity false) \/
  exists n, roundsToHundredths x n /\ roundsToHundredths y n.

(** What [toFixed(2)] shows of a non-negative well-formed float: infinity,
    a number of hundredths below 10^23 in fixed-point notation, or a float
    of at least 10^21 in exponential notation. *)
Inductive Shown (x : number) : Prop :=
| ShownInfinity :
    x = S754_infinity false -> toFixed x 2 = "Infinity"%string -> Shown x
| ShownFixed (n : Z) :
    0 <= n < 10 ^ 23 ->
    toFixed x 2 = pointBeforeLast 2 (decimal (Z.to_N n)) ->
    (forall n', roundsToHundredths x n' <-> n' = n) -> Shown x
| ShownLarge (m : positive) (e : Z) :
    x = S754_finite false m e ->
    bounded prec emax m e = true -> atLeast1e21 m e = true ->
    toFixed x 2 = toStringLarge m e ->
    (forall n', roundsToHundredths x n' <-> n' = 100 * (Z.pos m * 2 ^ e)) ->
    10 ^ 23 <= 100 * (Z.pos m * 2 ^ e) -> Shown x.

End NumberVocabulary.

(* ====================================================================== *)
(** * Part VI. Properties                                                  *)
(* ====================================================================== *)

(** ** Elements that are not there *)

Section ReadingFacts.
Context {W : Type} {site : Site W}.

Lemma filter_none {A} (f : A -> bool) (l : list A) :
  Forall (fun x => f x = false) l -> filter f l = [].
Proof.
  induction 1 as [|x l Hx _ IH]; simpl; [reflexivity|].
  now rewrite Hx.
Qed.

Lemma numbered_snd {A} (l : list A) : map snd (numbered l) = l.
Proof.
  unfold numbered. generalize 0.
  induction l as [|a l IH]; intros k; simpl; [reflexivity|].
  now rewrite IH.
Qed.

Lemma absent_resolve sel (w : W) :
  absent sel w -> resolve (locator sel) w = [].
Proof.
  unfold absent, resolve; simpl. intros H.
  apply filter_none.
  rewrite <- (numbered_snd (document w)) in H.
  rewrite Forall_map in H. exact H.
Qed.

Lemma isVisible_absent sel (w : W) :
  absent sel w -> isVisible (locator sel) w = (Fulfilled false, w).
Proof.
  intros H. unfold isVisible. now rewrite (absent_resolve _ _ H).
Qed.

Lemma innerText_absent sel (w : W) :
  absent sel w ->
  innerText (locator sel) w = (Rejected (TimeoutError sel), w).
Proof.
  intros H. unfold innerText, bind, theElement.
  now rewrite (absent_resolve _ _ H).
Qed.

Lemma innerText_shows sel text (w : W) :
  shows sel text w -> innerText (locator sel) w = (Fulfilled text, w).
Proof.
  intros (i & n & Hr & Ht). unfold innerText, bind, theElement.
  rewrite Hr. simpl. unfold ret. now rewrite Ht.
Qed.

(** A visibility probe leaves the page as it found it. *)
Lemma isVisible_state (l : Locator) (w : W) : snd (isVisible l w) = w.
Proof.
  unfold isVisible. destruct (resolve l w) as [|e [|e' r]]; reflexivity.
Qed.
End ReadingFacts.

(** ** C2: too many products requested *)

(** C2. When [count] exceeds the number of products on the inventory page,
    [addRandomProductsToCart(count)] rejects with the error whose message
    names both numbers, and the page is in the state it was in before the
    call: no add-to-cart click was made, whatever the application. *)
Theorem addRandomProductsToCart_rejects_excess
    {W : Type} {site : Site W} (fuel : nat) (random : Random) (count : nat) (w : W) :
  List.length (resolve InventoryPage.productCards w) < count ->
  InventoryPage.addRandomProductsToCart fuel random count w =
    (Rejected (JsError
       (InventoryPage.notEnoughProducts count
          (List.length (resolve InventoryPage.productCards w)))), w).
Proof.
  intros H.
  unfold InventoryPage.addRandomProductsToCart, InventoryPage.getProductCount,
    bind, Playwright.count.
  apply Nat.ltb_lt in H. now rewrite H.
Qed.

Lemma addRandomProductsToCart_rejects_excess_witness :
  InventoryPage.addRandomProductsToCart 10 (fun _ => zero) 7
      (SauceDemo.fresh SauceDemo.demoCatalog) =
    (Rejected (JsError "Cannot add 7 products. Only 6 products available."),
     SauceDemo.fresh SauceDemo.demoCatalog).
Proof.
  refine (eq_trans
            (addRandomProductsToCart_rejects_excess 10 (fun _ => zero) 7
               (SauceDemo.fresh SauceDemo.demoCatalog) _) _).
  - vm_compute. lia.
  - vm_compute. reflexivity.
Defined.

(** ** C6: probes of missing elements *)

(** C6. On every page where the probed element is missing, the visibility
    probes resolve to [false] and the two reads of the cart badge resolve to
    [0]; none of them rejects, and the page is unchanged. *)
Theorem missing_element_defaults {W : Type} {site : Site W} (w : W) :
  (absent ".shopping_cart_badge" w ->
     InventoryPage.isCartBadgeVisible w = (Fulfilled false, w) /\
     InventoryPage.getCartCount w = (Fulfilled zero, w) /\
     CartPage.getCartBadgeCount w = (Fulfilled zero, w)) /\
  (absent ".pony_express" w ->
     CheckoutCompletePage.isPonyExpressImageVisible w = (Fulfilled false, w)) /\
  (absent (dataTest "error") w ->
     LoginPage.isErrorMessageDisplayed w = (Fulfilled false, w)).
Proof.
  split; [|split]; intros H; [split; [|split]| |].
  - now apply isVisible_absent.
  - unfold InventoryPage.getCartCount, tryCatch, bind.
    unfold InventoryPage.shoppingCartBadge.
    now rewrite (innerText_absent _ _ H).
  - unfold CartPage.getCartBadgeCount, tryCatch, bind.
    unfold CartPage.shoppingCartBadge.
    now rewrite (innerText_absent _ _ H).
  - now apply isVisible_absent.
  - now apply isVisible_absent.
Qed.

(** ** C8: visibility probes are idempotent *)

(** C8. On a page where the element is missing, two visibility probes in a
    row both resolve to [false], and whatever is asked of the page next
    gives what it would have given without the two probes. *)
Theorem visibility_probes_idempotent {W : Type} {site : Site W} (w : W) :
  (absent ".pony_express" w ->
     forall A (next : Task W A),
       (first <- CheckoutCompletePage.isPonyExpressImageVisible ;;
        second <- CheckoutCompletePage.isPonyExpressImageVisible ;;
        answer <- next ;;
        ret (first, second, answer)) w =
       (answer <- next ;; ret (false, false, answer)) w) /\
  (absent ".shopping_cart_badge" w ->
     forall A (next : Task W A),
       (first <- InventoryPage.isCartBadgeVisible ;;
        second <- InventoryPage.isCartBadgeVisible ;;
        answer <- next ;;
        ret (first, second, answer)) w =
       (answer <- next ;; ret (false, false, answer)) w).
Proof.
  split; intros H A next.
  - unfold CheckoutCompletePage.isPonyExpressImageVisible,
      CheckoutCompletePage.ponyExpressImage, bind.
    now rewrite !(isVisible_absent _ _ H).
  - unfold InventoryPage.isCartBadgeVisible,
      InventoryPage.shoppingCartBadge, bind.
    now rewrite !(isVisible_absent _ _ H).
Qed.

Lemma missing_element_defaults_witness :
  let w := {| StaticPage.nodes := [StaticPage.label ".title" "Swag Labs"];
              StaticPage.address := "https://www.saucedemo.com/" |} in
  (InventoryPage.isCartBadgeVisible w = (Fulfilled false, w) /\
   InventoryPage.getCartCount w = (Fulfilled zero, w) /\
   CartPage.getCartBadgeCount w = (Fulfilled zero, w)) /\
  CheckoutCompletePage.isPonyExpressImageVisible w = (Fulfilled false, w) /\
  LoginPage.isErrorMessageDisplayed w = (Fulfilled false, w).
Proof.
  intros w.
  destruct (missing_element_defaults w) as (Hbadge & Hpony & Herror).
  split; [|split].
  - apply Hbadge. repeat constructor.
  - apply Hpony. repeat constructor.
  - apply Herror. repeat constructor.
Defined.

Lemma visibility_probes_idempotent_witness :
  let w := {| StaticPage.nodes := [StaticPage.label ".title" "Swag Labs"];
              StaticPage.address := "https://www.saucedemo.com/" |} in
  (first <- CheckoutCompletePage.isPonyExpressImageVisible ;;
   second <- CheckoutCompletePage.isPonyExpressImageVisible ;;
   answer <- LoginPage.getCurrentURL ;;
   ret (first, second, answer)) w =
  (Fulfilled (false, false, "https://www.saucedemo.com/"), w).
Proof.
  intros w.
  destruct (visibility_probes_idempotent w) as (Hpony & _).
  rewrite Hpony; [reflexivity | repeat constructor].
Defined.

(** ** C7: waits for navigation *)

Section WaitFacts.
Context {W : Type} {site : Site W}.

Lemma iter_tick_shift (t : nat) (w : W) :
  Nat.iter t tick (tick w) = Nat.iter (S t) tick w.
Proof.
  induction t as [|t IH]; simpl; [reflexivity|].
  now rewrite IH.
Qed.

Lemma arrivesAfter_tick r t (w : W) :
  arrivesAfter r (S t) w -> arrivesAfter r t (tick w).
Proof.
  intros [Hin Hbefore]. split.
  - now rewrite iter_tick_shift.
  - intros u Hu. rewrite iter_tick_shift. apply Hbefore. lia.
Qed.

Lemma waitLoop_in_time r t : forall budget (w : W),
  arrivesAfter r t w -> t <= budget ->
  waitLoop r budget w = (Fulfilled tt, Nat.iter t tick w).
Proof.
  induction t as [|t IH]; intros budget w Harr Hle.
  - destruct Harr as [Hin _]. simpl in Hin.
    destruct budget; simpl; now rewrite Hin.
  - destruct budget as [|budget]; [lia|].
    assert (Hnow : test r (url w) = false)
      by (apply (proj2 Harr 0); lia).
    simpl. rewrite Hnow.
    rewrite (IH budget (tick w) (arrivesAfter_tick _ _ _ Harr)) by lia.
    now rewrite iter_tick_shift.
Qed.

Lemma waitLoop_too_late r : forall budget t (w : W),
  arrivesAfter r t w -> budget < t ->
  waitLoop r budget w =
    (Rejected (TimeoutError "waitForURL"), Nat.iter budget tick w).
Proof.
  induction budget as [|budget IH]; intros t w Harr Hlt.
  - assert (Hnow : test r (url w) = false)
      by (apply (proj2 Harr 0); lia).
    simpl. now rewrite Hnow.
  - destruct t as [|t]; [lia|].
    assert (Hnow : test r (url w) = false)
      by (apply (proj2 Harr 0); lia).
    simpl waitLoop. rewrite Hnow.
    rewrite (IH t (tick w) (arrivesAfter_tick _ _ _ Harr)) by lia.
    now rewrite iter_tick_shift.
Qed.
Lemma notWithin_tick r bound (w : W) :
  notWithin r (S bound) w -> notWithin r bound (tick w).
Proof.
  intros H u Hu. rewrite iter_tick_shift. apply H. lia.
Qed.

Lemma waitLoop_not_within r : forall budget (w : W),
  notWithin r budget w ->
  waitLoop r budget w =
    (Rejected (TimeoutError "waitForURL"), Nat.iter budget tick w).
Proof.
  induction budget as [|budget IH]; intros w Hnot.
  - pose proof (Hnot 0 (Nat.le_refl 0)) as Hnow. simpl in Hnow.
    simpl. now rewrite Hnow.
  - pose proof (Hnot 0 (Nat.le_0_l _)) as Hnow. simpl in Hnow.
    simpl waitLoop. rewrite Hnow.
    rewrite (IH (tick w) (notWithin_tick _ _ _ Hnot)).
    now rewrite iter_tick_shift.
Qed.

Lemma arrives_or_not r (w : W) : forall bound,
  (exists t, t <= bound /\ arrivesAfter r t w) \/ notWithin r bound w.
Proof.
  induction bound as [|bound [(t & Ht & Harr)|Hnot]].
  - destruct (test r (url w)) eqn:E.
    + left. exists 0. split; [lia|]. split; [exact E | intros u Hu; lia].
    + right. intros u Hu. replace u with 0 by lia. exact E.
  - left. exists t. split; [lia | exact Harr].
  - destruct (test r (url (Nat.iter (S bound) tick w))) eqn:E.
    + left. exists (S bound). split; [lia|]. split; [exact E|].
      intros u Hu. apply Hnot. lia.
    + right. intros u Hu. destruct (Nat.eq_dec u (S bound)) as [->|Hne];
        [exact E | apply Hnot; lia].
Qed.

Lemma waitLoop_waitsAtMost r bound (w : W) :
  waitsAtMost bound r (waitLoop r bound) w.
Proof.
  split; [|split].
  - intros t Ht Harr. now apply waitLoop_in_time.
  - apply waitLoop_not_within.
  - apply arrives_or_not.
Qed.
End WaitFacts.

(** C7, as the code has it. The three waits of the checkout pages carry
    the bound of 10000 ms. Whatever the page does, each of them ends in one
    of two ways: when the awaited address is reached within 10000 ms the
    wait is fulfilled, at the time the address is reached; when it is not
    reached within 10000 ms, because the navigation comes later or because
    it never comes, the wait is rejected with a timeout error after
    10000 ms. [LoginPage.waitForInventoryPage] names no bound: the same
    holds for it with the configured default in place of 10000. *)
Theorem waits_for_navigation_bounds {W : Type} {site : Site W} (w : W) :
  waitsAtMost (Pos.to_nat 10000) checkoutStepOneUrl
    CheckoutStepOnePage.waitForPageLoad w /\
  waitsAtMost (Pos.to_nat 10000) checkoutCompleteUrl
    CheckoutStepTwoPage.waitForCheckoutComplete w /\
  waitsAtMost (Pos.to_nat 10000) inventoryUrl
    CheckoutCompletePage.waitForInventoryPage w /\
  waitsAtMost (Pos.to_nat navigationTimeout) inventoryUrl
    LoginPage.waitForInventoryPage w.
Proof.
  split; [|split; [|split]]; apply waitLoop_waitsAtMost.
Qed.

Section NavigationFacts.
Import Navigation.

Lemma navigation_iter (u : nat) (w : Page) :
  Nat.iter u tick w =
    {| remaining := remaining w - u;
       origin := origin w;
       destination := destination w |}.
Proof.
  induction u as [|u IH].
  - destruct w; simpl. now rewrite Nat.sub_0_r.
  - change (Nat.iter (S u) tick w) with (tick (Nat.iter u tick w)).
    rewrite IH. simpl. f_equal. lia.
Qed.

Lemma navigation_arrives (r : Regex) (w : Page) :
  test r (origin w) = false ->
  test r (destination w) = true ->
  arrivesAfter r (remaining w) w.
Proof.
  intros Horigin Hdestination. split.
  - rewrite navigation_iter. simpl. now rewrite Nat.sub_diag.
  - intros u Hu. rewrite navigation_iter. simpl.
    destruct (remaining w - u) eqn:E; [lia | exact Horigin].
Qed.
End NavigationFacts.

Lemma static_iter (u : nat) (w : StaticPage.Page) : Nat.iter u tick w = w.
Proof.
  induction u as [|u IH]; [reflexivity|].
  change (Nat.iter (S u) tick w) with (tick (Nat.iter u tick w)).
  now rewrite IH.
Qed.

Lemma waits_for_navigation_bounds_witness :
  CheckoutCompletePage.waitForInventoryPage (slowLogin 250) =
    (Fulfilled tt, slowLogin 0) /\
  CheckoutCompletePage.waitForInventoryPage (slowLogin 10001) =
    (Rejected (TimeoutError "waitForURL"), slowLogin 1) /\
  CheckoutCompletePage.waitForInventoryPage stuckLogin =
    (Rejected (TimeoutError "waitForURL"), stuckLogin) /\
  LoginPage.waitForInventoryPage stuckLogin =
    (Rejected (TimeoutError "waitForURL"), stuckLogin).
Proof.
  split; [|split; [|split]].
  - destruct (waits_for_navigation_bounds (slowLogin 250))
      as (_ & _ & (H & _ & _) & _).
    rewrite (H (N.to_nat 250))
      by (try (apply Nat.leb_le; vm_compute; reflexivity);
          apply (navigation_arrives inventoryUrl (slowLogin 250));
          vm_compute; reflexivity).
    rewrite navigation_iter. vm_compute. reflexivity.
  - destruct (waits_for_navigation_bounds (slowLogin 10001))
      as (_ & _ & (_ & H & _) & _).
    rewrite H.
    + rewrite navigation_iter. vm_compute. reflexivity.
    + intros u Hu. rewrite navigation_iter.
      change (Pos.to_nat 10000) with (N.to_nat 10000) in Hu.
      unfold slowLogin, url, Navigation.site.
      cbn [Navigation.remaining Navigation.origin Navigation.destination].
      destruct (N.to_nat 10001 - u) eqn:E; [|vm_compute; reflexivity].
      assert (N.to_nat 10001 = S (N.to_nat 10000))
        by (apply Nat.eqb_eq; vm_compute; reflexivity).
      lia.
  - destruct (waits_for_navigation_bounds stuckLogin)
      as (_ & _ & (_ & H & _) & _).
    rewrite H.
    + now rewrite static_iter.
    + intros u _. rewrite static_iter. vm_compute. reflexivity.
  - destruct (waits_for_navigation_bounds stuckLogin)
      as (_ & _ & _ & (_ & H & _)).
    rewrite H.
    + now rewrite static_iter.
    + intros u _. rewrite static_iter. vm_compute. reflexivity.
Defined.

(** C7, counterexample. A navigation after login that takes 20 seconds, under
    the default bound of 30 seconds: [LoginPage.waitForInventoryPage] is
    fulfilled although 10 seconds were exceeded, where the wait of the
    checkout-complete page for the same address is rejected. *)
Lemma login_wait_exceeds_ten_seconds :
  arrivesAfter inventoryUrl (N.to_nat 20000) (slowLogin 20000) /\
  LoginPage.waitForInventoryPage (slowLogin 20000) = (Fulfilled tt, slowLogin 0) /\
  CheckoutCompletePage.waitForInventoryPage (slowLogin 20000) =
    (Rejected (TimeoutError "waitForURL"), slowLogin 10000).
Proof.
  assert (Harr : arrivesAfter inventoryUrl (N.to_nat 20000) (slowLogin 20000))
    by (apply (navigation_arrives inventoryUrl (slowLogin 20000));
        vm_compute; reflexivity).
  split; [exact Harr | split].
  - unfold LoginPage.waitForInventoryPage, waitForURL.
    rewrite (waitLoop_in_time _ _ _ _ Harr)
      by (apply Nat.leb_le; vm_compute; reflexivity).
    rewrite navigation_iter. vm_compute. reflexivity.
  - unfold CheckoutCompletePage.waitForInventoryPage, waitForURL.
    rewrite (waitLoop_too_late _ _ _ _ Harr)
      by (apply Nat.ltb_lt; vm_compute; reflexivity).
    rewrite navigation_iter. vm_compute. reflexivity.
Qed.

(** ** C10: the count on the cart badge *)

Lemma span_no_digit (s : string) :
  startsWithDigit s = false -> fst (span isDigit s) = EmptyString.
Proof.
  destruct s as [|c s]; simpl; [reflexivity|].
  intros H. now rewrite H.
Qed.

Lemma parseInt10_NaN (text : string) :
  startsWithDigit (snd (signPrefix (trimStart text))) = false ->
  parseInt10 text = NaN.
Proof.
  unfold parseInt10. destruct (signPrefix (trimStart text)) as [neg u]. simpl.
  intros H. apply span_no_digit in H.
  destruct (span isDigit u) as [ds rest]. simpl in H. now subst ds.
Qed.

(** C10, as the code has it. When the cart badge is there and shows [text],
    [getCartCount] and [getCartBadgeCount] resolve to [parseInt(text, 10)];
    this is [NaN], not the default [0], when what follows the leading white
    space and one optional sign does not start with a digit. *)
Theorem cart_badge_count_is_parseInt {W : Type} {site : Site W} (w : W) (text : string) :
  shows ".shopping_cart_badge" text w ->
  InventoryPage.getCartCount w = (Fulfilled (parseInt10 text), w) /\
  CartPage.getCartBadgeCount w = (Fulfilled (parseInt10 text), w) /\
  (startsWithDigit (snd (signPrefix (trimStart text))) = false ->
   parseInt10 text = NaN /\ parseInt10 text <> zero).
Proof.
  intros H. split; [|split].
  - unfold InventoryPage.getCartCount, InventoryPage.shoppingCartBadge,
      tryCatch, bind.
    now rewrite (innerText_shows _ _ _ H).
  - unfold CartPage.getCartBadgeCount, CartPage.shoppingCartBadge,
      tryCatch, bind.
    now rewrite (innerText_shows _ _ _ H).
  - intros Hd. rewrite (parseInt10_NaN _ Hd). split; [reflexivity | discriminate].
Qed.

Lemma cart_badge_count_is_parseInt_witness :
  InventoryPage.getCartCount (badgePage "three") = (Fulfilled NaN, badgePage "three") /\
  CartPage.getCartBadgeCount (badgePage "3") =
    (Fulfilled (S754_finite false 6755399441055744 (-51)), badgePage "3").
Proof.
  split.
  - destruct (cart_badge_count_is_parseInt (badgePage "three") "three") as (H & _).
    + exists 0, (StaticPage.label ".shopping_cart_badge" "three"). split; reflexivity.
    + exact H.
  - destruct (cart_badge_count_is_parseInt (badgePage "3") "3") as (_ & H & _).
    + exists 0, (StaticPage.label ".shopping_cart_badge" "3"). split; reflexivity.
    + exact H.
Defined.

(** C10, counterexample. The badge text [-5] does not start with a digit,
    and the count read from it is the number -5, not [NaN]. *)
Lemma signed_badge_text_is_a_number :
  startsWithDigit "-5" = false /\
  InventoryPage.getCartCount (badgePage "-5") =
    (Fulfilled (S754_finite true 5629499534213120 (-50)), badgePage "-5") /\
  CartPage.getCartBadgeCount (badgePage "-5") =
    (Fulfilled (S754_finite true 5629499534213120 (-50)), badgePage "-5") /\
  S754_finite true 5629499534213120 (-50) <> NaN.
Proof.
  repeat split; try reflexivity. discriminate.
Qed.

(** ** Locators on numbered documents *)

Section LocatorFacts.
Context {A : Type}.

Lemma filter_numbered_snd (g : A -> bool) (l : list A) : forall k,
  map snd (filter (fun e => g (snd e)) (combine (seq k (List.length l)) l)) =
  filter g l.
Proof.
  induction l as [|x l IH]; intros k; simpl; [reflexivity|].
  destruct (g x); simpl; now rewrite IH.
Qed.

Lemma numbered_lookup (l : list A) : forall k i x,
  In (i, x) (combine (seq k (List.length l)) l) ->
  k <= i /\ nth_error l (i - k) = Some x.
Proof.
  induction l as [|y l IH]; intros k i x H; simpl in H; [contradiction|].
  destruct H as [H|H].
  - inversion H; subst. rewrite Nat.sub_diag. split; [lia | reflexivity].
  - destruct (IH _ _ _ H) as [Hle Hnth]. split; [lia|].
    replace (i - k) with (S (i - S k)) by lia. exact Hnth.
Qed.
End LocatorFacts.

Section ElementFacts.
Context {W : Type} {site : Site W}.

Lemma resolve_nodes (sel : string) (w : W) :
  map snd (resolve (locator sel) w) = matches sel w.
Proof. apply filter_numbered_snd. Qed.

Lemma count_matches (sel : string) (w : W) :
  count (locator sel) w = (Fulfilled (List.length (matches sel w)), w).
Proof.
  unfold count. now rewrite <- resolve_nodes, length_map.
Qed.

Lemma resolve_nth (sel : string) (i : nat) (w : W) :
  map snd (resolve (nth (locator sel) i) w) =
    match nth_error (matches sel w) i with
    | Some n => [n]
    | None => []
    end.
Proof.
  unfold resolve, matches. simpl.
  rewrite <- (filter_numbered_snd (matchesSelector sel) (document w) 0).
  rewrite nth_error_map. unfold numbered.
  now destruct (nth_error _ i).
Qed.

Lemma innerText_nth (sel : string) (i : nat) (w : W) (n : Node) :
  nth_error (matches sel w) i = Some n ->
  innerText (nth (locator sel) i) w = (Fulfilled (innerTextOf n), w).
Proof.
  intros H. pose proof (resolve_nth sel i w) as R. rewrite H in R.
  unfold innerText, bind, theElement.
  destruct (resolve (nth (locator sel) i) w) as [|[j m] [|e r]];
    simpl in R; try discriminate.
  now inversion R.
Qed.

Lemma resolve_none (sel : string) (w : W) :
  matches sel w = [] -> resolve (locator sel) w = [].
Proof.
  intros H. rewrite <- resolve_nodes in H.
  now destruct (resolve (locator sel) w).
Qed.

(** A click on an element that is not there runs into the timeout. *)
Lemma click_none (sel : string) (w : W) :
  matches sel w = [] ->
  click (locator sel) w = (Rejected (TimeoutError sel), w).
Proof.
  intros H. unfold click, bind, theElement. now rewrite (resolve_none _ _ H).
Qed.
End ElementFacts.

(** ** The shop's document *)

Section ShopFacts.
Import SauceDemo.

Lemma filter_fst_map (g : Node -> bool) (l : list (Node * Action)) :
  filter g (map fst l) = map fst (filter (fun e => g (fst e)) l).
Proof.
  induction l as [|e l IH]; simpl; [reflexivity|].
  destruct (g (fst e)); simpl; now rewrite IH.
Qed.

Lemma matches_hits (sel : string) (s : Shop) :
  matches sel s = map fst (hits sel s).
Proof. apply filter_fst_map. Qed.

Lemma numbered_map_fst (l : list (Node * Action)) (g : Node -> bool) : forall k,
  filter (fun e => g (snd e)) (combine (seq k (List.length (map fst l))) (map fst l)) =
  map (fun e => (fst e, fst (snd e)))
      (filter (fun e => g (fst (snd e))) (combine (seq k (List.length l)) l)).
Proof.
  induction l as [|e l IH]; intros k; simpl; [reflexivity|].
  destruct (g (fst e)); simpl; now rewrite IH.
Qed.

(** A click on the [i]-th element matched by a selector performs the action
    of that element. *)
Lemma click_nth_hit (sel : string) (i : nat) (s : Shop) (n : Node) (a : Action) :
  nth_error (hits sel s) i = Some (n, a) ->
  visible n = true -> enabled n = true ->
  click (nth (locator sel) i) s = (Fulfilled tt, perform a s).
Proof.
  intros H Hv He.
  unfold click, bind, theElement, resolve, numbered. simpl.
  rewrite numbered_map_fst, nth_error_map.
  pose proof (filter_numbered_snd
                (fun e : Node * Action => matchesSelector sel (fst e))
                (elements s) 0) as Hsnd.
  fold (hits sel s) in Hsnd.
  assert (Hmap : nth_error
            (map snd (filter (fun e => matchesSelector sel (fst (snd e)))
                        (combine (seq 0 (List.length (elements s))) (elements s)))) i
          = Some (n, a)) by now rewrite Hsnd.
  rewrite nth_error_map in Hmap.
  destruct (nth_error (filter _ _) i) as [[j [n' a']]|] eqn:E;
    simpl in Hmap; [|discriminate].
  inversion Hmap; subst n' a'. simpl. rewrite Hv, He. simpl.
  apply nth_error_In, filter_In in E. destruct E as [E _].
  apply numbered_lookup in E. destruct E as [_ E]. rewrite Nat.sub_0_r in E.
  now rewrite E.
Qed.

(** No [i]-th element: the click runs into its bound. *)
Lemma click_nth_miss (sel : string) (i : nat) (s : Shop) :
  nth_error (hits sel s) i = None ->
  click (nth (locator sel) i) s = (Rejected (TimeoutError sel), s).
Proof.
  intros H. pose proof (resolve_nth sel i s) as R.
  rewrite matches_hits, nth_error_map, H in R. simpl in R.
  unfold click, bind, theElement.
  destruct (resolve (nth (locator sel) i) s); [reflexivity | discriminate].
Qed.

(** A click through a selector that matches one element. *)
Lemma click_hit (sel : string) (s : Shop) (n : Node) (a : Action) :
  hits sel s = [(n, a)] ->
  visible n = true -> enabled n = true ->
  click (locator sel) s = (Fulfilled tt, perform a s).
Proof.
  intros H Hv He.
  unfold click, bind, theElement, resolve, numbered. simpl.
  rewrite numbered_map_fst.
  pose proof (filter_numbered_snd
                (fun e : Node * Action => matchesSelector sel (fst e))
                (elements s) 0) as Hsnd.
  fold (hits sel s) in Hsnd. rewrite H in Hsnd.
  destruct (filter _ (combine _ (elements s))) as [|[j [n' a']] [|e r]] eqn:E;
    simpl in Hsnd; try discriminate.
  inversion Hsnd; subst n' a'. simpl. rewrite Hv, He. simpl.
  assert (Hin : In (j, (n, a))
                   (filter (fun e => matchesSelector sel (fst (snd e)))
                      (combine (seq 0 (List.length (elements s))) (elements s))))
    by (rewrite E; now left).
  apply filter_In in Hin. destruct Hin as [Hin _].
  apply numbered_lookup in Hin. destruct Hin as [_ Hin].
  rewrite Nat.sub_0_r in Hin. now rewrite Hin.
Qed.
End ShopFacts.

Section SelectorFacts.
Import SauceDemo.

Lemma length_append (a b : string) :
  String.length (a ++ b) = String.length a + String.length b.
Proof.
  induction a as [|c a IH]; simpl; [reflexivity | now rewrite IH].
Qed.

Lemma append_cancel_r (a b t : string) : a ++ t = b ++ t -> a = b.
Proof.
  revert b. induction a as [|c a IH]; intros b H.
  - destruct b as [|d b]; [reflexivity|].
    apply (f_equal String.length) in H. simpl in H.
    rewrite length_append in H. lia.
  - destruct b as [|d b].
    + apply (f_equal String.length) in H. simpl in H.
      rewrite length_append in H. lia.
    + simpl in H. inversion H. f_equal. now apply IH.
Qed.

Lemma dataTest_inj (x y : string) : dataTest x = dataTest y -> x = y.
Proof.
  unfold dataTest. intros H. simpl in H. inversion H as [H'].
  now apply append_cancel_r in H'.
Qed.

Lemma add_selector_inj (x y : string) :
  String.eqb (dataTest ("add-to-cart-" ++ x)) (dataTest ("add-to-cart-" ++ y)) =
  String.eqb x y.
Proof.
  destruct (String.eqb_spec x y) as [->|Hne].
  - apply String.eqb_refl.
  - apply String.eqb_neq. intros H. apply dataTest_inj in H.
    simpl in H. inversion H. contradiction.
Qed.

Lemma add_selector_not_remove (x y : string) :
  String.eqb (dataTest ("add-to-cart-" ++ x)) (dataTest ("remove-" ++ y)) = false.
Proof.
  apply String.eqb_neq. intros H. apply dataTest_inj in H. discriminate.
Qed.

Lemma filter_flat_map {A B} (f : B -> bool) (g : A -> list B) (l : list A) :
  filter f (flat_map g l) = flat_map (fun x => filter f (g x)) l.
Proof.
  induction l as [|x l IH]; simpl; [reflexivity|].
  now rewrite filter_app, IH.
Qed.

(** The header matches none of the selectors of products. *)
Lemma header_no_hit (sel title : string) (s : Shop) :
  String.eqb sel ".shopping_cart_link" = false ->
  String.eqb sel ".shopping_cart_badge" = false ->
  String.eqb sel ".title" = false ->
  filter (fun e => matchesSelector sel (fst e)) (header s title) = [].
Proof.
  intros H1 H2 H3. unfold header, matchesSelector.
  destruct (cart s); simpl; now rewrite H1, ?H2, H3.
Qed.

Variable s : Shop.
Hypothesis on_inventory : screen s = Inventory.

Lemma hits_inventory (sel : string) :
  String.eqb sel ".shopping_cart_link" = false ->
  String.eqb sel ".shopping_cart_badge" = false ->
  String.eqb sel ".title" = false ->
  hits sel s =
    flat_map (fun e => filter (fun e' => matchesSelector sel (fst e')) (productCard s e))
             (numbered (catalog s)).
Proof.
  intros H1 H2 H3. unfold hits, elements. rewrite on_inventory.
  now rewrite filter_app, header_no_hit, filter_flat_map.
Qed.

Lemma hits_cards :
  hits ".inventory_item" s =
    map (fun _ => element [".inventory_item"] EmptyString NoAction) (catalog s).
Proof.
  rewrite hits_inventory by reflexivity.
  unfold numbered. generalize 0.
  induction (catalog s) as [|p c IH]; intros k; [reflexivity|].
  cbn [List.length seq combine flat_map map]. rewrite IH.
  unfold productCard. destruct (inCart s k); reflexivity.
Qed.

Lemma hits_names :
  hits ".inventory_item_name" s =
    map (fun p => element [".inventory_item_name"] (name p) NoAction) (catalog s).
Proof.
  rewrite hits_inventory by reflexivity.
  unfold numbered. generalize 0.
  induction (catalog s) as [|p c IH]; intros k; [reflexivity|].
  cbn [List.length seq combine flat_map map]. rewrite IH.
  unfold productCard. destruct (inCart s k); reflexivity.
Qed.

Lemma hits_prices :
  hits ".inventory_item_price" s =
    map (fun p => element [".inventory_item_price"] (price p) NoAction) (catalog s).
Proof.
  rewrite hits_inventory by reflexivity.
  unfold numbered. generalize 0.
  induction (catalog s) as [|p c IH]; intros k; [reflexivity|].
  cbn [List.length seq combine flat_map map]. rewrite IH.
  unfold productCard. destruct (inCart s k); reflexivity.
Qed.

(** What the add-button selector of a name matches in one product card. *)
Lemma card_add_hit (x : string) (k : nat) (p : ProductDetails) :
  filter (fun e => matchesSelector (dataTest ("add-to-cart-" ++ x)) (fst e))
         (productCard s (k, p)) =
  if negb (inCart s k) && String.eqb x (slug (name p))
  then [addButton k p] else [].
Proof.
  unfold productCard.
  assert (Hadd : matchesSelector (dataTest ("add-to-cart-" ++ x))
                   (fst (addButton k p)) = String.eqb x (slug (name p))).
  { unfold matchesSelector, addButton, element.
    cbn [fst matching existsb]. rewrite add_selector_inj.
    now rewrite !orb_false_r. }
  assert (Hremove : matchesSelector (dataTest ("add-to-cart-" ++ x))
                      (fst (removeButton k p)) = false).
  { unfold matchesSelector, removeButton, element.
    cbn [fst matching existsb]. now rewrite add_selector_not_remove. }
  cbn [filter]. destruct (inCart s k).
  - rewrite Hremove. reflexivity.
  - rewrite Hadd. cbn [negb andb].
    destruct (String.eqb x (slug (name p))); reflexivity.
Qed.

Lemma no_add_hit (x : string) (c : list ProductDetails) : forall k,
  ~ In x (map (fun p => slug (name p)) c) ->
  flat_map (fun e => filter (fun e' => matchesSelector
                                        (dataTest ("add-to-cart-" ++ x)) (fst e'))
                            (productCard s e))
           (combine (seq k (List.length c)) c) = [].
Proof.
  induction c as [|p c IH]; intros k Hx; [reflexivity|].
  cbn [List.length seq combine flat_map]. rewrite card_add_hit.
  simpl in Hx.
  destruct (String.eqb_spec x (slug (name p))) as [E|_].
  - exfalso. apply Hx. now left.
  - rewrite andb_false_r. simpl. apply IH. tauto.
Qed.

Lemma one_add_hit (c : list ProductDetails) : forall k i p,
  NoDup (map (fun p => slug (name p)) c) ->
  nth_error c i = Some p ->
  flat_map (fun e => filter (fun e' => matchesSelector
                                        (dataTest ("add-to-cart-" ++ slug (name p)))
                                        (fst e'))
                            (productCard s e))
           (combine (seq k (List.length c)) c) =
  if inCart s (k + i) then [] else [addButton (k + i) p].
Proof.
  induction c as [|q c IH]; intros k i p Hnd Hnth.
  - destruct i; discriminate.
  - cbn [List.length seq combine flat_map]. rewrite card_add_hit.
    simpl in Hnd. inversion Hnd as [|? ? Hq Hnd']; subst.
    destruct i as [|i]; simpl in Hnth.
    + inversion Hnth; subst q. rewrite String.eqb_refl, andb_true_r, Nat.add_0_r.
      rewrite no_add_hit by exact Hq.
      destruct (inCart s k); reflexivity.
    + assert (Hne : String.eqb (slug (name p)) (slug (name q)) = false).
      { apply String.eqb_neq. intros E. apply Hq. rewrite <- E.
        apply in_map_iff. exists p. split; [reflexivity|].
        eapply nth_error_In; eassumption. }
      rewrite Hne, andb_false_r. cbn [app].
      rewrite (IH (S k) i p Hnd' Hnth).
      now replace (S k + i) with (k + S i) by lia.
Qed.

Lemma hits_add (i : nat) (p : ProductDetails) :
  NoDup (map (fun p => slug (name p)) (catalog s)) ->
  nth_error (catalog s) i = Some p ->
  inCart s i = false ->
  hits (dataTest ("add-to-cart-" ++ slug (name p))) s = [addButton i p].
Proof.
  intros Hnd Hnth Hcart.
  rewrite hits_inventory by reflexivity.
  unfold numbered. rewrite (one_add_hit _ 0 i p Hnd Hnth).
  simpl. now rewrite Hcart.
Qed.

(** A product in the cart shows no add button. *)
Lemma hits_add_taken (i : nat) (p : ProductDetails) :
  NoDup (map (fun p => slug (name p)) (catalog s)) ->
  nth_error (catalog s) i = Some p ->
  inCart s i = true ->
  hits (dataTest ("add-to-cart-" ++ slug (name p))) s = [].
Proof.
  intros Hnd Hnth Hcart.
  rewrite hits_inventory by reflexivity.
  unfold numbered. rewrite (one_add_hit _ 0 i p Hnd Hnth).
  simpl. now rewrite Hcart.
Qed.
End SelectorFacts.

(** ** Adding products on the inventory screen *)

Section AddingFacts.
Import SauceDemo.

Variable s : Shop.
Hypothesis on_inventory : screen s = Inventory.
Hypothesis distinct_names : NoDup (map (fun p => slug (name p)) (catalog s)).

Lemma getProductCount_shop :
  InventoryPage.getProductCount s = (Fulfilled (List.length (catalog s)), s).
Proof.
  unfold InventoryPage.getProductCount, InventoryPage.productCards.
  rewrite count_matches, matches_hits, (hits_cards s on_inventory).
  now rewrite !length_map.
Qed.

Lemma getProductDetails_shop (i : nat) (p : ProductDetails) :
  nth_error (catalog s) i = Some p ->
  InventoryPage.getProductDetails i s = (Fulfilled p, s).
Proof.
  intros H. unfold InventoryPage.getProductDetails, bind.
  unfold InventoryPage.productNames, InventoryPage.productPrices.
  rewrite (innerText_nth _ _ _ (fst (element [".inventory_item_name"] (name p) NoAction))).
  - rewrite (innerText_nth _ _ _
               (fst (element [".inventory_item_price"] (price p) NoAction))).
    + destruct p; reflexivity.
    + rewrite matches_hits, (hits_prices s on_inventory), !nth_error_map, H.
      reflexivity.
  - rewrite matches_hits, (hits_names s on_inventory), !nth_error_map, H.
    reflexivity.
Qed.

Lemma addProductToCartByIndex_shop (i : nat) (p : ProductDetails) :
  nth_error (catalog s) i = Some p ->
  inCart s i = false ->
  InventoryPage.addProductToCartByIndex i s =
    (Fulfilled tt, withCart s (cart s ++ [i])).
Proof.
  intros H Hcart. unfold InventoryPage.addProductToCartByIndex, bind.
  unfold InventoryPage.productNames.
  rewrite (innerText_nth _ _ _ (fst (element [".inventory_item_name"] (name p) NoAction)))
    by (rewrite matches_hits, (hits_names s on_inventory), !nth_error_map, H;
        reflexivity).
  cbn [innerTextOf element fst].
  change (replaceAll (toLowerCase (name p)) whiteSpaceRun "-") with (slug (name p)).
  rewrite (click_hit _ _ _ _ (hits_add s on_inventory i p distinct_names H Hcart))
    by reflexivity.
  unfold perform, withCart. now rewrite Hcart.
Qed.

(** The add button of a product in the cart is not there: the click runs
    into the timeout, and the cart is as it was. *)
Lemma addProductToCartByIndex_taken (i : nat) (p : ProductDetails) :
  nth_error (catalog s) i = Some p ->
  inCart s i = true ->
  InventoryPage.addProductToCartByIndex i s =
    (Rejected (TimeoutError (dataTest ("add-to-cart-" ++ slug (name p)))), s).
Proof.
  intros H Hcart. unfold InventoryPage.addProductToCartByIndex, bind.
  unfold InventoryPage.productNames.
  rewrite (innerText_nth _ _ _ (fst (element [".inventory_item_name"] (name p) NoAction)))
    by (rewrite matches_hits, (hits_names s on_inventory), !nth_error_map, H;
        reflexivity).
  cbn [innerTextOf element fst].
  change (replaceAll (toLowerCase (name p)) whiteSpaceRun "-") with (slug (name p)).
  apply click_none.
  now rewrite matches_hits, (hits_add_taken s on_inventory i p distinct_names H Hcart).
Qed.
End AddingFacts.

Lemma inCart_In (s : SauceDemo.Shop) (i : nat) :
  SauceDemo.inCart s i = true <-> In i (SauceDemo.cart s).
Proof.
  unfold SauceDemo.inCart. rewrite existsb_exists. split.
  - intros (y & Hy & E). apply Nat.eqb_eq in E. now subst.
  - intros H. exists i. split; [exact H | apply Nat.eqb_refl].
Qed.

Lemma productAt_lookup (products : list ProductDetails) (i : nat) :
  i < List.length products ->
  nth_error products i = Some (productAt products i).
Proof. intros H. unfold productAt. now apply nth_error_nth'. Qed.

(** The loop over the selected indices: one record and one click per index,
    in the order of the indices. *)
Lemma addEach_shop (indices : list nat) : forall (s : SauceDemo.Shop) added,
  SauceDemo.screen s = SauceDemo.Inventory ->
  NoDup (map (fun p => SauceDemo.slug (name p)) (SauceDemo.catalog s)) ->
  NoDup indices ->
  Forall (fun i => i < List.length (SauceDemo.catalog s)) indices ->
  Forall (fun i => ~ In i (SauceDemo.cart s)) indices ->
  InventoryPage.addEach indices added s =
    (Fulfilled (added ++ map (productAt (SauceDemo.catalog s)) indices)%list,
     withCart s (SauceDemo.cart s ++ indices)).
Proof.
  induction indices as [|i indices IH]; intros s added Hscreen Hnames Hnd Hlt Hcart.
  - simpl. unfold ret, withCart. rewrite !app_nil_r. now destruct s.
  - inversion Hnd as [|? ? Hi Hnd']; subst.
    inversion Hlt as [|? ? Hilt Hlt']; subst.
    inversion Hcart as [|? ? Hic Hcart']; subst.
    pose proof (productAt_lookup _ _ Hilt) as Hp.
    assert (Hnot : SauceDemo.inCart s i = false).
    { destruct (SauceDemo.inCart s i) eqn:E; [|reflexivity].
      apply inCart_In in E. contradiction. }
    cbn [InventoryPage.addEach]. unfold bind at 1.
    rewrite (getProductDetails_shop s Hscreen i _ Hp).
    unfold bind at 1.
    rewrite (addProductToCartByIndex_shop s Hscreen Hnames i _ Hp Hnot).
    rewrite IH; try assumption.
    + cbn [withCart SauceDemo.catalog SauceDemo.cart SauceDemo.screen map].
      unfold withCart. cbn [SauceDemo.catalog SauceDemo.cart SauceDemo.screen].
      now rewrite <- !app_assoc.
    + cbn [withCart SauceDemo.cart]. apply Forall_forall.
      intros j Hj Hin. apply in_app_or in Hin. destruct Hin as [Hin|[Hin|[]]].
      * rewrite Forall_forall in Hcart'. now apply (Hcart' j).
      * subst j. contradiction.
Qed.

(** The loop stops at the first selected product that is in the cart: the
    products selected before it have been added, the call is rejected. *)
Lemma addEach_stops (before : list nat) :
  forall (s : SauceDemo.Shop) added (i : nat) (rest : list nat),
  SauceDemo.screen s = SauceDemo.Inventory ->
  NoDup (map (fun p => SauceDemo.slug (name p)) (SauceDemo.catalog s)) ->
  NoDup (before ++ [i])%list ->
  Forall (fun j => j < List.length (SauceDemo.catalog s)) (before ++ [i])%list ->
  Forall (fun j => ~ In j (SauceDemo.cart s)) before ->
  In i (SauceDemo.cart s) ->
  InventoryPage.addEach (before ++ i :: rest)%list added s =
    (Rejected (TimeoutError
       (dataTest ("add-to-cart-" ++
                  SauceDemo.slug (name (productAt (SauceDemo.catalog s) i))))),
     withCart s (SauceDemo.cart s ++ before)).
Proof.
  induction before as [|j before IH];
    intros s added i rest Hscreen Hnames Hnd Hlt Hfree Hin.
  - inversion Hlt as [|? ? Hilt _]; subst.
    pose proof (productAt_lookup _ _ Hilt) as Hp.
    cbn [app InventoryPage.addEach]. unfold bind at 1.
    rewrite (getProductDetails_shop s Hscreen i _ Hp).
    unfold bind at 1.
    rewrite (addProductToCartByIndex_taken s Hscreen Hnames i _ Hp)
      by now apply inCart_In.
    unfold withCart. rewrite app_nil_r. now destruct s.
  - cbn [app] in Hnd, Hlt |- *.
    inversion Hnd as [|? ? Hj Hnd']; subst.
    inversion Hlt as [|? ? Hjlt Hlt']; subst.
    inversion Hfree as [|? ? Hjc Hfree']; subst.
    pose proof (productAt_lookup _ _ Hjlt) as Hp.
    assert (Hnot : SauceDemo.inCart s j = false).
    { destruct (SauceDemo.inCart s j) eqn:E; [|reflexivity].
      apply inCart_In in E. contradiction. }
    cbn [InventoryPage.addEach]. unfold bind at 1.
    rewrite (getProductDetails_shop s Hscreen j _ Hp).
    unfold bind at 1.
    rewrite (addProductToCartByIndex_shop s Hscreen Hnames j _ Hp Hnot).
    rewrite IH; try assumption.
    + cbn [withCart SauceDemo.catalog SauceDemo.cart SauceDemo.screen].
      unfold withCart. cbn [SauceDemo.catalog SauceDemo.cart SauceDemo.screen].
      now rewrite <- !app_assoc.
    + cbn [withCart SauceDemo.cart]. apply Forall_forall.
      intros k Hk Hkin. apply in_app_or in Hkin. destruct Hkin as [Hkin|[Hkin|[]]].
      * rewrite Forall_forall in Hfree'. now apply (Hfree' k).
      * subst k. apply Hj. apply in_or_app. now left.
    + cbn [withCart SauceDemo.cart]. apply in_or_app. now left.
Qed.

Lemma demoCatalog_distinct :
  NoDup (map (fun p => SauceDemo.slug (name p)) SauceDemo.demoCatalog).
Proof.
  vm_compute. repeat constructor; simpl; intuition discriminate.
Qed.

(** ** C3: emptying the cart *)

Section CartFacts.
Import SauceDemo.

Lemma cart_hits (sel : string) (s : Shop) :
  screen s = Cart ->
  String.eqb sel ".shopping_cart_link" = false ->
  String.eqb sel ".shopping_cart_badge" = false ->
  String.eqb sel ".title" = false ->
  String.eqb sel (dataTest "continue-shopping") = false ->
  String.eqb sel (dataTest "checkout") = false ->
  hits sel s =
    flat_map (fun p => filter (fun e => matchesSelector sel (fst e)) (cartRow s p))
             (cart s).
Proof.
  intros Hscreen H1 H2 H3 H4 H5. unfold hits, elements. rewrite Hscreen.
  rewrite !filter_app, header_no_hit, filter_flat_map by assumption.
  unfold matchesSelector. simpl. rewrite H4, H5. simpl. now rewrite app_nil_r.
Qed.

(** With every product of the cart in the catalog, the cart screen shows
    one row and one remove button per product in the cart. *)
Lemma cart_rows (s : Shop) :
  screen s = Cart ->
  Forall (fun p => p < List.length (catalog s)) (cart s) ->
  List.length (hits ".cart_item" s) = List.length (cart s) /\
  map snd (hits (selector CartPage.removeButtons) s) = map RemoveFromCart (cart s) /\
  Forall (fun e => visible (fst e) = true /\ enabled (fst e) = true)
         (hits (selector CartPage.removeButtons) s).
Proof.
  intros Hscreen Hvalid.
  rewrite !cart_hits by (assumption || reflexivity).
  induction Hvalid as [|p l Hp _ IH]; [repeat split; constructor|].
  destruct IH as (IH1 & IH2 & IH3).
  destruct (nth_error (catalog s) p) as [q|] eqn:E;
    [|apply nth_error_None in E; lia].
  cbn [flat_map]. unfold cartRow at 1 3 5. rewrite E.
  rewrite !length_app, !map_app, IH1, IH2.
  repeat split.
  apply Forall_app. split; [|exact IH3].
  repeat constructor.
Qed.

Lemma without_length (p : nat) (l : list nat) :
  List.length (without p l) <= List.length l.
Proof.
  induction l as [|x l IH]; simpl; [lia|].
  destruct (x =? p)%nat; simpl; lia.
Qed.

Lemma without_valid (n p : nat) (l : list nat) :
  Forall (fun i => i < n) l -> Forall (fun i => i < n) (without p l).
Proof.
  induction 1 as [|x l Hx _ IH]; simpl; [constructor|].
  destruct (x =? p)%nat; [exact IH | now constructor].
Qed.

Lemma getCartItemCount_shop (s : Shop) :
  screen s = Cart ->
  Forall (fun p => p < List.length (catalog s)) (cart s) ->
  CartPage.getCartItemCount s = (Fulfilled (List.length (cart s)), s).
Proof.
  intros Hscreen Hvalid. unfold CartPage.getCartItemCount, CartPage.cartItems.
  rewrite count_matches, matches_hits, length_map.
  now rewrite (proj1 (cart_rows s Hscreen Hvalid)).
Qed.

Lemma removeFirst_shop (s : Shop) (p : nat) (l : list nat) :
  screen s = Cart ->
  Forall (fun p => p < List.length (catalog s)) (cart s) ->
  cart s = p :: l ->
  CartPage.removeItemByIndex 0 s = (Fulfilled tt, withCart s (without p l)).
Proof.
  intros Hscreen Hvalid Hcart. unfold CartPage.removeItemByIndex.
  destruct (cart_rows s Hscreen Hvalid) as (_ & Hactions & Hshown).
  rewrite Hcart in Hactions.
  change CartPage.removeButtons with (locator (selector CartPage.removeButtons)).
  destruct (hits (selector CartPage.removeButtons) s) as [|[n a] r] eqn:E;
    [discriminate|].
  simpl in Hactions. inversion Hactions; subst a.
  inversion Hshown as [|? ? [Hv He] _]; subst.
  rewrite (click_nth_hit _ 0 s n (RemoveFromCart p)); try assumption.
  - unfold perform, withCart. rewrite Hcart. simpl. now rewrite Nat.eqb_refl.
  - now rewrite E.
Qed.

(** The loop of [clearCart] empties the cart: it removes the first row and
    counts the rows again, until none is left. *)
Lemma clearCartLoop_shop : forall fuel (s : Shop),
  screen s = Cart ->
  Forall (fun p => p < List.length (catalog s)) (cart s) ->
  List.length (cart s) <= fuel ->
  CartPage.clearCartLoop fuel (List.length (cart s)) s =
    (Fulfilled tt, withCart s []).
Proof.
  induction fuel as [|fuel IH]; intros s Hscreen Hvalid Hfuel.
  - destruct s as [c [|p l] scr]; simpl in *; [|lia].
    unfold ret, withCart. simpl. now subst scr.
  - destruct (cart s) as [|p l] eqn:Hcart.
    + simpl. unfold ret, withCart. destruct s; simpl in *. now subst.
    + cbn [CartPage.clearCartLoop List.length Nat.ltb Nat.leb].
      unfold bind at 1.
      assert (Hvalid' : Forall (fun p => p < List.length (catalog s)) (cart s))
        by now rewrite Hcart.
      rewrite (removeFirst_shop s p l Hscreen Hvalid' Hcart).
      assert (Hv : Forall (fun i => i < List.length (catalog (withCart s (without p l))))
                          (cart (withCart s (without p l)))).
      { simpl. apply without_valid. now inversion Hvalid. }
      unfold bind at 1.
      rewrite (getCartItemCount_shop (withCart s (without p l)) Hscreen Hv).
      rewrite IH; try assumption.
      * reflexivity.
      * simpl in *. pose proof (without_length p l). lia.
Qed.
End CartFacts.

(** [clearCart], the page object's own way to empty the cart, does empty it. *)
Lemma clearCart_empties_cart (fuel : nat) (s : SauceDemo.Shop) :
  SauceDemo.screen s = SauceDemo.Cart ->
  Forall (fun p => p < List.length (SauceDemo.catalog s)) (SauceDemo.cart s) ->
  List.length (SauceDemo.cart s) <= fuel ->
  CartPage.clearCart fuel s = (Fulfilled tt, withCart s []).
Proof.
  intros Hscreen Hvalid Hfuel. unfold CartPage.clearCart, bind.
  rewrite (getCartItemCount_shop s Hscreen Hvalid).
  now apply clearCartLoop_shop.
Qed.

Section CleanupFacts.
Import SauceDemo.

Lemma withCart_cart (s : Shop) : withCart s (cart s) = s.
Proof. now destruct s. Qed.

Lemma withCart_withCart (s : Shop) (k k' : list nat) :
  withCart (withCart s k) k' = withCart s k'.
Proof. reflexivity. Qed.

Lemma without_absent (p : nat) (l : list nat) : ~ In p l -> without p l = l.
Proof.
  induction l as [|x l IH]; simpl; [reflexivity|]. intros H.
  destruct (Nat.eqb_spec x p) as [E|E]; [exfalso; now apply H; left|].
  rewrite IH; [reflexivity|]. intros Hin. apply H. now right.
Qed.

Lemma without_middle (p : nat) (kept rest : list nat) :
  NoDup (kept ++ p :: rest)%list ->
  without p (kept ++ p :: rest)%list = (kept ++ rest)%list.
Proof.
  intros H. apply NoDup_remove in H. destruct H as [_ H].
  induction kept as [|x kept IH]; simpl in *.
  - rewrite Nat.eqb_refl. now apply without_absent.
  - destruct (Nat.eqb_spec x p) as [E|E]; [exfalso; apply H; now left|].
    rewrite IH; [reflexivity|]. intros Hin. apply H. now right.
Qed.

Lemma removeItemByIndex_shop (s : Shop) (i p : nat) :
  screen s = Cart ->
  Forall (fun p => p < List.length (catalog s)) (cart s) ->
  nth_error (cart s) i = Some p ->
  CartPage.removeItemByIndex i s = (Fulfilled tt, withCart s (without p (cart s))).
Proof.
  intros Hscreen Hvalid Hi. unfold CartPage.removeItemByIndex.
  destruct (cart_rows s Hscreen Hvalid) as (_ & Hactions & Hshown).
  change CartPage.removeButtons with (locator (selector CartPage.removeButtons)).
  assert (Ha : nth_error (map snd (hits (selector CartPage.removeButtons) s)) i
               = Some (RemoveFromCart p))
    by (rewrite Hactions, nth_error_map, Hi; reflexivity).
  rewrite nth_error_map in Ha.
  destruct (nth_error (hits (selector CartPage.removeButtons) s) i)
    as [[n a]|] eqn:E; [|discriminate].
  simpl in Ha. inversion Ha; subst a.
  rewrite Forall_forall in Hshown.
  destruct (Hshown _ (nth_error_In _ _ E)) as [Hv He].
  now rewrite (click_nth_hit _ i s n (RemoveFromCart p) E Hv He).
Qed.

Lemma removeItemByIndex_miss (s : Shop) (i : nat) :
  screen s = Cart ->
  Forall (fun p => p < List.length (catalog s)) (cart s) ->
  List.length (cart s) <= i ->
  CartPage.removeItemByIndex i s =
    (Rejected (TimeoutError (selector CartPage.removeButtons)), s).
Proof.
  intros Hscreen Hvalid Hi. unfold CartPage.removeItemByIndex.
  destruct (cart_rows s Hscreen Hvalid) as (_ & Hactions & _).
  change CartPage.removeButtons with (locator (selector CartPage.removeButtons)).
  apply click_nth_miss. apply nth_error_None.
  apply (f_equal (@List.length _)) in Hactions. rewrite !length_map in Hactions.
  cbn [selector locator]. cbn [selector locator] in Hactions. lia.
Qed.

(** The loop of [beforeEach] from its turn [length kept] on, when the rows
    [kept] have been passed over and the rows [rest] are still ahead. *)
Lemma removeEach_shop : forall n rest kept (s : Shop),
  List.length rest <= n ->
  screen s = Cart ->
  Forall (fun p => p < List.length (catalog s)) (cart s) ->
  NoDup (cart s) ->
  cart s = (kept ++ rest)%list ->
  CheckoutFlow.forEachIndex (List.length kept + List.length rest) (List.length kept)
    (fun i => CartPage.removeItemByIndex i) s =
  match kept, rest with
  | [], [] | [], [_] => (Fulfilled tt, withCart s [])
  | _, _ => (Rejected (TimeoutError (selector CartPage.removeButtons)),
             withCart s (kept ++ oddPlaces rest)%list)
  end.
Proof.
  induction n as [|n IH]; intros rest kept s Hn Hscreen Hvalid Hnd Hcart.
  - destruct rest as [|a rest]; [|simpl in Hn; lia].
    rewrite app_nil_r in Hcart. destruct kept as [|k kept].
    + simpl. unfold ret. now rewrite <- Hcart, withCart_cart.
    + cbn [List.length Nat.add CheckoutFlow.forEachIndex]. unfold bind.
      rewrite removeItemByIndex_miss by (try assumption; rewrite Hcart; simpl; lia).
      cbn [oddPlaces]. now rewrite app_nil_r, <- Hcart, withCart_cart.
  - destruct rest as [|a rest].
    + apply IH; try assumption. simpl. lia.
    + rewrite Nat.add_comm. cbn [List.length Nat.add CheckoutFlow.forEachIndex].
      unfold bind at 1.
      assert (Ha : nth_error (cart s) (List.length kept) = Some a).
      { rewrite Hcart, nth_error_app2, Nat.sub_diag by lia. reflexivity. }
      rewrite (removeItemByIndex_shop s _ a Hscreen Hvalid Ha).
      assert (Hleft : without a (cart s) = (kept ++ rest)%list)
        by (rewrite Hcart; apply without_middle; now rewrite <- Hcart).
      rewrite Hleft.
      assert (Hvalid' : Forall (fun p => p < List.length (catalog (withCart s (kept ++ rest))))
                               (cart (withCart s (kept ++ rest)))).
      { simpl. rewrite <- Hleft. now apply without_valid. }
      assert (Hnd' : NoDup (cart (withCart s (kept ++ rest)))).
      { simpl. rewrite Hcart in Hnd. now apply NoDup_remove_1 in Hnd. }
      destruct rest as [|b rest].
      * destruct kept as [|k kept]; [reflexivity|].
        cbn [List.length Nat.add CheckoutFlow.forEachIndex]. unfold bind.
        rewrite removeItemByIndex_miss
          by (try assumption; simpl; rewrite app_nil_r; simpl; lia).
        reflexivity.
      * pose proof (IH rest (kept ++ [b])%list (withCart s (kept ++ b :: rest))) as H.
        rewrite length_app in H. cbn [List.length] in H.
        replace (List.length (b :: rest) + List.length kept)
          with (List.length kept + 1 + List.length rest) by (simpl; lia).
        replace (S (List.length kept)) with (List.length kept + 1) by lia.
        rewrite H; try assumption.
        -- destruct kept; cbn [app oddPlaces]; rewrite withCart_withCart;
             now rewrite <- ?app_assoc.
        -- simpl in Hn. lia.
        -- simpl. now rewrite <- app_assoc.
Qed.

Lemma flat_map_nil {A B} (f : A -> list B) (l : list A) :
  (forall x, f x = []) -> flat_map f l = [].
Proof.
  intros H. induction l as [|x l IH]; simpl; [reflexivity|].
  now rewrite H, IH.
Qed.

Lemma goToCart_shop (s : Shop) :
  screen s = Inventory ->
  InventoryPage.goToCart s = (Fulfilled tt, show Cart s).
Proof.
  intros Hscreen. unfold InventoryPage.goToCart, InventoryPage.shoppingCartLink.
  rewrite (click_hit _ s (fst (element [".shopping_cart_link"] EmptyString OpenCart))
             OpenCart); try reflexivity.
  unfold hits, elements. rewrite Hscreen, filter_app, filter_flat_map.
  rewrite flat_map_nil.
  - unfold header. destruct (cart s); reflexivity.
  - intros [product p]. unfold productCard.
    destruct (inCart s product); reflexivity.
Qed.

Lemma waitForCart_shop (s : Shop) :
  screen s = Cart -> waitForURL cartUrl None s = (Fulfilled tt, s).
Proof.
  intros Hscreen. unfold waitForURL.
  apply (waitLoop_in_time cartUrl 0); [|lia].
  split; [|intros u Hu; lia].
  change (Nat.iter 0 tick s) with s. unfold url, SauceDemo.site. now rewrite Hscreen.
Qed.

(** The clean-up on the shop: a cart of at most one product is emptied; on
    a cart of more products the hook is rejected by the click that finds no
    button, and the products at the odd places stay in the cart. *)
Lemma beforeEach_shop (s : Shop) :
  Forall (fun p => p < List.length (catalog s)) (cart s) ->
  NoDup (cart s) ->
  CheckoutFlow.beforeEach s =
    match cart s with
    | [] | [_] => (Fulfilled tt, show Inventory (withCart s []))
    | _ => (Rejected (TimeoutError (selector CartPage.removeButtons)),
            show Cart (withCart s (oddPlaces (cart s))))
    end.
Proof.
  intros Hvalid Hnd. unfold CheckoutFlow.beforeEach.
  unfold bind at 1. unfold InventoryPage.open at 1, goto at 1.
  change (gotoEffect "/inventory.html" s) with (show Inventory s).
  unfold bind at 1. rewrite goToCart_shop by reflexivity.
  unfold bind at 1. rewrite waitForCart_shop by reflexivity.
  unfold bind at 1. rewrite getCartItemCount_shop by (try reflexivity; exact Hvalid).
  cbn [show cart].
  pose proof (removeEach_shop (List.length (cart s)) (cart s) []
                (show Cart (show Inventory s)) (le_n _) eq_refl Hvalid Hnd eq_refl) as H.
  cbn [List.length Nat.add app] in H.
  destruct (cart s) as [|a [|b t]] eqn:Hcart.
  - cbn [List.length Nat.ltb Nat.leb]. unfold bind, ret, InventoryPage.open, goto.
    cbn [gotoEffect site String.eqb Ascii.eqb Bool.eqb]. unfold show, withCart.
    cbn [catalog cart screen]. now rewrite Hcart.
  - cbn [List.length Nat.ltb Nat.leb]. unfold bind at 1.
    cbn [List.length] in H. rewrite H. reflexivity.
  - cbn [List.length Nat.ltb Nat.leb]. unfold bind at 1.
    cbn [List.length] in H. rewrite H. reflexivity.
Qed.
End CleanupFacts.

Lemma length_oddPlaces {A} (l : list A) :
  List.length (oddPlaces l) = List.length l / 2.
Proof.
  assert (H : forall n (l : list A), List.length l <= n ->
                List.length (oddPlaces l) = List.length l / 2).
  { induction n as [|n IH]; intros [|a [|b t]] Hn; try reflexivity;
      try (simpl in Hn; lia).
    cbn [oddPlaces List.length]. rewrite IH by (simpl in Hn; lia).
    change (S (S (List.length t))) with (1 * 2 + List.length t).
    rewrite Nat.add_comm, Nat.div_add by lia. lia. }
  now apply (H (List.length l)).
Qed.

(** C3. On the shop, for every cart of [n] distinct products of the
    catalog, the clean-up of [beforeEach] leaves the products at the odd
    places of the cart, [n / 2] of them, where it stops. With two products
    or more its turn [i] asks for the remove button at position [i] of a
    cart that has lost [i] rows already; the click that finds no button
    rejects the hook with a timeout and the cart is not empty. Only a cart
    of at most one product is emptied. *)
Theorem beforeEach_leaves_every_other_product (s : SauceDemo.Shop) :
  Forall (fun p => p < List.length (SauceDemo.catalog s)) (SauceDemo.cart s) ->
  NoDup (SauceDemo.cart s) ->
  SauceDemo.cart (snd (CheckoutFlow.beforeEach s)) = oddPlaces (SauceDemo.cart s) /\
  List.length (SauceDemo.cart (snd (CheckoutFlow.beforeEach s))) =
    List.length (SauceDemo.cart s) / 2 /\
  (2 <= List.length (SauceDemo.cart s) ->
   fst (CheckoutFlow.beforeEach s) =
     Rejected (TimeoutError (selector CartPage.removeButtons)) /\
   SauceDemo.cart (snd (CheckoutFlow.beforeEach s)) <> []) /\
  (List.length (SauceDemo.cart s) <= 1 ->
   CheckoutFlow.beforeEach s =
     (Fulfilled tt, SauceDemo.show SauceDemo.Inventory (withCart s []))).
Proof.
  intros Hvalid Hnd. rewrite (beforeEach_shop s Hvalid Hnd).
  assert (Hodd : SauceDemo.cart
                   (snd match SauceDemo.cart s with
                        | [] | [_] =>
                            (Fulfilled tt, SauceDemo.show SauceDemo.Inventory (withCart s []))
                        | _ => (Rejected (TimeoutError (selector CartPage.removeButtons)),
                                SauceDemo.show SauceDemo.Cart
                                  (withCart s (oddPlaces (SauceDemo.cart s))))
                        end) = oddPlaces (SauceDemo.cart s))
    by (destruct (SauceDemo.cart s) as [|a [|b t]]; reflexivity).
  split; [exact Hodd|]. split; [rewrite Hodd; apply length_oddPlaces|].
  split.
  - intros Hn. split.
    + destruct (SauceDemo.cart s) as [|a [|b t]]; simpl in Hn; try lia; reflexivity.
    + rewrite Hodd.
      destruct (SauceDemo.cart s) as [|a [|b t]]; simpl in Hn; try lia; discriminate.
  - intros Hn. destruct (SauceDemo.cart s) as [|a [|b t]]; try reflexivity.
    simpl in Hn. lia.
Qed.

Lemma beforeEach_leaves_every_other_product_witness :
  fst (CheckoutFlow.beforeEach cartOfTwo) =
    Rejected (TimeoutError (selector CartPage.removeButtons)) /\
  SauceDemo.cart (snd (CheckoutFlow.beforeEach cartOfTwo)) = [1] /\
  CartPage.clearCart 2 cartOfTwo = (Fulfilled tt, withCart cartOfTwo []).
Proof.
  destruct (beforeEach_leaves_every_other_product cartOfTwo)
    as (Hodd & _ & Hmany & _).
  - simpl. repeat constructor; lia.
  - simpl. repeat constructor; simpl; intuition lia.
  - destruct Hmany as [Hrejected _]; [simpl; lia|].
    split; [exact Hrejected|]. split; [exact Hodd|].
    vm_compute. reflexivity.
Defined.

(** ** C5: amounts read from the price labels *)

Section PatternFacts.

Lemma span_append (f : ascii -> bool) (s : string) :
  s = fst (span f s) ++ snd (span f s).
Proof.
  induction s as [|c s IH]; simpl; [reflexivity|].
  destruct (f c); [|reflexivity].
  destruct (span f s) as [a b]. simpl in *. now rewrite <- IH.
Qed.

Lemma span_digits_append (a b : string) :
  allDigits a = true -> startsWithDigit b = false ->
  span isDigit (a ++ b) = (a, b).
Proof.
  intros Ha Hb. induction a as [|c a IH]; cbn [append allDigits] in *.
  - destruct b as [|d b]; [reflexivity|].
    cbn [startsWithDigit span] in *. now rewrite Hb.
  - apply andb_prop in Ha. destruct Ha as [Hc Ha].
    cbn [span]. now rewrite Hc, (IH Ha).
Qed.

Lemma span_allDigits (s : string) : allDigits (fst (span isDigit s)) = true.
Proof.
  induction s as [|c s IH]; cbn [span]; [reflexivity|].
  destruct (isDigit c) eqn:E; [|reflexivity].
  destruct (span isDigit s) as [a b]. cbn [fst allDigits] in *.
  now rewrite E, IH.
Qed.

Lemma span_rest (s : string) : startsWithDigit (snd (span isDigit s)) = false.
Proof.
  induction s as [|c s IH]; cbn [span]; [reflexivity|].
  destruct (isDigit c) eqn:E; [|cbn [snd startsWithDigit]; exact E].
  destruct (span isDigit s) as [a b]. exact IH.
Qed.

Lemma take_append (a b : string) : take (String.length a) (a ++ b) = a.
Proof.
  induction a as [|c a IH]; simpl; [now destruct b | now rewrite IH].
Qed.

Lemma consumed_append (a b : string) : consumed (a ++ b) b = a.
Proof.
  unfold consumed. rewrite length_append.
  replace (String.length a + String.length b - String.length b)
    with (String.length a) by lia.
  apply take_append.
Qed.

Lemma append_assoc (a b c : string) : (a ++ b) ++ c = a ++ b ++ c.
Proof.
  induction a as [|x a IH]; simpl; [reflexivity | now rewrite IH].
Qed.

(** A greedy iteration followed by something that always matches takes the
    longest run. *)
Lemma matchStar_greedy {R} (k : CharClass) (cont : string -> option R) :
  (forall x, cont x <> None) ->
  forall s, matchStar k s cont = cont (snd (span (inClass k) s)).
Proof.
  intros Hcont. induction s as [|c s IH]; simpl; [reflexivity|].
  destruct (inClass k c); [|reflexivity].
  rewrite IH. destruct (span (inClass k) s) as [a b]. simpl.
  destruct (cont b) eqn:E; [reflexivity|].
  now apply Hcont in E.
Qed.

(** The pattern of the amounts, tried at one place. *)
Lemma matchHere_currencyAmount (s : string) (i : nat) :
  matchHere currencyAmount s i =
    match s with
    | String c t =>
        if Ascii.eqb "$" c then
          match decimalPrefix t with
          | Some (captured, rest) =>
              Some {| index := i; matched := consumed s rest;
                      groups := [captured]; after := rest |}
          | None => None
          end
        else None
    | EmptyString => None
    end.
Proof.
  unfold matchHere, currencyAmount. cbn [matchAt inClass].
  destruct s as [|c t]; [reflexivity|].
  destruct (Ascii.eqb "$" c); [|reflexivity].
  unfold decimalPrefix.
  destruct t as [|d u]; [reflexivity|].
  cbn [startsWithDigit]. change (inClass CDigit d) with (isDigit d).
  destruct (isDigit d) eqn:Ed; [|reflexivity].
  rewrite matchStar_greedy.
  2:{ intros x. destruct (Ascii.eqb "." match x with String a _ => a | _ => "."%char end);
      destruct x as [|a x']; cbn [matchAt inClass];
      try destruct (Ascii.eqb "." a);
      rewrite ?matchStar_greedy; try discriminate;
      intros y; discriminate. }
  change (inClass CDigit) with isDigit.
  cbn [span]. rewrite Ed.
  pose proof (span_append isDigit u) as Hu.
  destruct (span isDigit u) as [whole r1]. cbn [fst snd] in *.
  assert (Hfinal : forall r2 point,
            r1 = point ++ r2 ->
            matchStar CDigit r2
              (fun s4 => Some {| index := i;
                                 matched := consumed (String c (String d u)) s4;
                                 groups := ([] ++ [consumed (String d u) s4])%list;
                                 after := s4 |}) =
            (let (fraction, rest) := span isDigit r2 in
             Some {| index := i;
                     matched := consumed (String c (String d u)) rest;
                     groups := [String d whole ++ point ++ fraction];
                     after := rest |})).
  { intros r2 point Hr1. rewrite matchStar_greedy by discriminate.
    change (inClass CDigit) with isDigit.
    pose proof (span_append isDigit r2) as Hr2.
    destruct (span isDigit r2) as [fraction rest]. cbn [fst snd] in *.
    do 3 f_equal. cbn [app]. f_equal.
    rewrite Hu, Hr1, Hr2.
    change (String d (whole ++ point ++ fraction ++ rest))
      with (String d whole ++ point ++ fraction ++ rest).
    rewrite <- !append_assoc. rewrite consumed_append.
    now rewrite !append_assoc. }
  destruct r1 as [|a r]; cbn [matchAt inClass].
  - rewrite (Hfinal EmptyString EmptyString eq_refl).
    destruct (span isDigit EmptyString); reflexivity.
  - destruct (Ascii.eqb "." a) eqn:Ea.
    + apply Ascii.eqb_eq in Ea. subst a.
      rewrite (Hfinal r "." eq_refl).
      destruct (span isDigit r); reflexivity.
    + rewrite (Hfinal (String a r) EmptyString eq_refl).
      destruct (span isDigit (String a r)); reflexivity.
Qed.
End PatternFacts.

Section AmountFacts.

Lemma execFrom_currencyAmount (s : string) : forall i,
  option_map groups (execFrom currencyAmount s i) =
  option_map (fun captured => [captured]) (firstAmount s).
Proof.
  induction s as [|c t IH]; intros i.
  - reflexivity.
  - cbn [execFrom firstAmount]. rewrite matchHere_currencyAmount.
    destruct (Ascii.eqb "$" c); [|apply IH].
    destruct (decimalPrefix t) as [[captured rest]|]; [reflexivity | apply IH].
Qed.

Lemma amountOf_firstAmount (text : string) :
  CheckoutStepTwoPage.amountOf text =
    match firstAmount text with
    | Some captured => parseFloat captured
    | None => zero
    end.
Proof.
  unfold CheckoutStepTwoPage.amountOf, match_.
  pose proof (execFrom_currencyAmount text 0) as H.
  destruct (execFrom currencyAmount text 0) as [m|];
    destruct (firstAmount text) as [captured|]; simpl in H; try discriminate.
  - inversion H as [Hg]. now rewrite Hg.
  - reflexivity.
Qed.

Lemma dollarDigit_prefix (t : string) :
  decimalPrefix t = None <-> startsWithDigit t = false.
Proof.
  unfold decimalPrefix. destruct (startsWithDigit t); split; try discriminate;
    try reflexivity.
  destruct (span isDigit t) as [whole r1].
  destruct r1 as [|c r]; [|destruct (Ascii.eqb "." c)];
    match goal with |- context [span isDigit ?x] => destruct (span isDigit x) end;
    discriminate.
Qed.

(** [dollarDigitWithin] looks at every place of the text. *)
Lemma dollarDigitWithin_spec (text : string) :
  dollarDigitWithin text = false <->
  (forall a b, text = a ++ b -> dollarDigit b = false).
Proof.
  induction text as [|c t IH].
  - split; [|reflexivity]. intros _ a b E.
    destruct a; destruct b; try discriminate. reflexivity.
  - cbn [dollarDigitWithin]. rewrite orb_false_iff, IH. split.
    + intros [Hhere Hlater] a b E. destruct a as [|x a].
      * simpl in E. now subst b.
      * simpl in E. inversion E. now apply (Hlater a b).
    + intros H. split.
      * now apply (H EmptyString).
      * intros a b E. apply (H (String c a) b). simpl. now rewrite E.
Qed.

(** No dollar sign of the text is followed by a digit: there is no match. *)
Lemma firstAmount_none (text : string) :
  dollarDigitWithin text = false -> firstAmount text = None.
Proof.
  induction text as [|c t IH]; intros H; [reflexivity|].
  cbn [firstAmount dollarDigitWithin] in *.
  apply orb_false_iff in H. destruct H as [Hhere Hlater].
  cbn [dollarDigit] in Hhere.
  destruct (Ascii.eqb "$" c); [|now apply IH].
  cbn [andb] in Hhere. apply dollarDigit_prefix in Hhere.
  rewrite Hhere. now apply IH.
Qed.

Lemma decimalPrefix_parts (whole point fraction rest : string) :
  whole <> EmptyString -> allDigits whole = true -> allDigits fraction = true ->
  startsWithDigit rest = false ->
  (point = "." \/
   (point = EmptyString /\ fraction = EmptyString /\
    startsWithPoint rest = false)) ->
  decimalPrefix (whole ++ point ++ fraction ++ rest) =
    Some (whole ++ point ++ fraction, rest).
Proof.
  intros Hne Hwhole Hfraction Hrest Hpoint. unfold decimalPrefix.
  assert (Hstart : startsWithDigit (whole ++ point ++ fraction ++ rest) = true).
  { destruct whole as [|c w]; [contradiction|].
    cbn [allDigits] in Hwhole. apply andb_prop in Hwhole. apply Hwhole. }
  rewrite Hstart.
  destruct Hpoint as [->|(-> & -> & Hrest')].
  - rewrite span_digits_append by (assumption || reflexivity).
    cbn [append]. change (Ascii.eqb "." ".") with true. cbn iota.
    now rewrite span_digits_append by assumption.
  - cbn [append]. rewrite span_digits_append by assumption.
    destruct rest as [|c r].
    + reflexivity.
    + cbn [startsWithPoint] in Hrest'. rewrite Hrest'.
      cbn [startsWithDigit] in Hrest. cbn [span]. now rewrite Hrest.
Qed.

(** The leftmost place where a dollar sign is followed by a digit gives the
    match. *)
Lemma firstAmount_some (before whole point fraction rest : string) :
  dollarDigitWithin (before ++ "$") = false ->
  whole <> EmptyString -> allDigits whole = true -> allDigits fraction = true ->
  startsWithDigit rest = false ->
  (point = "." \/
   (point = EmptyString /\ fraction = EmptyString /\
    startsWithPoint rest = false)) ->
  firstAmount (before ++ "$" ++ whole ++ point ++ fraction ++ rest) =
    Some (whole ++ point ++ fraction).
Proof.
  intros Hbefore Hne Hwhole Hfraction Hrest Hpoint.
  remember ("$" ++ whole ++ point ++ fraction ++ rest) as tail eqn:Htail.
  induction before as [|c t IH].
  - subst tail. cbn [append firstAmount].
    change (Ascii.eqb "$" "$") with true. cbn iota.
    now rewrite decimalPrefix_parts.
  - cbn [append firstAmount dollarDigitWithin] in *.
    apply orb_false_iff in Hbefore. destruct Hbefore as [Hhere Hlater].
    assert (Hnone : (if Ascii.eqb "$" c then decimalPrefix (t ++ tail) else None)
                    = None).
    { cbn [dollarDigit] in Hhere.
      destruct (Ascii.eqb "$" c); [|reflexivity].
      apply dollarDigit_prefix. cbn [andb] in Hhere.
      destruct t as [|d t']; [subst tail; reflexivity | exact Hhere]. }
    rewrite Hnone. now apply IH.
Qed.

Lemma append_empty_r (s : string) : s ++ EmptyString = s.
Proof.
  induction s as [|c s IH]; simpl; [reflexivity | now rewrite IH].
Qed.

Lemma span_all_digits (s : string) :
  allDigits s = true -> span isDigit s = (s, EmptyString).
Proof.
  induction s as [|c s IH]; cbn [allDigits span]; [reflexivity|].
  intros H. apply andb_prop in H. destruct H as [Hc Hs].
  now rewrite Hc, (IH Hs).
Qed.

Lemma digit_is_plain (c : ascii) :
  isDigit c = true ->
  isSpace c = false /\ Ascii.eqb c "-" = false /\ Ascii.eqb c "+" = false /\
  Ascii.eqb "I" c = false /\ Ascii.eqb c "." = false.
Proof.
  destruct c as [[] [] [] [] [] [] [] []]; vm_compute; intros H;
    try discriminate H; repeat split.
Qed.

(** [parseFloat] on digits, a point and digits reads the decimal. *)
Lemma parseFloat_decimal (whole point fraction : string) :
  whole <> EmptyString -> allDigits whole = true -> allDigits fraction = true ->
  (point = "." \/ (point = EmptyString /\ fraction = EmptyString)) ->
  parseFloat (whole ++ point ++ fraction) =
    ofDecimal false (digitsValue (whole ++ fraction))
              (- Z.of_nat (String.length fraction)).
Proof.
  intros Hne Hwhole Hfraction Hpoint.
  destruct whole as [|c w]; [contradiction|].
  pose proof Hwhole as Hc. cbn [allDigits] in Hc. apply andb_prop in Hc.
  destruct Hc as [Hc _].
  destruct (digit_is_plain c Hc) as (Hs & Hminus & Hplus & HI & _).
  unfold parseFloat. cbn [append trimStart]. rewrite Hs.
  cbn [signPrefix]. rewrite Hminus, Hplus.
  cbn [stripPrefix]. rewrite HI.
  change (String c (w ++ point ++ fraction))
    with (String c w ++ point ++ fraction).
  destruct Hpoint as [->|[-> ->]].
  - rewrite span_digits_append by (assumption || reflexivity).
    cbn [append]. change (Ascii.eqb "." ".") with true. cbn iota.
    rewrite (span_all_digits fraction Hfraction).
    reflexivity.
  - change (EmptyString ++ EmptyString) with EmptyString.
    rewrite !append_empty_r, (span_all_digits _ Hwhole).
    cbn iota. rewrite append_empty_r. reflexivity.
Qed.
End AmountFacts.

(** C5. For every text of a price label, each of [getSubtotal], [getTax] and
    [getTotal] is fulfilled, never rejected, with the amount read from the
    text: [0] when no dollar sign of the text is followed by a digit, and
    otherwise the number written after the first such dollar sign (the
    longest run of digits, then an optional point and the digits after it),
    converted to the nearest float. *)
Theorem price_labels_amounts {W : Type} {site : Site W} (w : W) (text : string) :
  (shows ".summary_subtotal_label" text w ->
     CheckoutStepTwoPage.getSubtotal w =
       (Fulfilled (CheckoutStepTwoPage.amountOf text), w)) /\
  (shows ".summary_tax_label" text w ->
     CheckoutStepTwoPage.getTax w =
       (Fulfilled (CheckoutStepTwoPage.amountOf text), w)) /\
  (shows ".summary_total_label" text w ->
     CheckoutStepTwoPage.getTotal w =
       (Fulfilled (CheckoutStepTwoPage.amountOf text), w)) /\
  (dollarDigitWithin text = false ->
     CheckoutStepTwoPage.amountOf text = zero) /\
  (forall before whole point fraction rest,
     text = before ++ "$" ++ whole ++ point ++ fraction ++ rest ->
     dollarDigitWithin (before ++ "$") = false ->
     whole <> EmptyString -> allDigits whole = true -> allDigits fraction = true ->
     startsWithDigit rest = false ->
     (point = "." \/
      (point = EmptyString /\ fraction = EmptyString /\
       startsWithPoint rest = false)) ->
     CheckoutStepTwoPage.amountOf text =
       ofDecimal false (digitsValue (whole ++ fraction))
                 (- Z.of_nat (String.length fraction))).
Proof.
  split; [|split; [|split; [|split]]].
  - intros H. unfold CheckoutStepTwoPage.getSubtotal,
      CheckoutStepTwoPage.subtotalLabel, bind.
    now rewrite (innerText_shows _ _ _ H).
  - intros H. unfold CheckoutStepTwoPage.getTax,
      CheckoutStepTwoPage.taxLabel, bind.
    now rewrite (innerText_shows _ _ _ H).
  - intros H. unfold CheckoutStepTwoPage.getTotal,
      CheckoutStepTwoPage.totalLabel, bind.
    now rewrite (innerText_shows _ _ _ H).
  - intros H. rewrite amountOf_firstAmount. now rewrite firstAmount_none.
  - intros before whole point fraction rest -> Hbefore Hne Hwhole Hfraction Hrest Hpoint.
    rewrite amountOf_firstAmount.
    rewrite firstAmount_some by assumption.
    apply parseFloat_decimal; try assumption.
    destruct Hpoint as [H|(H1 & H2 & _)]; [now left | now right].
Qed.

Lemma price_labels_amounts_witness :
  CheckoutStepTwoPage.getSubtotal overviewPage =
    (Fulfilled (ofDecimal false 2999 (-2)), overviewPage) /\
  CheckoutStepTwoPage.amountOf "Item total: none" = zero.
Proof.
  destruct (price_labels_amounts overviewPage "Item total: $29.99")
    as (Hsubtotal & _ & _ & _ & Hamount).
  destruct (price_labels_amounts overviewPage "Item total: none")
    as (_ & _ & _ & Hnone & _).
  split.
  - rewrite Hsubtotal.
    + now rewrite (Hamount "Item total: " "29" "." "99" EmptyString);
        try reflexivity; try discriminate; try (left; reflexivity).
    + exists 1, (StaticPage.label ".summary_subtotal_label" "Item total: $29.99").
      split; reflexivity.
  - apply Hnone. reflexivity.
Defined.

(** ** Binary64 arithmetic

    The operations of [SpecFloat] return well-formed floats: a zero, an
    infinity, or a mantissa within its 53 bits at an exponent in range. *)

Local Open Scope Z_scope.

Section DigitFacts.

Lemma fexp64_eq (e : Z) : fexp64 e = Z.max (e - 53) (-1074).
Proof. reflexivity. Qed.

Lemma fexp64_mono (a b : Z) : a <= b -> fexp64 a <= fexp64 b.
Proof. rewrite !fexp64_eq. lia. Qed.

Lemma digits2_size (p : positive) : digits2_pos p = Pos.size p.
Proof. induction p; simpl; congruence. Qed.

Lemma Zdigits2_nonneg (m : Z) : 0 <= Zdigits2 m.
Proof. destruct m; simpl; lia. Qed.

Lemma Zdigits2_bounds (m : Z) :
  0 < m -> 2 ^ (Zdigits2 m - 1) <= m < 2 ^ Zdigits2 m.
Proof.
  destruct m as [|p|p]; try lia. intros _.
  change (Zdigits2 (Z.pos p)) with (Z.pos (digits2_pos p)).
  rewrite digits2_size.
  pose proof (Pos.size_gt p) as Hgt. pose proof (Pos.size_le p) as Hle.
  apply Pos2Z.pos_lt_pos in Hgt. apply Pos2Z.pos_le_pos in Hle.
  rewrite Pos2Z.inj_pow in Hgt, Hle.
  replace (Z.pos (Pos.size p)) with (Z.succ (Z.pos (Pos.size p) - 1)) in Hle at 1 by lia.
  rewrite Z.pow_succ_r in Hle by lia.
  change (Z.pos p~0) with (2 * Z.pos p) in Hle. lia.
Qed.

Lemma Zdigits2_unique (m d : Z) :
  0 < m -> 2 ^ (d - 1) <= m < 2 ^ d -> Zdigits2 m = d.
Proof.
  intros Hm [Hlo Hhi]. pose proof (Zdigits2_bounds m Hm) as [Hlo' Hhi'].
  pose proof (Zdigits2_nonneg m) as Hnn.
  assert (0 <= d).
  { destruct (Z.le_gt_cases 0 d); [assumption|].
    rewrite Z.pow_neg_r in Hhi by lia. lia. }
  assert (Zdigits2 m - 1 < d).
  { apply (Z.pow_lt_mono_r_iff 2); lia. }
  assert (d - 1 < Zdigits2 m).
  { destruct (Z.le_gt_cases 0 (d - 1)).
    - apply (Z.pow_lt_mono_r_iff 2); lia.
    - assert (Zdigits2 m <> 0) by (destruct m; simpl; lia). lia. }
  lia.
Qed.

Lemma Zdigits2_mono (a b : Z) : 0 <= a <= b -> Zdigits2 a <= Zdigits2 b.
Proof.
  intros [Ha Hab]. destruct (Z.eq_dec a 0) as [->|Hne].
  - apply Zdigits2_nonneg.
  - pose proof (Zdigits2_bounds a ltac:(lia)) as [Hlo _].
    pose proof (Zdigits2_bounds b ltac:(lia)) as [_ Hhi].
    assert (Zdigits2 a - 1 < Zdigits2 b).
    { apply (Z.pow_lt_mono_r_iff 2); [lia | apply Zdigits2_nonneg | lia]. }
    lia.
Qed.

(** Digits of a mantissa shifted right. *)
Lemma Zdigits2_shift (m n : Z) :
  0 < m -> 0 <= n ->
  (0 < m / 2 ^ n -> Zdigits2 (m / 2 ^ n) = Zdigits2 m - n) /\
  (m / 2 ^ n = 0 -> Zdigits2 m <= n).
Proof.
  intros Hm Hn. pose proof (Zdigits2_bounds m Hm) as [Hlo Hhi].
  pose proof (Zdigits2_nonneg m) as Hnn.
  assert (Hpow : 0 < 2 ^ n) by (apply Z.pow_pos_nonneg; lia).
  split.
  - intros Hq.
    assert (Hlt : n < Zdigits2 m).
    { destruct (Z.lt_ge_cases n (Zdigits2 m)); [assumption|].
      assert (2 ^ Zdigits2 m <= 2 ^ n) by (apply Z.pow_le_mono_r; lia).
      rewrite Z.div_small in Hq by lia. lia. }
    apply Zdigits2_unique; [assumption|]. split.
    + apply Z.div_le_lower_bound; [assumption|].
      rewrite <- Z.pow_add_r by lia.
      now replace (n + (Zdigits2 m - n - 1)) with (Zdigits2 m - 1) by lia.
    + apply Z.div_lt_upper_bound; [assumption|].
      rewrite <- Z.pow_add_r by lia.
      now replace (n + (Zdigits2 m - n)) with (Zdigits2 m) by lia.
  - intros Hq. destruct (Z.le_gt_cases (Zdigits2 m) n); [assumption|].
    assert (2 ^ n <= 2 ^ (Zdigits2 m - 1)) by (apply Z.pow_le_mono_r; lia).
    assert (1 <= m / 2 ^ n).
    { apply Z.div_le_lower_bound; lia. }
    lia.
Qed.

(** Digits of a mantissa shifted left. *)
Lemma Zdigits2_shiftl (m n : Z) :
  0 < m -> 0 <= n -> Zdigits2 (m * 2 ^ n) = Zdigits2 m + n.
Proof.
  intros Hm Hn. pose proof (Zdigits2_bounds m Hm) as [Hlo Hhi].
  pose proof (Zdigits2_nonneg m) as Hnn.
  assert (Hd : 0 < Zdigits2 m) by (destruct m; simpl in *; lia).
  assert (Hpow : 0 < 2 ^ n) by (apply Z.pow_pos_nonneg; lia).
  apply Zdigits2_unique; [nia|]. split.
  - replace (Zdigits2 m + n - 1) with ((Zdigits2 m - 1) + n) by lia.
    rewrite Z.pow_add_r by lia. nia.
  - rewrite Z.pow_add_r by lia. nia.
Qed.

(** Digits of a quotient. *)
Lemma Zdigits2_div (a b : Z) :
  0 <= a -> 0 < b -> Zdigits2 a - Zdigits2 b <= Zdigits2 (a / b).
Proof.
  intros Ha Hb. pose proof (Zdigits2_nonneg (a / b)) as Hq.
  destruct (Z.eq_dec a 0) as [->|Hne].
  { rewrite Z.div_0_l by lia. change (Zdigits2 0) with 0.
    pose proof (Zdigits2_nonneg b). lia. }
  pose proof (Zdigits2_bounds a ltac:(lia)) as [Hlo _].
  pose proof (Zdigits2_bounds b Hb) as [_ Hhi].
  pose proof (Zdigits2_nonneg b) as Hnb.
  pose proof (Zdigits2_nonneg a) as Hna.
  destruct (Z.eq_dec (a / b) 0) as [E|Hq0].
  - rewrite E. change (Zdigits2 0) with 0.
    apply Z.div_small_iff in E; [|lia]. destruct E as [E|E]; [|lia].
    assert (Zdigits2 a - 1 < Zdigits2 b).
    { apply (Z.pow_lt_mono_r_iff 2); lia. }
    lia.
  - assert (Hqpos : 0 < a / b).
    { pose proof (Z.div_pos a b ltac:(lia) Hb). lia. }
    pose proof (Zdigits2_bounds (a / b) Hqpos) as [_ Hqhi].
    assert (Ha' : a < b * (a / b + 1)).
    { pose proof (Z.mod_pos_bound a b Hb).
      pose proof (Z.div_mod a b ltac:(lia)). nia. }
    assert (a < 2 ^ (Zdigits2 b + Zdigits2 (a / b))).
    { rewrite Z.pow_add_r by lia. nia. }
    assert (Zdigits2 a - 1 < Zdigits2 b + Zdigits2 (a / b)).
    { apply (Z.pow_lt_mono_r_iff 2); lia. }
    lia.
Qed.
End DigitFacts.

Section RoundingFacts.

Lemma shr_1_m (mrs : shr_record) :
  0 <= shr_m mrs -> shr_m (shr_1 mrs) = shr_m mrs / 2.
Proof.
  destruct mrs as [m r s]. cbn [shr_m]. intros Hm.
  rewrite <- Z.div2_div.
  destruct m as [|[p|p|]|p]; try reflexivity. lia.
Qed.

Lemma iter_shr_m (p : positive) : forall mrs,
  0 <= shr_m mrs ->
  shr_m (iter_pos shr_1 p mrs) = shr_m mrs / 2 ^ Z.pos p.
Proof.
  induction p as [p IH|p IH|]; intros mrs Hm; cbn [iter_pos].
  - assert (H1 : 0 <= shr_m (shr_1 mrs))
      by (rewrite shr_1_m by assumption; apply Z.div_pos; lia).
    assert (H2 : 0 <= shr_m (iter_pos shr_1 p (shr_1 mrs)))
      by (rewrite IH by assumption; apply Z.div_pos; [assumption|];
          apply Z.pow_pos_nonneg; lia).
    rewrite IH, IH, shr_1_m by assumption.
    assert (Hp : 0 < 2 ^ Z.pos p) by (apply Z.pow_pos_nonneg; lia).
    rewrite !Z.div_div by nia.
    f_equal.
    replace (Z.pos p~1) with (Z.pos p + Z.pos p + 1) by lia.
    rewrite !Z.pow_add_r, Z.pow_1_r by lia. ring.
  - assert (H2 : 0 <= shr_m (iter_pos shr_1 p mrs))
      by (rewrite IH by assumption; apply Z.div_pos; [assumption|];
          apply Z.pow_pos_nonneg; lia).
    rewrite IH, IH by assumption.
    assert (Hp : 0 < 2 ^ Z.pos p) by (apply Z.pow_pos_nonneg; lia).
    rewrite Z.div_div by lia.
    f_equal.
    replace (Z.pos p~0) with (Z.pos p + Z.pos p) by lia.
    now rewrite Z.pow_add_r by lia.
  - rewrite shr_1_m by assumption. reflexivity.
Qed.

Lemma shr_record_of_loc_m (m : Z) (l : location) :
  shr_m (shr_record_of_loc m l) = m.
Proof. destruct l as [|[]]; reflexivity. Qed.

(** One rounding stage: the mantissa is shifted right to the exponent of its
    last place. *)
Lemma shr_fexp_stage (m e : Z) (l : location) :
  0 <= m -> e <= fexp64 (Zdigits2 m + e) ->
  snd (shr_fexp prec emax m e l) = fexp64 (Zdigits2 m + e) /\
  shr_m (fst (shr_fexp prec emax m e l)) =
    m / 2 ^ (fexp64 (Zdigits2 m + e) - e).
Proof.
  intros Hm He. unfold shr_fexp, shr. fold (fexp64 (Zdigits2 m + e)).
  destruct (fexp64 (Zdigits2 m + e) - e) as [|p|p] eqn:E; try lia.
  - cbn [fst snd]. rewrite shr_record_of_loc_m, Z.pow_0_r, Z.div_1_r.
    split; [lia | reflexivity].
  - cbn [fst snd]. split; [lia|].
    rewrite iter_shr_m by (rewrite shr_record_of_loc_m; assumption).
    now rewrite shr_record_of_loc_m.
Qed.

(** After a stage the mantissa, if not zero, is canonical, and the exponent
    is within reach of every larger mantissa. *)
Lemma shr_fexp_canonical (m e : Z) (l : location) :
  0 <= m -> e <= fexp64 (Zdigits2 m + e) ->
  let m' := shr_m (fst (shr_fexp prec emax m e l)) in
  let e' := snd (shr_fexp prec emax m e l) in
  0 <= m' /\
  (0 < m' -> fexp64 (Zdigits2 m' + e') = e') /\
  (forall x, m' <= x -> e' <= fexp64 (Zdigits2 x + e')).
Proof.
  intros Hm He m' e'.
  destruct (shr_fexp_stage m e l Hm He) as [He' Hm'].
  fold e' in He'. fold m' in Hm'.
  set (n := fexp64 (Zdigits2 m + e) - e) in *.
  assert (Hn : 0 <= n) by (unfold n; lia).
  assert (Hpow : 0 < 2 ^ n) by (apply Z.pow_pos_nonneg; lia).
  assert (Hm'0 : 0 <= m') by (rewrite Hm'; apply Z.div_pos; lia).
  assert (Hcanon : 0 < m' -> fexp64 (Zdigits2 m' + e') = e').
  { intros Hpos. assert (0 < m).
    { destruct (Z.eq_dec m 0) as [->|]; [|lia].
      rewrite Z.div_0_l in Hm' by lia. lia. }
    rewrite Hm' in Hpos |- *.
    rewrite (proj1 (Zdigits2_shift m n ltac:(lia) Hn) Hpos).
    rewrite He'. f_equal. unfold n. lia. }
  split; [assumption | split; [assumption|]].
  intros x Hx. destruct (Z.eq_dec m' 0) as [E|Hne].
  - assert (Hemin : e' = -1074).
    { assert (Zdigits2 m + e <= e').
      { destruct (Z.eq_dec m 0) as [->|Hm0].
        - change (Zdigits2 0) with 0 in *. lia.
        - rewrite Hm' in E.
          pose proof (proj2 (Zdigits2_shift m n ltac:(lia) Hn) E). unfold n in *. lia. }
      rewrite He' in *. rewrite fexp64_eq in *. lia. }
    rewrite Hemin, fexp64_eq. lia.
  - rewrite <- (Hcanon ltac:(lia)) at 1.
    apply fexp64_mono. pose proof (Zdigits2_mono m' x ltac:(lia)). lia.
Qed.

Lemma round_nearest_even_range (m : Z) (l : location) :
  m <= round_nearest_even m l <= m + 1.
Proof.
  unfold round_nearest_even. destruct l as [|[]]; try destruct (Z.even m); lia.
Qed.

(** Rounding returns a well-formed float. *)
Lemma binary_round_aux_wellFormed (s : bool) (m e : Z) (l : location) :
  0 <= m -> e <= fexp64 (Zdigits2 m + e) ->
  wellFormed s (binary_round_aux prec emax s m e l).
Proof.
  intros Hm He. unfold binary_round_aux.
  pose proof (shr_fexp_canonical m e l Hm He) as (H1 & _ & H3).
  destruct (shr_fexp prec emax m e l) as [mrs1 e1]. cbn [fst snd] in *.
  set (m2 := round_nearest_even (shr_m mrs1) (loc_of_shr_record mrs1)).
  pose proof (round_nearest_even_range (shr_m mrs1) (loc_of_shr_record mrs1)) as Hr.
  fold m2 in Hr.
  pose proof (shr_fexp_canonical m2 e1 loc_Exact ltac:(lia) (H3 m2 ltac:(lia)))
    as (H4 & H5 & _).
  destruct (shr_fexp prec emax m2 e1 loc_Exact) as [mrs2 e2]. cbn [fst snd] in *.
  destruct (shr_m mrs2) as [|p|p] eqn:E.
  - now left.
  - destruct (Z.leb_spec e2 (emax - prec)) as [Hle|Hgt].
    + right; right. exists p, e2. split; [reflexivity|].
      unfold bounded, canonical_mantissa.
      change (Z.pos (digits2_pos p)) with (Zdigits2 (Z.pos p)).
      fold (fexp64 (Zdigits2 (Z.pos p) + e2)).
      rewrite (H5 ltac:(lia)), Z.eqb_refl. cbn [andb].
      now apply Z.leb_le.
    + right; now left.
  - lia.
Qed.

Lemma iter_xO (d : positive) (m : positive) :
  Z.pos (Pos.iter xO m d) = Z.pos m * 2 ^ Z.pos d.
Proof.
  revert m. induction d as [|d IH] using Pos.peano_ind; intros m.
  - cbn [Pos.iter]. rewrite Z.pow_1_r. lia.
  - rewrite Pos.iter_succ, Pos2Z.inj_succ, Z.pow_succ_r by lia.
    change (Z.pos (Pos.iter xO m d)~0) with (2 * Z.pos (Pos.iter xO m d)).
    rewrite IH. lia.
Qed.

Lemma binary_round_wellFormed (s : bool) (m : positive) (e : Z) :
  wellFormed s (binary_round prec emax s m e).
Proof.
  unfold binary_round, shl_align.
  fold (fexp64 (Z.pos (digits2_pos m) + e)).
  change (Z.pos (digits2_pos m)) with (Zdigits2 (Z.pos m)).
  destruct (fexp64 (Zdigits2 (Z.pos m) + e) - e) as [|d|d] eqn:E.
  - apply binary_round_aux_wellFormed; lia.
  - apply binary_round_aux_wellFormed; lia.
  - apply binary_round_aux_wellFormed; [lia|].
    rewrite iter_xO, Zdigits2_shiftl by lia.
    replace (Zdigits2 (Z.pos m) + Z.pos d + fexp64 (Zdigits2 (Z.pos m) + e))
      with (Zdigits2 (Z.pos m) + e) by lia.
    lia.
Qed.

Lemma binary_normalize_wellFormed (m e : Z) :
  0 <= m -> wellFormed false (binary_normalize prec emax m e false).
Proof.
  intros Hm. destruct m as [|p|p]; [now left | | lia].
  apply binary_round_wellFormed.
Qed.

(** The conversion of a decimal is well-formed. *)
Lemma ofDecimal_wellFormed (n : N) (x : Z) : wellFormed false (ofDecimal false n x).
Proof.
  unfold ofDecimal. destruct n as [|p]; [now left|].
  destruct x as [|k|k].
  - apply binary_normalize_wellFormed. cbn [cond_Zopp]. lia.
  - apply binary_normalize_wellFormed. cbn [cond_Zopp].
    assert (0 < 10 ^ Z.pos k) by (apply Z.pow_pos_nonneg; lia). nia.
  - cbn [SFdiv xorb]. unfold SFdiv_core_binary.
    set (d1 := Zdigits2 (Z.pos p)). set (d2 := Zdigits2 (Z.pos (10 ^ k))).
    replace (d1 + 0 - (d2 + 0)) with (d1 - d2) by lia.
    fold (fexp64 (d1 - d2)).
    set (e' := Z.min (fexp64 (d1 - d2)) (0 - 0)).
    assert (He' : e' <= 0) by (unfold e'; lia).
    set (m' := match 0 - 0 - e' with
               | Z.pos _ => Z.shiftl (Z.pos p) (0 - 0 - e')
               | 0 => Z.pos p
               | Z.neg _ => 0
               end).
    assert (Hm' : m' = Z.pos p * 2 ^ (- e')).
    { unfold m'. replace (0 - 0 - e') with (- e') by lia.
      destruct (- e') as [|q|q] eqn:E; try lia.
      - now rewrite Z.shiftl_mul_pow2 by lia. }
    pose proof (Z_div_mod m' (Z.pos (10 ^ k)) ltac:(lia)) as Hdiv.
    unfold Z.div in *.
    assert (Hq : fst (Z.div_eucl m' (Z.pos (10 ^ k))) = m' / Z.pos (10 ^ k))
      by reflexivity.
    destruct (Z.div_eucl m' (Z.pos (10 ^ k))) as [q r]. cbn [fst] in Hq.
    assert (Hpow : 0 < 2 ^ (- e')) by (apply Z.pow_pos_nonneg; lia).
    apply binary_round_aux_wellFormed.
    + rewrite Hq. apply Z.div_pos; nia.
    + pose proof (Zdigits2_div m' (Z.pos (10 ^ k)) ltac:(nia) ltac:(lia)) as Hd.
      rewrite <- Hq in Hd. fold d2 in Hd.
      rewrite Hm', Zdigits2_shiftl in Hd by lia. fold d1 in Hd.
      apply Z.le_trans with (fexp64 (d1 - d2)); [unfold e'; lia|].
      apply fexp64_mono. lia.
Qed.
End RoundingFacts.

Section AmountsWellFormed.

(** The sum of two non-negative well-formed floats is one. *)
Lemma add_wellFormed (a b : number) :
  wellFormed false a -> wellFormed false b -> wellFormed false (add a b).
Proof.
  intros [->|[->|(ma & ea & -> & Ha)]] [->|[->|(mb & eb & -> & Hb)]];
    unfold add; cbn [SFadd];
    try (now left); try (right; now left);
    try (right; right; eexists; eexists; split; [reflexivity | assumption]).
  apply binary_normalize_wellFormed. cbn [cond_Zopp]. lia.
Qed.

Lemma decimalPrefix_shape (t captured rest : string) :
  decimalPrefix t = Some (captured, rest) ->
  exists whole point fraction,
    captured = (whole ++ point ++ fraction)%string /\
    whole <> EmptyString /\ allDigits whole = true /\ allDigits fraction = true /\
    (point = "."%string \/ (point = EmptyString /\ fraction = EmptyString)).
Proof.
  unfold decimalPrefix. destruct (startsWithDigit t) eqn:Hstart; [|discriminate].
  pose proof (span_allDigits t) as Hwhole.
  pose proof (span_rest t) as Hr1.
  assert (Hne : fst (span isDigit t) <> EmptyString).
  { destruct t as [|c u]; [discriminate|]. cbn [startsWithDigit] in Hstart.
    cbn [span]. rewrite Hstart. now destruct (span isDigit u). }
  destruct (span isDigit t) as [whole r1]. cbn [fst snd] in *.
  destruct r1 as [|c r].
  - cbn [span]. intros H. inversion H; subst.
    exists whole, EmptyString, EmptyString. repeat split; try assumption.
    now right.
  - destruct (Ascii.eqb "." c) eqn:Ec.
    + pose proof (span_allDigits r) as Hfraction.
      destruct (span isDigit r) as [fraction rest']. cbn [fst] in *.
      intros H. inversion H; subst.
      exists whole, "."%string, fraction. repeat split; try assumption.
      now left.
    + cbn [startsWithDigit] in Hr1. cbn [span]. rewrite Hr1.
      intros H. inversion H; subst.
      exists whole, EmptyString, EmptyString. repeat split; try assumption.
      now right.
Qed.

Lemma firstAmount_shape (text captured : string) :
  firstAmount text = Some captured ->
  exists t rest, decimalPrefix t = Some (captured, rest).
Proof.
  induction text as [|c t IH]; [discriminate|].
  cbn [firstAmount].
  destruct (Ascii.eqb "$" c); [|exact IH].
  destruct (decimalPrefix t) as [[captured' rest]|] eqn:E; [|exact IH].
  intros H. inversion H; subst. now exists t, rest.
Qed.

(** Every amount read from a label is a non-negative well-formed float. *)
Lemma amountOf_wellFormed (text : string) :
  wellFormed false (CheckoutStepTwoPage.amountOf text).
Proof.
  rewrite amountOf_firstAmount.
  destruct (firstAmount text) as [captured|] eqn:E; [|now left].
  apply firstAmount_shape in E. destruct E as (t & rest & E).
  apply decimalPrefix_shape in E.
  destruct E as (whole & point & fraction & -> & Hne & Hwhole & Hfraction & Hpoint).
  rewrite parseFloat_decimal by assumption.
  apply ofDecimal_wellFormed.
Qed.
End AmountsWellFormed.

(** ** Strings of digits *)

Local Open Scope nat_scope.
Local Open Scope string_scope.

Section DigitStringFacts.

Lemma decimal_value (n : N) : digitsValue (decimal n) = n.
Proof.
  unfold digitsValue, decimal. rewrite NilEmpty.usu.
  apply DecimalN.Unsigned.of_to.
Qed.

Lemma decimal_inj (a b : N) : decimal a = decimal b -> a = b.
Proof.
  intros H. rewrite <- (decimal_value a), <- (decimal_value b). now rewrite H.
Qed.

Lemma uint_digits (d : Decimal.uint) : allDigits (NilEmpty.string_of_uint d) = true.
Proof. induction d; simpl; try reflexivity; assumption. Qed.

Lemma decimal_digits (n : N) : allDigits (decimal n) = true.
Proof. apply uint_digits. Qed.

Lemma decimal_nonempty (n : N) : decimal n <> EmptyString.
Proof.
  intros H. pose proof (decimal_value n) as Hv. rewrite H in Hv.
  change (digitsValue EmptyString) with 0%N in Hv. subst n. discriminate.
Qed.

Lemma allDigits_append (a b : string) :
  allDigits (a ++ b) = allDigits a && allDigits b.
Proof.
  induction a as [|c a IH]; cbn [append allDigits]; [reflexivity|].
  now rewrite IH, andb_assoc.
Qed.

Lemma allDigits_zeros (k : nat) : allDigits (zeros k) = true.
Proof. induction k as [|k IH]; [reflexivity | exact IH]. Qed.

Lemma digitsValue_zeros (k : nat) (s : string) :
  digitsValue (zeros k ++ s) = digitsValue s.
Proof.
  induction k as [|k IH]; [reflexivity|].
  cbn [zeros append]. unfold digitsValue in *.
  cbn [NilEmpty.uint_of_string].
  destruct (NilEmpty.uint_of_string (zeros k ++ s)) as [d|];
    destruct (NilEmpty.uint_of_string s) as [d'|]; cbn in *; assumption.
Qed.

Lemma length_zeros (k : nat) : String.length (zeros k) = k.
Proof. induction k as [|k IH]; simpl; congruence. Qed.

Lemma digit_is_no_mark (c : ascii) :
  isDigit c = true -> Ascii.eqb "." c = false /\ notE c = true /\
                      Ascii.eqb "I" c = false.
Proof.
  destruct c as [[] [] [] [] [] [] [] []]; vm_compute; intros H;
    try discriminate H; repeat split.
Qed.

Lemma unpoint_digits (s : string) : allDigits s = true -> unpoint s = s.
Proof.
  induction s as [|c s IH]; cbn [allDigits unpoint]; [reflexivity|].
  intros H. apply andb_prop in H. destruct H as [Hc Hs].
  destruct (digit_is_no_mark c Hc) as (-> & _). now rewrite (IH Hs).
Qed.

Lemma unpoint_append (a b : string) : unpoint (a ++ b) = unpoint a ++ unpoint b.
Proof.
  induction a as [|c a IH]; cbn [append unpoint]; [reflexivity|].
  destruct (Ascii.eqb "." c); [exact IH | cbn [append]; now rewrite IH].
Qed.

Lemma plain_of_digits (s : string) : allDigits s = true -> plainDecimal s = true.
Proof.
  induction s as [|c s IH]; cbn [allDigits plainDecimal]; [reflexivity|].
  intros H. apply andb_prop in H. destruct H as [-> Hs]. now rewrite (IH Hs).
Qed.

Lemma plain_append (a b : string) :
  plainDecimal (a ++ b) = plainDecimal a && plainDecimal b.
Proof.
  induction a as [|c a IH]; cbn [append plainDecimal]; [reflexivity|].
  now rewrite IH, andb_assoc.
Qed.

(** A text of digits and points has no letter e; the scan for one stops at
    the first e after it. *)
Lemma span_plain (a b : string) :
  plainDecimal a = true -> span notE (a ++ String "e" b) = (a, String "e" b).
Proof.
  induction a as [|c a IH]; cbn [append plainDecimal span]; [reflexivity|].
  intros H. apply andb_prop in H. destruct H as [Hc Ha].
  assert (Hn : notE c = true).
  { apply orb_prop in Hc. destruct Hc as [Hc|Hc].
    - now destruct (digit_is_no_mark c Hc) as (_ & ? & _).
    - apply Ascii.eqb_eq in Hc. now subst c. }
  now rewrite Hn, (IH Ha).
Qed.

Lemma span_plain_all (a : string) :
  plainDecimal a = true -> span notE a = (a, EmptyString).
Proof.
  induction a as [|c a IH]; cbn [plainDecimal span]; [reflexivity|].
  intros H. apply andb_prop in H. destruct H as [Hc Ha].
  assert (Hn : notE c = true).
  { apply orb_prop in Hc. destruct Hc as [Hc|Hc].
    - now destruct (digit_is_no_mark c Hc) as (_ & ? & _).
    - apply Ascii.eqb_eq in Hc. now subst c. }
  now rewrite Hn, (IH Ha).
Qed.

Lemma substring_split (j : nat) : forall s,
  j <= String.length s ->
  substring 0 j s ++ substring j (String.length s - j) s = s.
Proof.
  induction j as [|j IH]; intros s Hj.
  - rewrite Nat.sub_0_r.
    assert (H : forall t, substring 0 (String.length t) t = t)
      by (induction t as [|c t IHt]; simpl; congruence).
    destruct s; simpl; [reflexivity|]. now rewrite H.
  - destruct s as [|c s]; simpl in *; [lia|].
    f_equal. apply IH. lia.
Qed.

Lemma substring_digits (i j : nat) : forall s,
  allDigits s = true -> allDigits (substring i j s) = true.
Proof.
  revert j. induction i as [|i IH]; intros j s H.
  - revert s H. induction j as [|j IHj]; intros s H.
    + destruct s; reflexivity.
    + destruct s as [|c s]; [reflexivity|].
      cbn [allDigits] in H. apply andb_prop in H. destruct H as [Hc Hs].
      cbn [substring allDigits]. now rewrite Hc, (IHj s Hs).
  - destruct s as [|c s]; [reflexivity|].
    cbn [allDigits] in H. apply andb_prop in H. destruct H as [_ Hs].
    cbn [substring]. now apply IH.
Qed.

(** The digits behind a fixed-point text of two decimals. *)
Lemma unpoint_pointBeforeLast (m : string) :
  allDigits m = true ->
  unpoint (pointBeforeLast 2 m) = padLeft 3 m /\
  plainDecimal (pointBeforeLast 2 m) = true.
Proof.
  intros Hm. unfold pointBeforeLast. cbn [Nat.add].
  set (P := padLeft 3 m).
  assert (HP : allDigits P = true).
  { unfold P, padLeft. now rewrite allDigits_append, allDigits_zeros, Hm. }
  assert (Hlen : 3 <= String.length P).
  { unfold P, padLeft. rewrite length_append, length_zeros. lia. }
  pose proof (substring_split (String.length P - 2) P ltac:(lia)) as Hsplit.
  replace (String.length P - (String.length P - 2)) with 2 in Hsplit by lia.
  pose proof (substring_digits 0 (String.length P - 2) P HP) as Ha.
  pose proof (substring_digits (String.length P - 2) 2 P HP) as Hb.
  split.
  - rewrite !unpoint_append. cbn [unpoint].
    change (Ascii.eqb "." ".") with true. cbn iota. cbn [append].
    now rewrite !unpoint_digits, Hsplit by assumption.
  - rewrite !plain_append, (plain_of_digits _ Ha), (plain_of_digits _ Hb).
    reflexivity.
Qed.

(** Fixed-point texts of two decimals tell the number of hundredths. *)
Lemma pointBeforeLast_inj (a b : N) :
  pointBeforeLast 2 (decimal a) = pointBeforeLast 2 (decimal b) -> a = b.
Proof.
  intros H. apply (f_equal unpoint) in H.
  rewrite !(proj1 (unpoint_pointBeforeLast _ (decimal_digits _))) in H.
  apply (f_equal digitsValue) in H. unfold padLeft in H.
  now rewrite !digitsValue_zeros, !decimal_value in H.
Qed.
End DigitStringFacts.

Section ExponentialFacts.

(** The digits and the exponent behind a text in exponential notation. *)
Lemma exponential_decode (s : Z) (p : nat) :
  let ds := decimal (Z.to_N s) in
  span notE (exponential s p) =
    (match ds with
     | String d EmptyString => ds
     | String d rest => String d ("." ++ rest)
     | EmptyString => EmptyString
     end,
     "e+" ++ decimal (N.of_nat (String.length ds + p - 1))).
Proof.
  intros ds. unfold exponential. fold ds.
  pose proof (decimal_digits (Z.to_N s)) as Hds. fold ds in Hds.
  pose proof (decimal_nonempty (Z.to_N s)) as Hne. fold ds in Hne.
  set (E := decimal (N.of_nat (String.length ds + p - 1))).
  destruct ds as [|d rest]; [contradiction|].
  cbn [allDigits] in Hds. apply andb_prop in Hds. destruct Hds as [Hd Hrest].
  destruct rest as [|d' rest'].
  - change (String d ("e+" ++ E)) with (String d EmptyString ++ String "e" ("+" ++ E)).
    apply span_plain. cbn [plainDecimal]. now rewrite Hd.
  - change (String d ("." ++ String d' rest' ++ "e+" ++ E))
      with (String d (String "." (String d' rest' ++ String "e" ("+" ++ E)))).
    change (String d (String "." (String d' rest' ++ String "e" ("+" ++ E))))
      with ((String d (String "." EmptyString)) ++
            (String d' rest' ++ String "e" ("+" ++ E))).
    rewrite <- append_assoc. apply span_plain.
    pose proof (plain_of_digits _ Hrest) as Hp. cbn [plainDecimal] in Hp.
    cbn [append plainDecimal]. rewrite Hd, Hp. reflexivity.
Qed.

Lemma exponential_inj (s1 s2 : Z) (p1 p2 : nat) :
  exponential s1 p1 = exponential s2 p2 ->
  Z.to_N s1 = Z.to_N s2 /\ p1 = p2.
Proof.
  intros H. apply (f_equal (span notE)) in H.
  rewrite !exponential_decode in H. cbv zeta in H.
  pose proof (decimal_digits (Z.to_N s1)) as Hd1.
  pose proof (decimal_digits (Z.to_N s2)) as Hd2.
  pose proof (decimal_nonempty (Z.to_N s1)) as Hn1.
  pose proof (decimal_nonempty (Z.to_N s2)) as Hn2.
  inversion H as [[Hm He]]. clear H.
  assert (Hds : decimal (Z.to_N s1) = decimal (Z.to_N s2)).
  { apply (f_equal unpoint) in Hm.
    destruct (decimal (Z.to_N s1)) as [|d1 [|c1 r1]];
      destruct (decimal (Z.to_N s2)) as [|d2 [|c2 r2]];
      try contradiction;
      repeat match goal with
        | Hx : allDigits (String _ _) = true |- _ =>
            let Hc := fresh "Hc" in
            pose proof Hx as Hc; apply unpoint_digits in Hc;
            cbn [allDigits] in Hx; apply andb_prop in Hx; destruct Hx as [? Hx]
        end;
      repeat match goal with
        | Hx : isDigit ?c = true |- _ =>
            destruct (digit_is_no_mark c Hx) as (? & _ & _); clear Hx
        end;
      cbn [unpoint append] in *;
      repeat match goal with
        | Hx : Ascii.eqb "." ?c = false |- _ => rewrite Hx in *; clear Hx
        end;
      change (Ascii.eqb "." ".") with true in *; cbn iota in *;
      try congruence. }
  split; [now apply decimal_inj|].
  apply decimal_inj in He. apply Nat2N.inj in He.
  rewrite Hds in He.
  assert (0 < String.length (decimal (Z.to_N s2)))%nat
    by (destruct (decimal (Z.to_N s2)); [contradiction | simpl; lia]).
  lia.
Qed.

(** Exponential notation is not fixed-point notation. *)
Lemma exponential_not_plain (s : Z) (p : nat) (t : string) :
  plainDecimal t = true -> exponential s p <> t.
Proof.
  intros Ht H. apply (f_equal (span notE)) in H.
  rewrite exponential_decode, (span_plain_all _ Ht) in H. cbv zeta in H.
  inversion H.
Qed.
End ExponentialFacts.

(** ** Floats that are integers *)

Local Open Scope Z_scope.

Section ExactFacts.

Lemma number_eqb_eq (a b : number) : number_eqb a b = true -> a = b.
Proof.
  destruct a as [s|s| |s m e]; destruct b as [t|t| |t n f]; cbn [number_eqb];
    try discriminate; intros H.
  - apply Bool.eqb_prop in H. now subst.
  - apply Bool.eqb_prop in H. now subst.
  - reflexivity.
  - apply andb_prop in H. destruct H as [H He].
    apply andb_prop in H. destruct H as [Hs Hm].
    apply Bool.eqb_prop in Hs. apply Pos.eqb_eq in Hm. apply Z.eqb_eq in He.
    now subst.
Qed.

Lemma number_eqb_refl (a : number) : number_eqb a a = true.
Proof.
  destruct a as [s|s| |s m e]; cbn [number_eqb]; try reflexivity;
    try (now destruct s).
  rewrite Pos.eqb_refl, Z.eqb_refl. now destruct s.
Qed.

Lemma shr_1_even (b : Z) :
  0 <= b ->
  shr_1 {| shr_m := 2 * b; shr_r := false; shr_s := false |} =
    {| shr_m := b; shr_r := false; shr_s := false |}.
Proof. destruct b as [|q|q]; [reflexivity | reflexivity | lia]. Qed.

(** Shifting out zeros loses nothing. *)
Lemma iter_shr_exact (p : positive) : forall a,
  0 <= a ->
  iter_pos shr_1 p {| shr_m := a * 2 ^ Z.pos p; shr_r := false; shr_s := false |} =
    {| shr_m := a; shr_r := false; shr_s := false |}.
Proof.
  induction p as [p IH|p IH|]; intros a Ha; cbn [iter_pos].
  - assert (Hp : 0 < 2 ^ Z.pos p) by (apply Z.pow_pos_nonneg; lia).
    replace (a * 2 ^ Z.pos p~1) with (2 * ((a * 2 ^ Z.pos p) * 2 ^ Z.pos p)).
    + rewrite shr_1_even by nia. rewrite IH by nia. now apply IH.
    + replace (Z.pos p~1) with (Z.pos p + Z.pos p + 1) by lia.
      rewrite !Z.pow_add_r, Z.pow_1_r by lia. ring.
  - assert (Hp : 0 < 2 ^ Z.pos p) by (apply Z.pow_pos_nonneg; lia).
    replace (a * 2 ^ Z.pos p~0) with ((a * 2 ^ Z.pos p) * 2 ^ Z.pos p).
    + rewrite IH by nia. now apply IH.
    + replace (Z.pos p~0) with (Z.pos p + Z.pos p) by lia.
      rewrite Z.pow_add_r by lia. ring.
  - rewrite Z.pow_1_r. replace (a * 2) with (2 * a) by lia.
    now apply shr_1_even.
Qed.

Lemma bounded_canonical (m : positive) (e : Z) :
  bounded prec emax m e = true ->
  fexp64 (Zdigits2 (Z.pos m) + e) = e /\ e <= emax - prec.
Proof.
  unfold bounded, canonical_mantissa. intros H.
  apply andb_prop in H. destruct H as [Hc He].
  apply Z.eqb_eq in Hc. apply Z.leb_le in He. now split.
Qed.

(** An integer that is a float converts to itself. *)
Lemma normalize_exact (m : positive) (e : Z) :
  bounded prec emax m e = true -> 0 <= e ->
  binary_normalize prec emax (Z.pos m * 2 ^ e) 0 false = S754_finite false m e.
Proof.
  intros Hb He. destruct (bounded_canonical m e Hb) as [Hc Hmax].
  assert (Hpow : 0 < 2 ^ e) by (apply Z.pow_pos_nonneg; lia).
  destruct (Z.pos m * 2 ^ e) as [|q|q] eqn:Eq; try lia.
  cbn [binary_normalize]. unfold binary_round.
  change (Z.pos (digits2_pos q)) with (Zdigits2 (Z.pos q)).
  fold (fexp64 (Zdigits2 (Z.pos q) + 0)).
  assert (Hdq : fexp64 (Zdigits2 (Z.pos q) + 0) = e).
  { rewrite <- Eq, Zdigits2_shiftl, Z.add_0_r by lia. exact Hc. }
  rewrite Hdq. unfold shl_align.
  replace (match e - 0 with
           | Z.neg d => (Pos.iter xO q d, e)
           | _ => (q, 0)
           end) with (q, 0) by (destruct (e - 0) eqn:E; [reflexivity..|lia]).
  unfold binary_round_aux, shr_fexp.
  fold (fexp64 (Zdigits2 (Z.pos q) + 0)). rewrite Hdq.
  assert (Hshift : shr (shr_record_of_loc (Z.pos q) loc_Exact) 0 (e - 0) =
                   ({| shr_m := Z.pos m; shr_r := false; shr_s := false |}, e)).
  { unfold shr. cbn [shr_record_of_loc]. rewrite Z.sub_0_r.
    destruct e as [|p|p]; try lia.
    - rewrite Z.pow_0_r, Z.mul_1_r in Eq. now inversion Eq.
    - rewrite <- Eq, iter_shr_exact by lia. reflexivity. }
  rewrite Hshift. cbn [shr_m loc_of_shr_record round_nearest_even].
  fold (fexp64 (Zdigits2 (Z.pos m) + e)). rewrite Hc, Z.sub_diag.
  cbn [shr shr_record_of_loc shr_m].
  replace (e <=? emax - prec) with true by (symmetry; now apply Z.leb_le).
  reflexivity.
Qed.

(** Canonical floats with the same value are the same. *)
Lemma canonical_unique (m1 m2 : positive) (e1 e2 : Z) :
  bounded prec emax m1 e1 = true -> bounded prec emax m2 e2 = true ->
  0 <= e1 -> 0 <= e2 ->
  Z.pos m1 * 2 ^ e1 = Z.pos m2 * 2 ^ e2 ->
  m1 = m2 /\ e1 = e2.
Proof.
  intros H1 H2 He1 He2 Hv.
  destruct (bounded_canonical m1 e1 H1) as [Hc1 _].
  destruct (bounded_canonical m2 e2 H2) as [Hc2 _].
  assert (Hd : Zdigits2 (Z.pos m1) + e1 = Zdigits2 (Z.pos m2) + e2).
  { rewrite <- !Zdigits2_shiftl by lia. now rewrite Hv. }
  assert (He : e1 = e2) by (rewrite <- Hc1, <- Hc2; now rewrite Hd).
  subst e2. split; [|reflexivity].
  assert (Hpow : 0 < 2 ^ e1) by (apply Z.pow_pos_nonneg; lia).
  apply Z.mul_cancel_r in Hv; [|lia]. now inversion Hv.
Qed.

(** A canonical float of at least 10^21 is an integer. *)
Lemma large_is_integer (m : positive) (e : Z) :
  bounded prec emax m e = true -> atLeast1e21 m e = true -> 0 <= e.
Proof.
  intros Hb Hl. destruct (bounded_canonical m e Hb) as [Hc _].
  destruct (Z.le_gt_cases 0 e) as [|Hneg]; [assumption|]. exfalso.
  unfold atLeast1e21, fraction in Hl.
  destruct e as [|p|p]; try lia.
  apply Z.leb_le in Hl.
  pose proof (Zdigits2_bounds (Z.pos m) ltac:(lia)) as [_ Hhi].
  assert (H69 : 2 ^ 69 <= 10 ^ 21) by (vm_compute; discriminate).
  assert (Hp : 0 < 2 ^ Z.pos p) by (apply Z.pow_pos_nonneg; lia).
  assert (Hlt : 2 ^ (69 + Z.pos p) < 2 ^ Zdigits2 (Z.pos m)).
  { rewrite Z.pow_add_r by lia. nia. }
  apply Z.pow_lt_mono_r_iff in Hlt; [|lia|apply Zdigits2_nonneg].
  rewrite fexp64_eq in Hc. lia.
Qed.
End ExactFacts.

(** ** The shortest digits of a large float *)

Section ShortestFacts.

Lemma roundTrips_sound (x : number) (s : Z) (p : nat) (m : positive) (e : Z) :
  x = S754_finite false m e ->
  roundTrips x s p = true ->
  0 < s /\ binary_normalize prec emax (s * 10 ^ Z.of_nat p) 0 false = x.
Proof.
  intros Hx H. unfold roundTrips in H. apply number_eqb_eq in H.
  destruct s as [|q|q]; cbn [Z.to_N ofDecimal] in H; try (subst x; discriminate).
  split; [lia|].
  destruct (Z.of_nat p) as [|k|k] eqn:E; try lia; exact H.
Qed.

(** What the search returns converts back to the float. *)
Lemma shortestFrom_sound (x : number) (num den : Z) (nd : nat) (m : positive) (e : Z) :
  x = S754_finite false m e ->
  forall (fuel k : nat) (s : Z) (p : nat),
    (1 <= k)%nat ->
    shortestFrom fuel x num den nd k = Some (s, p) ->
    0 < s /\ binary_normalize prec emax (s * 10 ^ Z.of_nat p) 0 false = x.
Proof.
  intros Hx. induction fuel as [|fuel IH]; intros k s p Hk H; [discriminate|].
  cbn [shortestFrom] in H.
  set (q := (nd - k)%nat) in *.
  set (lo := num / (den * 10 ^ Z.of_nat q)) in *.
  assert (Hlo : roundTrips x lo q = true -> Some (lo, q) = Some (s, p) ->
                0 < s /\ binary_normalize prec emax (s * 10 ^ Z.of_nat p) 0 false = x).
  { intros Hok E. inversion E; subst s p.
    exact (roundTrips_sound x lo q m e Hx Hok). }
  assert (Hhi : roundTrips x (lo + 1) q = true ->
                Some (if lo + 1 =? 10 ^ Z.of_nat k
                      then (10 ^ Z.of_nat (k - 1), S q) else (lo + 1, q)) = Some (s, p) ->
                0 < s /\ binary_normalize prec emax (s * 10 ^ Z.of_nat p) 0 false = x).
  { intros Hok E.
    destruct (roundTrips_sound x (lo + 1) q m e Hx Hok) as [Hpos Hval].
    destruct (Z.eqb_spec (lo + 1) (10 ^ Z.of_nat k)) as [E10|_];
      inversion E; subst s p.
    - split; [apply Z.pow_pos_nonneg; lia|].
      rewrite <- Hval, E10. f_equal.
      rewrite <- !Z.pow_add_r by lia. f_equal. lia.
    - now split. }
  destruct (roundTrips x lo q) eqn:Eok1; destruct (roundTrips x (lo + 1) q) eqn:Eok2;
    cbn [andb] in H.
  - destruct (2 * num ?= (lo + (lo + 1)) * 10 ^ Z.of_nat q * den).
    + destruct (Z.even lo); [now apply Hlo | now apply Hhi].
    + now apply Hlo.
    + now apply Hhi.
  - now apply Hlo.
  - now apply Hhi.
  - apply (IH (S k) s p); [lia | exact H].
Qed.

(** The search ends at the latest when all digits of an integer are used. *)
Lemma shortestFrom_total (x : number) (num : Z) (nd : nat) :
  roundTrips x num 0 = true ->
  forall (fuel k : nat),
    (1 <= fuel)%nat -> (k + fuel = nd + 1)%nat ->
    shortestFrom fuel x num 1 nd k <> None.
Proof.
  intros Hexact. induction fuel as [|fuel IH]; intros k Hfuel Hk; [lia|].
  cbn [shortestFrom].
  destruct (roundTrips x (num / (1 * 10 ^ Z.of_nat (nd - k))) (nd - k)) eqn:Eok1;
    destruct (roundTrips x (num / (1 * 10 ^ Z.of_nat (nd - k)) + 1) (nd - k)) eqn:Eok2;
    cbn [andb].
  - destruct (2 * num ?= _); try discriminate.
    destruct (Z.even _); discriminate.
  - discriminate.
  - discriminate.
  - destruct fuel as [|fuel'].
    + exfalso. replace (nd - k)%nat with 0%nat in Eok1 by lia.
      change (Z.of_nat 0) with 0 in Eok1.
      rewrite Z.pow_0_r, Z.mul_1_l, Z.div_1_r in Eok1. congruence.
    + apply IH; lia.
Qed.

(** The text of a canonical float of at least 10^21: exponential notation
    of a decimal that converts back to the float. *)
Lemma toStringLarge_spec (m : positive) (e : Z) :
  bounded prec emax m e = true -> atLeast1e21 m e = true ->
  exists s p,
    toStringLarge m e = exponential s p /\ 0 < s /\
    binary_normalize prec emax (s * 10 ^ Z.of_nat p) 0 false = S754_finite false m e.
Proof.
  intros Hb Hl. pose proof (large_is_integer m e Hb Hl) as He.
  assert (Hpow : 0 < 2 ^ e) by (apply Z.pow_pos_nonneg; lia).
  unfold toStringLarge.
  assert (Hf : fraction m e = (Z.pos m * 2 ^ e, 1))
    by (unfold fraction; destruct e; [reflexivity | reflexivity | lia]).
  rewrite Hf. rewrite Z.div_1_r.
  set (num := Z.pos m * 2 ^ e).
  set (nd := String.length (decimal (Z.to_N num))).
  assert (Hexact : roundTrips (S754_finite false m e) num 0 = true).
  { unfold roundTrips. assert (Hnum : 0 < num) by (unfold num; nia).
    destruct num as [|q|q] eqn:Eq; try lia.
    cbn [Z.to_N ofDecimal Z.of_nat cond_Zopp].
    rewrite Z.pow_0_r, Z.mul_1_r, <- Eq. unfold num.
    rewrite normalize_exact by assumption. apply number_eqb_refl. }
  assert (Hnd : (1 <= nd)%nat).
  { unfold nd. pose proof (decimal_nonempty (Z.to_N num)).
    destruct (decimal (Z.to_N num)); [contradiction | simpl; lia]. }
  pose proof (shortestFrom_total _ num nd Hexact nd 1%nat Hnd ltac:(lia)) as Htotal.
  destruct (shortestFrom nd (S754_finite false m e) num 1 nd 1) as [[s p]|] eqn:E;
    [|contradiction].
  exists s, p. split; [reflexivity|].
  exact (shortestFrom_sound _ num 1 nd m e eq_refl nd 1%nat s p ltac:(lia) E).
Qed.

(** Different large floats have different texts. *)
Lemma toStringLarge_inj (m1 m2 : positive) (e1 e2 : Z) :
  bounded prec emax m1 e1 = true -> atLeast1e21 m1 e1 = true ->
  bounded prec emax m2 e2 = true -> atLeast1e21 m2 e2 = true ->
  toStringLarge m1 e1 = toStringLarge m2 e2 ->
  m1 = m2 /\ e1 = e2.
Proof.
  intros Hb1 Hl1 Hb2 Hl2 H.
  destruct (toStringLarge_spec m1 e1 Hb1 Hl1) as (s1 & p1 & E1 & Hs1 & Hv1).
  destruct (toStringLarge_spec m2 e2 Hb2 Hl2) as (s2 & p2 & E2 & Hs2 & Hv2).
  rewrite E1, E2 in H. apply exponential_inj in H. destruct H as [Hs Hp].
  assert (s1 = s2) by lia. subst s2 p2.
  rewrite Hv1 in Hv2. now inversion Hv2.
Qed.
End ShortestFacts.

(** ** C4: the price calculation *)

Section FixedFacts.

Lemma fraction_positive (m : positive) (e : Z) :
  0 < fst (fraction m e) /\ 0 < snd (fraction m e).
Proof.
  unfold fraction. destruct e as [|p|p]; cbn [fst snd].
  - lia.
  - assert (0 < 2 ^ Z.pos p) by (apply Z.pow_pos_nonneg; lia). nia.
  - assert (0 < 2 ^ Z.pos p) by (apply Z.pow_pos_nonneg; lia). lia.
Qed.

(** [toFixed] rounds to the nearest hundredth, ties upwards. *)
Lemma nearestScaled_spec (m : positive) (e n : Z) :
  roundsToHundredths (S754_finite false m e) n <-> n = nearestScaled 2 m e.
Proof.
  unfold roundsToHundredths, nearestScaled. cbn [exactValue].
  pose proof (fraction_positive m e) as [Hnum Hden].
  destruct (fraction m e) as [num den]. cbn [fst snd] in *.
  change (10 ^ Z.of_nat 2) with 100. split.
  - intros [Hlo Hhi].
    apply (Z.div_unique _ _ n (2 * num * 100 + den - 2 * den * n)); [left|]; nia.
  - intros ->.
    pose proof (Z.mul_div_le (2 * num * 100 + den) (2 * den) ltac:(lia)).
    pose proof (Z.mul_succ_div_gt (2 * num * 100 + den) (2 * den) ltac:(lia)).
    nia.
Qed.

Lemma roundsToHundredths_zero (s : bool) (n : Z) :
  roundsToHundredths (S754_zero s) n <-> n = 0.
Proof. unfold roundsToHundredths. cbn [exactValue]. lia. Qed.

Lemma nearestScaled_nonneg (m : positive) (e : Z) : 0 <= nearestScaled 2 m e.
Proof.
  unfold nearestScaled. pose proof (fraction_positive m e) as [Hnum Hden].
  destruct (fraction m e) as [num den]. cbn [fst snd] in *.
  apply Z.div_pos; [|lia].
  assert (0 <= 10 ^ Z.of_nat 2) by (apply Z.pow_nonneg; lia). nia.
Qed.

(** Below 10^21 the hundredths stay below 10^23. *)
Lemma small_hundredths (m : positive) (e : Z) :
  bounded prec emax m e = true -> atLeast1e21 m e = false ->
  nearestScaled 2 m e < 10 ^ 23.
Proof.
  intros Hb Hs. destruct (bounded_canonical m e Hb) as [Hc _].
  unfold nearestScaled, atLeast1e21, fraction in *.
  change (10 ^ Z.of_nat 2) with 100.
  destruct e as [|p|p].
  - apply Z.leb_gt in Hs. apply Z.div_lt_upper_bound; [lia|].
    change (10 ^ 23) with (100 * 10 ^ 21). change (2 ^ 0) with 1 in *. lia.
  - apply Z.leb_gt in Hs. apply Z.div_lt_upper_bound; [lia|].
    change (10 ^ 23) with (100 * 10 ^ 21). lia.
  - assert (Hp : 0 < 2 ^ Z.pos p) by (apply Z.pow_pos_nonneg; lia).
    assert (Hd : Zdigits2 (Z.pos m) <= 53) by (rewrite fexp64_eq in Hc; lia).
    pose proof (Zdigits2_bounds (Z.pos m) ltac:(lia)) as [_ Hhi].
    assert (Hm : Z.pos m < 2 ^ 53).
    { apply Z.lt_le_trans with (2 ^ Zdigits2 (Z.pos m)); [assumption|].
      apply Z.pow_le_mono_r; lia. }
    apply Z.div_lt_upper_bound; [lia|].
    assert (2 ^ 53 * 200 < 10 ^ 23) by (vm_compute; reflexivity).
    assert (0 < 10 ^ 23) by (vm_compute; reflexivity).
    nia.
Qed.

(** From 10^21 on the hundredths are a hundred times the integer. *)
Lemma large_hundredths (m : positive) (e : Z) :
  bounded prec emax m e = true -> atLeast1e21 m e = true ->
  0 <= e /\ nearestScaled 2 m e = 100 * (Z.pos m * 2 ^ e) /\
  10 ^ 23 <= nearestScaled 2 m e.
Proof.
  intros Hb Hl. pose proof (large_is_integer m e Hb Hl) as He.
  assert (Hf : fraction m e = (Z.pos m * 2 ^ e, 1))
    by (unfold fraction; destruct e; [reflexivity | reflexivity | lia]).
  unfold nearestScaled, atLeast1e21 in *. rewrite Hf in *.
  change (10 ^ Z.of_nat 2) with 100.
  apply Z.leb_le in Hl.
  assert (Hn : (2 * (Z.pos m * 2 ^ e) * 100 + 1) / (2 * 1) = 100 * (Z.pos m * 2 ^ e)).
  { symmetry. apply (Z.div_unique _ _ _ 1); lia. }
  rewrite Hn. repeat split; try assumption.
  change (10 ^ 23) with (100 * 10 ^ 21). lia.
Qed.

Lemma plain_is_not_Infinity (t : string) :
  plainDecimal t = true -> t <> "Infinity"%string.
Proof. intros H ->. discriminate. Qed.

Lemma exponential_is_not_Infinity (s : Z) (p : nat) :
  exponential s p <> "Infinity"%string.
Proof.
  intros H. apply (f_equal (span notE)) in H.
  rewrite exponential_decode in H. cbv zeta in H. inversion H.
Qed.

Lemma wellFormed_shown (x : number) : wellFormed false x -> Shown x.
Proof.
  intros [->|[->|(m & e & -> & Hb)]].
  - apply (ShownFixed _ 0); [split; [lia | reflexivity] | reflexivity|].
    intros n'. apply roundsToHundredths_zero.
  - now apply ShownInfinity.
  - destruct (atLeast1e21 m e) eqn:El.
    + destruct (large_hundredths m e Hb El) as (He & Hn & Hge).
      apply (ShownLarge _ m e); try assumption; try reflexivity.
      * cbn [toFixed]. now rewrite El.
      * intros n'. rewrite nearestScaled_spec. now rewrite Hn.
      * now rewrite <- Hn.
    + apply (ShownFixed _ (nearestScaled 2 m e)).
      * split; [apply nearestScaled_nonneg | now apply small_hundredths].
      * cbn [toFixed]. now rewrite El.
      * intros n'. apply nearestScaled_spec.
Qed.

(** The texts of [toFixed(2)] are equal exactly when the amounts agree to
    two decimal places. *)
Lemma toFixed_agree (x y : number) :
  wellFormed false x -> wellFormed false y ->
  (toFixed x 2 = toFixed y 2 <-> agreeToTwoDecimals x y).
Proof.
  intros Hx Hy.
  destruct (wellFormed_shown x Hx) as [Ex Tx|n [Hn0 Hn1] Tx Rx|m e Ex Hb Hl Tx Rx Gx];
    destruct (wellFormed_shown y Hy) as [Ey Ty|k [Hk0 Hk1] Ty Ry|m' e' Ey Hb' Hl' Ty Ry Gy];
    rewrite Tx, Ty; unfold agreeToTwoDecimals.
  - split; [intros _; left; now split | reflexivity].
  - split.
    + intros H. symmetry in H.
      now apply plain_is_not_Infinity in H;
        [|apply unpoint_pointBeforeLast, decimal_digits].
    + intros [[_ E]|(n' & Hx' & _)].
      * exfalso. subst y. exact (proj2 (Ry k) eq_refl).
      * subst x. contradiction.
  - split.
    + intros H. symmetry in H.
      destruct (toStringLarge_spec m' e' Hb' Hl') as (s & p & E & _).
      rewrite E in H. now apply exponential_is_not_Infinity in H.
    + intros [[_ E]|(n' & Hx' & _)]; [congruence | subst x; contradiction].
  - split.
    + intros H.
      now apply plain_is_not_Infinity in H;
        [|apply unpoint_pointBeforeLast, decimal_digits].
    + intros [[E _]|(n' & _ & Hy')].
      * exfalso. subst x. exact (proj2 (Rx n) eq_refl).
      * subst y. contradiction.
  - split.
    + intros H. apply pointBeforeLast_inj in H.
      right. exists n. split; [now apply Rx|]. apply Ry. lia.
    + intros [[E _]|(n' & Hx' & Hy')].
      * exfalso. subst x. exact (proj2 (Rx n) eq_refl).
      * apply Rx in Hx'. apply Ry in Hy'. now subst.
  - split.
    + intros H. symmetry in H.
      destruct (toStringLarge_spec m' e' Hb' Hl') as (s & p & E & _).
      rewrite E in H. apply exponential_not_plain in H; [contradiction|].
      apply unpoint_pointBeforeLast, decimal_digits.
    + intros [[E _]|(n' & Hx' & Hy')].
      * exfalso. subst x. exact (proj2 (Rx n) eq_refl).
      * apply Rx in Hx'. apply Ry in Hy'. lia.
  - split.
    + intros H.
      destruct (toStringLarge_spec m e Hb Hl) as (s & p & E & _).
      rewrite E in H. now apply exponential_is_not_Infinity in H.
    + intros [[E _]|(n' & _ & Hy')]; [congruence | subst y; contradiction].
  - split.
    + intros H.
      destruct (toStringLarge_spec m e Hb Hl) as (s & p & E & _).
      rewrite E in H. apply exponential_not_plain in H; [contradiction|].
      apply unpoint_pointBeforeLast, decimal_digits.
    + intros [[E _]|(n' & Hx' & Hy')]; [congruence|].
      apply Rx in Hx'. apply Ry in Hy'. lia.
  - split.
    + intros H.
      destruct (toStringLarge_inj m m' e e' Hb Hl Hb' Hl' H) as [-> ->].
      right. exists (100 * (Z.pos m' * 2 ^ e')).
      split; [now apply Rx | now apply Ry].
    + intros [[E _]|(n' & Hx' & Hy')]; [congruence|].
      apply Rx in Hx'. apply Ry in Hy'.
      destruct (large_hundredths m e Hb Hl) as (He & _).
      destruct (large_hundredths m' e' Hb' Hl') as (He' & _).
      destruct (canonical_unique m m' e e' Hb Hb' He He' ltac:(lia)) as [-> ->].
      reflexivity.
Qed.
End FixedFacts.

(** C4. On every checkout overview whose three price labels are shown,
    [isPriceCalculationCorrect] is fulfilled, and its answer is [true]
    exactly when the float sum of the subtotal and the tax read by
    [getPriceSummary] and the total read by it agree after rounding to two
    decimal places. *)
Theorem isPriceCalculationCorrect_spec
    {W : Type} {site : Site W} (w : W) (subtotalText taxText totalText : string) :
  shows ".summary_subtotal_label" subtotalText w ->
  shows ".summary_tax_label" taxText w ->
  shows ".summary_total_label" totalText w ->
  let summary :=
    {| CheckoutStepTwoPage.subtotal := CheckoutStepTwoPage.amountOf subtotalText;
       CheckoutStepTwoPage.tax := CheckoutStepTwoPage.amountOf taxText;
       CheckoutStepTwoPage.total := CheckoutStepTwoPage.amountOf totalText |} in
  CheckoutStepTwoPage.getPriceSummary w = (Fulfilled summary, w) /\
  exists answer,
    CheckoutStepTwoPage.isPriceCalculationCorrect w = (Fulfilled answer, w) /\
    (answer = true <->
     agreeToTwoDecimals
       (add (CheckoutStepTwoPage.subtotal summary) (CheckoutStepTwoPage.tax summary))
       (CheckoutStepTwoPage.total summary)).
Proof.
  intros Hsubtotal Htax Htotal summary.
  assert (Hsummary : CheckoutStepTwoPage.getPriceSummary w = (Fulfilled summary, w)).
  { unfold CheckoutStepTwoPage.getPriceSummary, CheckoutStepTwoPage.getSubtotal,
      CheckoutStepTwoPage.getTax, CheckoutStepTwoPage.getTotal,
      CheckoutStepTwoPage.subtotalLabel, CheckoutStepTwoPage.taxLabel,
      CheckoutStepTwoPage.totalLabel, bind, ret.
    rewrite (innerText_shows _ _ _ Hsubtotal). cbn beta iota.
    rewrite (innerText_shows _ _ _ Htax). cbn beta iota.
    now rewrite (innerText_shows _ _ _ Htotal). }
  split; [exact Hsummary|].
  unfold CheckoutStepTwoPage.isPriceCalculationCorrect, bind.
  rewrite Hsummary. unfold ret. eexists. split; [reflexivity|].
  rewrite String.eqb_eq. apply toFixed_agree.
  - apply add_wellFormed; apply amountOf_wellFormed.
  - apply amountOf_wellFormed.
Qed.

Lemma isPriceCalculationCorrect_spec_witness :
  CheckoutStepTwoPage.isPriceCalculationCorrect overviewPage =
    (Fulfilled true, overviewPage).
Proof.
  destruct (isPriceCalculationCorrect_spec overviewPage
              "Item total: $29.99" "Tax: $2.40" "Total: $32.39")
    as (_ & answer & Hanswer & _).
  - exists 1%nat, (StaticPage.label ".summary_subtotal_label" "Item total: $29.99").
    split; reflexivity.
  - exists 2%nat, (StaticPage.label ".summary_tax_label" "Tax: $2.40").
    split; reflexivity.
  - exists 3%nat, (StaticPage.label ".summary_total_label" "Total: $32.39").
    split; reflexivity.
  - rewrite Hanswer. vm_compute in Hanswer. inversion Hanswer. reflexivity.
Defined.

(** ** Rounding to nearest

    The rounding of a product: where the mantissa moves up, and what value
    the rounded float has. *)

Section NearestFacts.

Lemma shr_1_r (mrs : shr_record) :
  0 <= shr_m mrs -> shr_r (shr_1 mrs) = Z.odd (shr_m mrs).
Proof.
  destruct mrs as [m r s]. cbn [shr_m]. intros Hm.
  destruct m as [|[p|p|]|p]; try reflexivity. lia.
Qed.

Lemma iter_shr_r (p : positive) : forall mrs,
  0 <= shr_m mrs ->
  shr_r (iter_pos shr_1 p mrs) = Z.odd (shr_m mrs / 2 ^ (Z.pos p - 1)).
Proof.
  induction p as [p IH|p IH|]; intros mrs Hm; cbn [iter_pos].
  - assert (H1 : 0 <= shr_m (shr_1 mrs))
      by (rewrite shr_1_m by assumption; apply Z.div_pos; lia).
    assert (Hp : 0 < 2 ^ Z.pos p) by (apply Z.pow_pos_nonneg; lia).
    assert (Hp1 : 0 < 2 ^ (Z.pos p - 1)) by (apply Z.pow_pos_nonneg; lia).
    assert (H2 : 0 <= shr_m (iter_pos shr_1 p (shr_1 mrs)))
      by (rewrite iter_shr_m by assumption; apply Z.div_pos; lia).
    rewrite IH, iter_shr_m, shr_1_m by assumption.
    rewrite !Z.div_div by lia. f_equal. f_equal.
    replace (Z.pos p~1 - 1) with (1 + (Z.pos p + (Z.pos p - 1))) by lia.
    rewrite !Z.pow_add_r, Z.pow_1_r by lia. ring.
  - assert (Hp : 0 < 2 ^ Z.pos p) by (apply Z.pow_pos_nonneg; lia).
    assert (Hp1 : 0 < 2 ^ (Z.pos p - 1)) by (apply Z.pow_pos_nonneg; lia).
    assert (H2 : 0 <= shr_m (iter_pos shr_1 p mrs))
      by (rewrite iter_shr_m by assumption; apply Z.div_pos; lia).
    rewrite IH, iter_shr_m by assumption.
    rewrite Z.div_div by lia. f_equal. f_equal.
    replace (Z.pos p~0 - 1) with (Z.pos p + (Z.pos p - 1)) by lia.
    now rewrite Z.pow_add_r by lia.
  - rewrite shr_1_r by assumption. now rewrite Z.div_1_r.
Qed.

(** Rounding to nearest moves the mantissa up only on a set round bit. *)
Lemma round_nearest_even_up (mrs : shr_record) :
  round_nearest_even (shr_m mrs) (loc_of_shr_record mrs) = shr_m mrs \/
  (shr_r mrs = true /\
   round_nearest_even (shr_m mrs) (loc_of_shr_record mrs) = shr_m mrs + 1).
Proof.
  destruct mrs as [m [] []]; cbn; try (destruct (Z.even m)); auto.
Qed.

(** A set round bit after a shift by [n] places: the part shifted out is
    at least half of the last place kept. *)
Lemma odd_half (m n : Z) :
  0 <= m -> 0 < n -> Z.odd (m / 2 ^ (n - 1)) = true ->
  2 ^ (n - 1) <= m mod 2 ^ n.
Proof.
  intros Hm Hn Hodd.
  assert (Hp1 : 0 < 2 ^ (n - 1)) by (apply Z.pow_pos_nonneg; lia).
  assert (Hp : 2 ^ n = 2 * 2 ^ (n - 1)).
  { replace n with (1 + (n - 1)) at 1 by lia.
    now rewrite Z.pow_add_r, Z.pow_1_r by lia. }
  pose proof (Z.div_mod m (2 ^ (n - 1)) ltac:(lia)) as Hdm.
  pose proof (Z.mod_pos_bound m (2 ^ (n - 1)) ltac:(lia)) as Hr.
  set (q := m / 2 ^ (n - 1)) in *. set (r := m mod 2 ^ (n - 1)) in *.
  rewrite Z.odd_spec in Hodd. destruct Hodd as [q' Hq'].
  assert (E : m mod 2 ^ n = 2 ^ (n - 1) + r).
  { symmetry. apply Z.mod_unique with (q := q'); [left; lia|]. rewrite Hp. nia. }
  lia.
Qed.

(** The mantissa after the first stage of a rounding and the rounding to
    nearest: the quotient, or one more when at least half a place was
    shifted out. *)
Lemma nearest_stage (m e : Z) :
  0 <= m -> e <= fexp64 (Zdigits2 m + e) ->
  let n := fexp64 (Zdigits2 m + e) - e in
  let mrs := fst (shr_fexp prec emax m e loc_Exact) in
  let m2 := round_nearest_even (shr_m mrs) (loc_of_shr_record mrs) in
  snd (shr_fexp prec emax m e loc_Exact) = fexp64 (Zdigits2 m + e) /\
  shr_m mrs = m / 2 ^ n /\
  (m2 = m / 2 ^ n \/
   (0 < n /\ m2 = m / 2 ^ n + 1 /\ 2 ^ (n - 1) <= m mod 2 ^ n)).
Proof.
  intros Hm He n mrs m2.
  destruct (shr_fexp_stage m e loc_Exact Hm He) as [He1 Hm1].
  fold n in Hm1. fold mrs in Hm1.
  split; [exact He1|]. split; [exact Hm1|].
  destruct (round_nearest_even_up mrs) as [E|[Hr E]]; fold m2 in E.
  - left. now rewrite E.
  - right. unfold mrs, shr_fexp, shr in Hr. fold (fexp64 (Zdigits2 m + e)) in Hr.
    fold n in Hr. destruct n as [|p|p] eqn:En; try lia.
    + cbn in Hr. discriminate.
    + cbn [fst] in Hr. rewrite iter_shr_r in Hr by (cbn; lia).
      cbn [shr_record_of_loc shr_m] in Hr.
      split; [lia|]. split; [now rewrite E, Hm1|].
      now apply odd_half.
Qed.
End NearestFacts.

Section RoundedValue.

Lemma Zdigits2_pow2 (d : Z) : 0 <= d -> Zdigits2 (2 ^ d) = d + 1.
Proof.
  intros Hd. apply Zdigits2_unique.
  - apply Z.pow_pos_nonneg; lia.
  - replace (d + 1 - 1) with d by lia. split; [lia|].
    apply Z.pow_lt_mono_r; lia.
Qed.

(** The second stage of a rounding changes the exponent, not the value. *)
Lemma second_stage (m1 m2 e1 : Z) :
  0 <= m1 -> -1074 <= e1 ->
  (0 < m1 -> fexp64 (Zdigits2 m1 + e1) = e1) ->
  (forall x, m1 <= x -> e1 <= fexp64 (Zdigits2 x + e1)) ->
  m1 <= m2 <= m1 + 1 ->
  let m3 := shr_m (fst (shr_fexp prec emax m2 e1 loc_Exact)) in
  let e2 := snd (shr_fexp prec emax m2 e1 loc_Exact) in
  e1 <= e2 /\ m3 * 2 ^ (e2 - e1) = m2 /\ 0 <= m3 /\
  (0 < m3 -> fexp64 (Zdigits2 m3 + e2) = e2).
Proof.
  intros Hm1 Hemin Hcanon Hreach Hm2 m3 e2.
  pose proof (Hreach m2 ltac:(lia)) as Hk.
  pose proof (shr_fexp_canonical m2 e1 loc_Exact ltac:(lia) Hk) as (_ & Hcanon2 & _).
  fold m3 in Hcanon2. fold e2 in Hcanon2.
  destruct (shr_fexp_stage m2 e1 loc_Exact ltac:(lia) Hk) as [He2 Hm3].
  fold e2 in He2. fold m3 in Hm3.
  set (k := fexp64 (Zdigits2 m2 + e1) - e1) in *.
  assert (Hk0 : 0 <= k) by (unfold k; lia).
  assert (Hkpow : 0 < 2 ^ k) by (apply Z.pow_pos_nonneg; lia).
  assert (Hm3pos : 0 <= m3) by (rewrite Hm3; apply Z.div_pos; lia).
  split; [lia|]. split; [|split; [exact Hm3pos | exact Hcanon2]].
  replace (e2 - e1) with k by (unfold k; lia).
  destruct (Z.eq_dec k 0) as [E0|Hne].
  { rewrite Hm3, E0, Z.pow_0_r, Z.div_1_r. lia. }
  assert (Hpos : 0 < m1).
  { destruct (Z.eq_dec m1 0) as [Ez|]; [|lia]. exfalso.
    assert (Hd : Zdigits2 m2 <= 1).
    { assert (Hc : m2 = 0 \/ m2 = 1) by lia.
      destruct Hc as [-> | ->]; cbn; lia. }
    unfold k in Hne, Hk0. rewrite fexp64_eq in Hne, Hk0. lia. }
  pose proof (Hcanon Hpos) as Hc. rewrite fexp64_eq in Hc.
  pose proof (Zdigits2_bounds m1 Hpos) as [Hlo Hhi].
  pose proof (Zdigits2_nonneg m1) as Hd1.
  assert (Hd1' : 0 < Zdigits2 m1) by (destruct m1; cbn in *; lia).
  assert (Hmono : Zdigits2 m1 <= Zdigits2 m2) by (apply Zdigits2_mono; lia).
  assert (Hle : m2 <= 2 ^ Zdigits2 m1) by lia.
  assert (Hd2 : Zdigits2 m2 <= Zdigits2 m1 + 1).
  { rewrite <- (Zdigits2_pow2 (Zdigits2 m1)) by lia. apply Zdigits2_mono. lia. }
  assert (Ek : k = 1) by (unfold k in *; rewrite fexp64_eq in *; lia).
  assert (Ed : Zdigits2 m2 = Zdigits2 m1 + 1)
    by (unfold k in *; rewrite fexp64_eq in *; lia).
  assert (Em : m2 = 2 ^ Zdigits2 m1).
  { destruct (Z.eq_dec m2 (2 ^ Zdigits2 m1)) as [|Hlt]; [assumption|].
    exfalso. assert (Zdigits2 m2 = Zdigits2 m1); [|lia].
    apply Zdigits2_unique; lia. }
  assert (Hp : 2 ^ Zdigits2 m1 = 2 ^ (Zdigits2 m1 - 1) * 2).
  { replace (Zdigits2 m1) with ((Zdigits2 m1 - 1) + 1) at 1 by lia.
    now rewrite Z.pow_add_r, Z.pow_1_r by lia. }
  rewrite Hm3, Ek, Em, Z.pow_1_r, Hp, Z.div_mul by lia. reflexivity.
Qed.

(** The value of a rounded float: the mantissa [m] at the exponent [e]
    is shifted by [n] places to the exponent of its last place, moved up
    by one when at least half a place was shifted out (and, on a tie, the
    quotient is odd), and written at an exponent that may be higher. *)
Lemma round_value (m e : Z) :
  0 <= m -> e <= fexp64 (Zdigits2 m + e) ->
  let e1 := fexp64 (Zdigits2 m + e) in
  let n := e1 - e in
  exists m2 m3 e2,
    (m2 = m / 2 ^ n \/
     (0 < n /\ m2 = m / 2 ^ n + 1 /\ 2 ^ (n - 1) <= m mod 2 ^ n)) /\
    e1 <= e2 /\ m3 * 2 ^ (e2 - e1) = m2 /\ 0 <= m3 /\
    (0 < m3 -> fexp64 (Zdigits2 m3 + e2) = e2) /\
    binary_round_aux prec emax false m e loc_Exact =
      match m3 with
      | 0 => S754_zero false
      | Z.pos p =>
          if e2 <=? emax - prec then S754_finite false p e2
          else S754_infinity false
      | Z.neg _ => S754_nan
      end.
Proof.
  intros Hm He e1 n.
  pose proof (nearest_stage m e Hm He) as (Hsnd & Hm1 & Hround).
  pose proof (shr_fexp_canonical m e loc_Exact Hm He) as (H1 & H2 & H3).
  unfold binary_round_aux.
  destruct (shr_fexp prec emax m e loc_Exact) as [mrs1 e1'].
  cbn [fst snd] in *. subst e1'. fold e1 in H2, H3 |- *. fold n in Hm1, Hround.
  set (m2 := round_nearest_even (shr_m mrs1) (loc_of_shr_record mrs1)) in *.
  pose proof (round_nearest_even_range (shr_m mrs1) (loc_of_shr_record mrs1)) as Hr.
  fold m2 in Hr.
  assert (Hemin : -1074 <= e1) by (unfold e1; rewrite fexp64_eq; lia).
  pose proof (second_stage (shr_m mrs1) m2 e1 H1 Hemin H2 H3 Hr) as (Ha & Hb & Hc & Hd).
  destruct (shr_fexp prec emax m2 e1 loc_Exact) as [mrs2 e2]. cbn [fst snd] in *.
  exists m2, (shr_m mrs2), e2. repeat split; try assumption.
Qed.
End RoundedValue.

(** ** Products of random numbers and counts *)

Section ProductFacts.

(** A positive integer of at most 53 binary digits, at an exponent in
    range, is a float. *)
Lemma normalize_representable (x e : Z) :
  0 < x -> Zdigits2 x <= 53 -> -1074 <= e ->
  fexp64 (Zdigits2 x + e) <= emax - prec ->
  let eu := fexp64 (Zdigits2 x + e) in
  eu <= e /\
  binary_normalize prec emax x e false =
    S754_finite false (Z.to_pos (x * 2 ^ (e - eu))) eu.
Proof.
  intros Hx Hd He Hmax eu.
  assert (Heu : eu <= e) by (unfold eu; rewrite fexp64_eq; lia).
  split; [exact Heu|].
  destruct x as [|p|p]; try lia. cbn [binary_normalize]. unfold binary_round.
  change (Z.pos (digits2_pos p)) with (Zdigits2 (Z.pos p)).
  fold (fexp64 (Zdigits2 (Z.pos p) + e)). fold eu.
  assert (Hpow : 0 < 2 ^ (e - eu)) by (apply Z.pow_pos_nonneg; lia).
  assert (Halign : exists mz, shl_align p e eu = (mz, eu) /\
                              Z.pos mz = Z.pos p * 2 ^ (e - eu)).
  { unfold shl_align. destruct (eu - e) as [|d|d] eqn:E; try lia.
    - exists p. replace (e - eu) with 0 by lia.
      rewrite Z.pow_0_r, Z.mul_1_r. split; [f_equal; lia | reflexivity].
    - exists (Pos.iter xO p d). split; [reflexivity|].
      rewrite iter_xO. f_equal. f_equal. lia. }
  destruct Halign as (mz & -> & Hmz).
  assert (Hdz : Zdigits2 (Z.pos mz) + eu = Zdigits2 (Z.pos p) + e).
  { rewrite Hmz, Zdigits2_shiftl by lia. lia. }
  assert (Hcz : fexp64 (Zdigits2 (Z.pos mz) + eu) = eu) by now rewrite Hdz.
  pose proof (round_value (Z.pos mz) eu ltac:(lia) ltac:(lia)) as Hvalue.
  cbv zeta in Hvalue. rewrite Hcz in Hvalue.
  destruct Hvalue as (m2 & m3 & e2 & Hround & He2 & Hm3 & Hm3pos & Hcanon & ->).
  rewrite Z.sub_diag, Z.pow_0_r, Z.div_1_r in Hround.
  assert (Em2 : m2 = Z.pos mz) by (destruct Hround as [|[? _]]; [assumption | lia]).
  rewrite Em2 in Hm3. clear Hround Em2.
  assert (Hp2 : 0 < 2 ^ (e2 - eu)) by (apply Z.pow_pos_nonneg; lia).
  destruct m3 as [|q|q]; try lia.
  assert (Ee : e2 = eu).
  { rewrite <- (Hcanon ltac:(lia)), <- Hcz. f_equal.
    rewrite <- Hm3, Zdigits2_shiftl by lia. lia. }
  rewrite Ee in Hm3 |- *. rewrite Z.sub_diag, Z.pow_0_r, Z.mul_1_r in Hm3.
  replace (eu <=? emax - prec) with true by (symmetry; now apply Z.leb_le).
  f_equal. rewrite <- Hmz, <- Hm3. reflexivity.
Qed.

(** A count below 2^53 as a float: a mantissa of 53 binary digits. *)
Lemma ofNat_float (max : nat) :
  (0 < max)%nat -> Z.of_nat max < 2 ^ 53 ->
  exists mM eM,
    ofNat max = S754_finite false mM eM /\ -52 <= eM <= 0 /\
    Z.pos mM = Z.of_nat max * 2 ^ (- eM) /\
    2 ^ 52 <= Z.pos mM < 2 ^ 53.
Proof.
  intros Hpos Hsafe. set (x := Z.of_nat max) in *.
  assert (Hx : 0 < x) by (unfold x; lia).
  pose proof (Zdigits2_bounds x Hx) as [Hlo Hhi].
  pose proof (Zdigits2_nonneg x) as Hnn.
  assert (Hd1 : 0 < Zdigits2 x) by (destruct x; cbn in *; lia).
  assert (Hd : Zdigits2 x <= 53).
  { destruct (Z.le_gt_cases (Zdigits2 x) 53) as [|Hgt]; [assumption|]. exfalso.
    assert (2 ^ 53 <= 2 ^ (Zdigits2 x - 1)) by (apply Z.pow_le_mono_r; lia). lia. }
  assert (He : fexp64 (Zdigits2 x + 0) = Zdigits2 x - 53)
    by (rewrite fexp64_eq; lia).
  destruct (normalize_representable x 0 Hx Hd ltac:(lia)) as [_ Hn].
  { rewrite He. unfold emax, prec. lia. }
  rewrite He in Hn. unfold ofNat. fold x. rewrite Hn.
  replace (0 - (Zdigits2 x - 53)) with (53 - Zdigits2 x) by lia.
  assert (Hp : 0 < 2 ^ (53 - Zdigits2 x)) by (apply Z.pow_pos_nonneg; lia).
  assert (H53 : 2 ^ 53 = 2 ^ Zdigits2 x * 2 ^ (53 - Zdigits2 x))
    by (rewrite <- Z.pow_add_r by lia; f_equal; lia).
  assert (H52 : 2 ^ 52 = 2 ^ (Zdigits2 x - 1) * 2 ^ (53 - Zdigits2 x))
    by (rewrite <- Z.pow_add_r by lia; f_equal; lia).
  eexists _, _. split; [reflexivity|]. split; [lia|].
  rewrite Z2Pos.id by nia.
  replace (- (Zdigits2 x - 53)) with (53 - Zdigits2 x) by lia.
  split; [reflexivity|]. rewrite H52, H53. nia.
Qed.

(** Inequalities between products, for the bounds below. *)
Lemma half_up_bound (m P h r q T M : Z) :
  m = P * q + r -> P = 2 * h -> h <= r -> m <= T - M -> h < M ->
  (q + 1) * P < T.
Proof. intros -> -> Hr HT HM. lia. Qed.

Lemma product_cancel (X K mu mM : Z) :
  X * K <= mu * mM -> mu < K -> 0 < mM -> 0 < K -> 0 <= mu -> X < mM.
Proof.
  intros H1 H2 H3 H4 H5.
  assert (H6 : mu * mM <= K * mM) by (apply Z.mul_le_mono_nonneg_r; lia).
  destruct (Z.lt_ge_cases X mM) as [|Hge]; [assumption|]. exfalso.
  assert (H7 : mM * K <= X * K) by (apply Z.mul_le_mono_nonneg_r; lia).
  assert (H8 : mu * mM < K * mM) by (apply Z.mul_lt_mono_pos_r; lia).
  lia.
Qed.

Lemma scaled_lt (x y s : Z) : 0 < s -> x * s < y * s -> x < y.
Proof. intros Hs H. now apply Z.mul_lt_mono_pos_r in H. Qed.

Lemma scaled_floor_lt (q p k w y : Z) :
  0 < w -> 0 <= q -> k * q <= p -> p * w < y * (k * w) -> 0 < k -> q < y.
Proof.
  intros Hw Hq Hqk H Hk.
  assert (Hkw : 0 < k * w) by (apply Z.mul_pos_pos; lia).
  apply (Z.mul_lt_mono_pos_l (k * w)); [assumption|].
  assert (H1 : k * q * w <= p * w) by (apply Z.mul_le_mono_nonneg_r; lia).
  lia.
Qed.

Lemma exponent_below (p Y Z' B x : Z) :
  0 < p -> 0 < Z' -> 0 < Y -> B * Z' <= Y -> p * Y < x * Z' -> x < B -> False.
Proof.
  intros Hp HZ HY HB H Hx.
  assert (H1 : 1 * Y <= p * Y) by (apply Z.mul_le_mono_nonneg_r; lia).
  assert (H2 : x * Z' < B * Z') by (apply Z.mul_lt_mono_pos_r; lia).
  lia.
Qed.

Lemma between_floor (q p k w B : Z) :
  0 < w -> 0 < k -> k * q <= p -> p < k * q + k ->
  (p * w < B * (k * w) -> q < B) /\ (B * (k * w) <= p * w -> B <= q).
Proof.
  intros Hw Hk Hlo Hhi. split; intros H.
  - assert (Hkw : 0 < k * w) by (apply Z.mul_pos_pos; lia).
    apply (Z.mul_lt_mono_pos_l (k * w)); [assumption|].
    assert (H1 : k * q * w <= p * w) by (apply Z.mul_le_mono_nonneg_r; lia).
    lia.
  - assert (H1 : p * w < (k * q + k) * w) by (apply Z.mul_lt_mono_pos_r; lia).
    assert (H2 : B * k * w < (q + 1) * k * w) by lia.
    assert (Hkw : 0 < k * w) by (apply Z.mul_pos_pos; lia).
    assert (H3 : B < q + 1).
    { apply (Z.mul_lt_mono_pos_r (k * w)); [assumption | lia]. }
    lia.
Qed.

(** The floor of a rounded value, against an integer: [V] is the value
    in units of [2^e]. *)
Lemma rounded_floor (m3 e2 e V B : Z) :
  0 <= m3 -> e < 0 -> e <= e2 ->
  m3 * 2 ^ (e2 - e) = V -> V < 2 ^ 53 * 2 ^ (- e) ->
  exists r,
    r = match m3 with
        | 0 => S754_zero false
        | Z.pos p =>
            if e2 <=? emax - prec then S754_finite false p e2
            else S754_infinity false
        | Z.neg _ => S754_nan
        end /\
    0 <= floor r /\
    (V < B * 2 ^ (- e) -> floor r < B) /\
    (B * 2 ^ (- e) <= V -> B <= floor r).
Proof.
  intros Hm3 He He2 HV Hsafe.
  assert (Hpe : 0 < 2 ^ (- e)) by (apply Z.pow_pos_nonneg; lia).
  eexists. split; [reflexivity|].
  destruct m3 as [|p|p]; [| |lia].
  { cbn [floor]. subst V. rewrite Z.mul_0_l. split; [lia|]. split; intros H.
    - destruct (Z.lt_ge_cases 0 B) as [|Hge]; [assumption|].
      assert (B * 2 ^ (- e) <= 0 * 2 ^ (- e))
        by (apply Z.mul_le_mono_nonneg_r; lia). lia.
    - destruct (Z.le_gt_cases B 0) as [|Hgt]; [assumption|].
      assert (1 * 2 ^ (- e) <= B * 2 ^ (- e))
        by (apply Z.mul_le_mono_nonneg_r; lia). lia. }
  assert (Hp2 : 0 < 2 ^ (e2 - e)) by (apply Z.pow_pos_nonneg; lia).
  assert (He253 : e2 < 53).
  { destruct (Z.lt_ge_cases e2 53) as [|Hge]; [assumption|]. exfalso.
    assert (H1 : 2 ^ (53 - e) <= 2 ^ (e2 - e)) by (apply Z.pow_le_mono_r; lia).
    assert (H2 : 2 ^ (53 - e) = 2 ^ 53 * 2 ^ (- e))
      by (rewrite <- Z.pow_add_r by lia; f_equal; lia).
    assert (H3 : 1 * 2 ^ (e2 - e) <= Z.pos p * 2 ^ (e2 - e))
      by (apply Z.mul_le_mono_nonneg_r; lia).
    lia. }
  replace (e2 <=? emax - prec) with true
    by (symmetry; apply Z.leb_le; unfold emax, prec; lia).
  cbn [floor cond_Zopp].
  destruct e2 as [|k|k].
  - rewrite Z.pow_0_r, Z.mul_1_r. replace (0 - e) with (- e) in HV by lia.
    subst V. split; [lia|]. split; intros H.
    + now apply Z.mul_lt_mono_pos_r in H.
    + now apply Z.mul_le_mono_pos_r in H.
  - assert (Hk : 0 < 2 ^ Z.pos k) by (apply Z.pow_pos_nonneg; lia).
    replace (Z.pos k - e) with (Z.pos k + - e) in HV by lia.
    rewrite Z.pow_add_r, Z.mul_assoc in HV by lia.
    subst V. split; [lia|]. split; intros H.
    + now apply Z.mul_lt_mono_pos_r in H.
    + now apply Z.mul_le_mono_pos_r in H.
  - assert (Hk : 0 < 2 ^ Z.pos k) by (apply Z.pow_pos_nonneg; lia).
    pose proof (Z.mul_div_le (Z.pos p) (2 ^ Z.pos k) Hk) as Hq.
    pose proof (Z.mul_succ_div_gt (Z.pos p) (2 ^ Z.pos k) Hk) as Hq'.
    assert (Hsplit : 2 ^ (- e) = 2 ^ Z.pos k * 2 ^ (Z.neg k - e))
      by (rewrite <- Z.pow_add_r by lia; f_equal; lia).
    assert (Hq0 : 0 <= Z.pos p / 2 ^ Z.pos k) by (apply Z.div_pos; lia).
    assert (Hp3 : 0 < 2 ^ (Z.neg k - e)) by (apply Z.pow_pos_nonneg; lia).
    split; [exact Hq0|]. rewrite Hsplit. subst V.
    apply between_floor; lia.
Qed.

(** The product of a non-zero number of the unit interval and a count, in
    units of [2^e]: the exact product [m] and what the rounding makes of
    it. *)
Lemma product_rounded (mu mM : positive) (eu eM : Z) :
  bounded prec emax mu eu = true -> Z.pos mu < 2 ^ (- eu) ->
  -52 <= eM <= 0 -> 2 ^ 52 <= Z.pos mM < 2 ^ 53 ->
  let m := Z.pos mu * Z.pos mM in
  let e := eu + eM in
  exists m3 e2 V n,
    SFmul prec emax (S754_finite false mu eu) (S754_finite false mM eM) =
      match m3 with
      | 0 => S754_zero false
      | Z.pos p =>
          if e2 <=? emax - prec then S754_finite false p e2
          else S754_infinity false
      | Z.neg _ => S754_nan
      end /\
    0 <= m3 /\ eu < 0 /\ e <= e2 /\ m3 * 2 ^ (e2 - e) = V /\
    0 <= n <= - e /\
    (forall X, X * 2 ^ n <= m -> X * 2 ^ n <= V) /\
    (V <= m \/ (0 < n /\ V <= m + 2 ^ (n - 1) /\ 2 ^ (n - 1) < Z.pos mM)) /\
    m <= Z.pos mM * 2 ^ (- eu) - Z.pos mM.
Proof.
  intros Hb Hlt HeM HM m e. cbn [SFmul xorb].
  destruct (bounded_canonical mu eu Hb) as [Hcu _].
  pose proof (Zdigits2_bounds (Z.pos mu) ltac:(lia)) as [Hulo Huhi].
  assert (Hdu1 : 0 < Zdigits2 (Z.pos mu)) by (cbn; lia).
  assert (Hdu : Zdigits2 (Z.pos mu) <= 53) by (rewrite fexp64_eq in Hcu; lia).
  assert (Heu : eu < 0).
  { destruct (Z.lt_ge_cases eu 0) as [|Hge]; [assumption|]. exfalso.
    destruct (Z.eq_dec eu 0) as [->|]; [cbn in Hlt; lia|].
    rewrite Z.pow_neg_r in Hlt by lia. lia. }
  assert (Hemin : -1074 <= eu) by (rewrite <- Hcu, fexp64_eq; lia).
  change (Z.pos (mu * mM)) with m. fold e.
  assert (Hmpos : 0 < m) by (unfold m; lia).
  assert (Hpa : 0 < 2 ^ (- eu)) by (apply Z.pow_pos_nonneg; lia).
  assert (Hp51 : 2 ^ (Zdigits2 (Z.pos mu) + 51) = 2 ^ (Zdigits2 (Z.pos mu) - 1) * 2 ^ 52)
    by (rewrite <- Z.pow_add_r by lia; f_equal; lia).
  assert (Hmlo : 2 ^ (Zdigits2 (Z.pos mu) + 51) <= m).
  { rewrite Hp51. unfold m.
    assert (0 <= 2 ^ (Zdigits2 (Z.pos mu) - 1)) by (apply Z.pow_nonneg; lia).
    apply Z.mul_le_mono_nonneg; lia. }
  assert (Hdm : Zdigits2 (Z.pos mu) + 52 <= Zdigits2 m).
  { pose proof (Zdigits2_pow2 (Zdigits2 (Z.pos mu) + 51) ltac:(lia)) as Hd2.
    pose proof (Zdigits2_mono (2 ^ (Zdigits2 (Z.pos mu) + 51)) m) as Hmono.
    assert (0 <= 2 ^ (Zdigits2 (Z.pos mu) + 51)) by (apply Z.pow_nonneg; lia).
    lia. }
  pose proof (Zdigits2_bounds m Hmpos) as [Hmlo' Hmhi'].
  assert (HmT : m <= Z.pos mM * 2 ^ (- eu) - Z.pos mM).
  { assert (H1 : Z.pos mu * Z.pos mM <= (2 ^ (- eu) - 1) * Z.pos mM)
      by (apply Z.mul_le_mono_nonneg_r; lia).
    unfold m. lia. }
  assert (Hdhi : Zdigits2 m + e <= 53).
  { destruct (Z.le_gt_cases (Zdigits2 m + e) 53) as [|Hgt]; [assumption|]. exfalso.
    assert (H1 : 2 ^ (53 - eu) <= 2 ^ (Zdigits2 m - 1))
      by (apply Z.pow_le_mono_r; unfold e in Hgt; lia).
    assert (H2 : 2 ^ (53 - eu) = 2 ^ 53 * 2 ^ (- eu))
      by (rewrite <- Z.pow_add_r by lia; f_equal; lia).
    assert (H3 : Z.pos mM * 2 ^ (- eu) < 2 ^ 53 * 2 ^ (- eu))
      by (apply Z.mul_lt_mono_pos_r; lia).
    lia. }
  assert (He : e <= fexp64 (Zdigits2 m + e)) by (rewrite fexp64_eq; lia).
  pose proof (round_value m e ltac:(lia) He) as Hvalue.
  cbv zeta in Hvalue.
  set (e1 := fexp64 (Zdigits2 m + e)) in *. set (n := e1 - e) in *.
  destruct Hvalue as (m2 & m3 & e2 & Hround & He2 & Hm3 & Hm3pos & _ & ->).
  assert (Hn : 0 <= n) by (unfold n; lia).
  assert (He1 : e1 <= 0) by (unfold e1; rewrite fexp64_eq; lia).
  assert (Hpn : 0 < 2 ^ n) by (apply Z.pow_pos_nonneg; lia).
  exists m3, e2, (m2 * 2 ^ n), n.
  split; [reflexivity|]. split; [exact Hm3pos|].
  split; [exact Heu|]. split; [lia|]. split.
  { replace (e2 - e) with ((e2 - e1) + n) by (unfold n; lia).
    rewrite Z.pow_add_r by lia. now rewrite Z.mul_assoc, Hm3. }
  split; [unfold n; lia|].
  pose proof (Z.mul_div_le m (2 ^ n) Hpn) as Hfl.
  assert (Hlow : m / 2 ^ n <= m2) by (destruct Hround as [->|(_ & -> & _)]; lia).
  split.
  { intros X HX.
    assert (HXq : X <= m / 2 ^ n) by (apply Z.div_le_lower_bound; lia).
    apply Z.mul_le_mono_nonneg_r; lia. }
  split; [|exact HmT].
  destruct Hround as [->|(Hn0 & -> & Hhalf)]; [left; lia|].
  right. split; [exact Hn0|].
  assert (Hpn2 : 2 ^ n = 2 * 2 ^ (n - 1)).
  { replace n with (1 + (n - 1)) at 1 by lia.
    now rewrite Z.pow_add_r, Z.pow_1_r by lia. }
  pose proof (Z.div_mod m (2 ^ n) ltac:(lia)) as Hdiv.
  split; [lia|].
  unfold n, e1. rewrite fexp64_eq.
  destruct (Z.max_spec (Zdigits2 m + e - 53) (-1074)) as [[Hcase ->]|[Hcase ->]].
  - assert (2 ^ (-1074 - e - 1) <= 2 ^ 51)
      by (apply Z.pow_le_mono_r; unfold e; lia). lia.
  - replace (Zdigits2 m + e - 53 - e - 1) with (Zdigits2 m - 54) by lia.
    assert (Hd54 : 54 <= Zdigits2 m)
      by (unfold n, e1 in Hn0; rewrite fexp64_eq in Hn0; lia).
    assert (H1 : 2 ^ (Zdigits2 m - 1) = 2 ^ (Zdigits2 m - 54) * 2 ^ 53)
      by (rewrite <- Z.pow_add_r by lia; f_equal; lia).
    assert (H2 : 2 ^ Zdigits2 (Z.pos mu) <= 2 ^ 53)
      by (apply Z.pow_le_mono_r; lia).
    apply (product_cancel _ (2 ^ 53) (Z.pos mu) (Z.pos mM)); unfold m in *; lia.
Qed.

(** The product of a number of the unit interval and a count below 2^53,
    rounded to the nearest float, is below the count. *)
Lemma floorScaled_below (u : number) (max : nat) :
  inUnitInterval u -> (0 < max)%nat -> Z.of_nat max < 2 ^ 53 ->
  (floorScaled u max < max)%nat.
Proof.
  intros Hu Hpos Hsafe. unfold floorScaled, mul.
  destruct (ofNat_float max Hpos Hsafe) as (mM & eM & -> & HeM & HmM & HM).
  destruct Hu as [->|(mu & eu & -> & Hb & Hlt)]; [cbn; lia|].
  destruct (product_rounded mu mM eu eM Hb Hlt HeM HM)
    as (m3 & e2 & V & n & -> & Hm3 & Heu & He2 & HV & Hn & _ & Hup & HmT).
  set (m := Z.pos mu * Z.pos mM) in *. set (e := eu + eM) in *.
  assert (He : e < 0) by (unfold e; lia).
  assert (Hpe : 0 < 2 ^ (- e)) by (apply Z.pow_pos_nonneg; lia).
  assert (HT : Z.pos mM * 2 ^ (- eu) = Z.of_nat max * 2 ^ (- e)).
  { rewrite HmM. unfold e. replace (- (eu + eM)) with (- eM + - eu) by lia.
    rewrite Z.pow_add_r by lia. ring. }
  assert (HVT : V < Z.of_nat max * 2 ^ (- e)).
  { rewrite <- HT. destruct Hup as [|(_ & H1 & H2)]; lia. }
  assert (Hsafe' : V < 2 ^ 53 * 2 ^ (- e)).
  { assert (Z.of_nat max * 2 ^ (- e) < 2 ^ 53 * 2 ^ (- e))
      by (apply Z.mul_lt_mono_pos_r; lia). lia. }
  destruct (rounded_floor m3 e2 e V (Z.of_nat max) Hm3 He He2 HV Hsafe')
    as (r & <- & Hr0 & Hlt' & _).
  specialize (Hlt' HVT). lia.
Qed.

(** Every index below a count of at most 2^52 is the floor of the product
    of the count and some number of the unit interval. *)
Lemma indexSource_spec (max i : nat) :
  (i < max)%nat -> Z.of_nat max <= 2 ^ 52 ->
  inUnitInterval (indexSource max i) /\ floorScaled (indexSource max i) max = i.
Proof.
  intros Hi Hmax. unfold indexSource, floorScaled, mul.
  set (x := Z.of_nat max). set (j := Z.of_nat i).
  assert (Hx : 0 < x) by (unfold x; lia).
  assert (Hj : 0 <= j < x) by (unfold j, x; lia).
  set (k := (j * 2 ^ 53 + x - 1) / x).
  pose proof (Z.mul_div_le (j * 2 ^ 53 + x - 1) x Hx) as Hklo. fold k in Hklo.
  pose proof (Z.mul_succ_div_gt (j * 2 ^ 53 + x - 1) x Hx) as Hkhi. fold k in Hkhi.
  assert (H53 : 0 < 2 ^ 53) by lia.
  assert (Hk0 : 0 <= k) by (unfold k; apply Z.div_pos; lia).
  assert (Hjx : j * 2 ^ 53 <= (x - 1) * 2 ^ 53)
    by (apply Z.mul_le_mono_nonneg_r; lia).
  assert (Hk53 : k < 2 ^ 53).
  { apply (Z.mul_lt_mono_pos_l x); lia. }
  destruct (ofNat_float max ltac:(lia) ltac:(fold x; lia))
    as (mM & eM & -> & HeM & HmM & HM).
  fold x in HmM.
  destruct (Z.eq_dec k 0) as [Ek|Hne].
  { rewrite Ek. cbn [binary_normalize SFmul xorb floor]. split; [now left|].
    assert (j = 0) by lia. unfold j in *. lia. }
  assert (Hkpos : 0 < k) by lia.
  pose proof (Zdigits2_bounds k Hkpos) as [Hdlo Hdhi].
  assert (Hd1 : 0 < Zdigits2 k) by (destruct k; cbn in *; lia).
  assert (Hd : Zdigits2 k <= 53).
  { destruct (Z.le_gt_cases (Zdigits2 k) 53) as [|Hgt]; [assumption|]. exfalso.
    assert (2 ^ 53 <= 2 ^ (Zdigits2 k - 1)) by (apply Z.pow_le_mono_r; lia). lia. }
  assert (Hfe : fexp64 (Zdigits2 k + -53) = Zdigits2 k - 106)
    by (rewrite fexp64_eq; lia).
  destruct (normalize_representable k (-53) Hkpos Hd ltac:(lia)) as [_ Hn].
  { rewrite Hfe. unfold emax, prec. lia. }
  rewrite Hfe in Hn. rewrite Hn.
  replace (-53 - (Zdigits2 k - 106)) with (53 - Zdigits2 k) by lia.
  set (eu := Zdigits2 k - 106).
  assert (Hps : 0 < 2 ^ (53 - Zdigits2 k)) by (apply Z.pow_pos_nonneg; lia).
  assert (Hkmu : 0 < k * 2 ^ (53 - Zdigits2 k)) by (apply Z.mul_pos_pos; lia).
  set (mu := Z.to_pos (k * 2 ^ (53 - Zdigits2 k))).
  assert (Emu : Z.pos mu = k * 2 ^ (53 - Zdigits2 k))
    by (unfold mu; rewrite Z2Pos.id; lia).
  assert (Hdmu : Zdigits2 (Z.pos mu) = 53)
    by (rewrite Emu, Zdigits2_shiftl by lia; lia).
  assert (Hb : bounded prec emax mu eu = true).
  { unfold bounded, canonical_mantissa.
    change (Z.pos (digits2_pos mu)) with (Zdigits2 (Z.pos mu)).
    fold (fexp64 (Zdigits2 (Z.pos mu) + eu)).
    rewrite Hdmu, fexp64_eq. unfold eu, emax, prec.
    apply andb_true_intro. split; [apply Z.eqb_eq | apply Z.leb_le]; lia. }
  assert (Hlt : Z.pos mu < 2 ^ (- eu)).
  { pose proof (Zdigits2_bounds (Z.pos mu) ltac:(lia)) as [_ Hhi].
    rewrite Hdmu in Hhi.
    assert (2 ^ 53 <= 2 ^ (- eu)) by (apply Z.pow_le_mono_r; unfold eu; lia).
    lia. }
  split; [right; exists mu, eu; now repeat split|].
  destruct (product_rounded mu mM eu eM Hb Hlt HeM HM)
    as (m3 & e2 & V & n & -> & Hm3 & Heu & He2 & HV & Hn' & Hlow & Hup & _).
  set (e := eu + eM) in *.
  assert (He : e < 0) by (unfold e; lia).
  set (P := 2 ^ (- e - 53)).
  assert (HP : 0 < P) by (apply Z.pow_pos_nonneg; unfold e, eu; lia).
  assert (Hpe : 2 ^ (- e) = 2 ^ 53 * P).
  { unfold P. rewrite <- Z.pow_add_r by (unfold e, eu; lia). f_equal. lia. }
  assert (Em : Z.pos mu * Z.pos mM = k * x * P).
  { rewrite Emu, HmM. unfold P.
    replace (- e - 53) with ((53 - Zdigits2 k) + - eM) by (unfold e, eu; lia).
    rewrite Z.pow_add_r by lia. ring. }
  rewrite Em in Hlow, Hup.
  assert (Hpn : 0 < 2 ^ n) by (apply Z.pow_pos_nonneg; lia).
  assert (Hsplit : 2 ^ (- e) = 2 ^ (- e - n) * 2 ^ n)
    by (rewrite <- Z.pow_add_r by lia; f_equal; lia).
  assert (HkxP : j * 2 ^ 53 * P <= k * x * P)
    by (apply Z.mul_le_mono_nonneg_r; lia).
  assert (HVlo : j * 2 ^ (- e) <= V).
  { rewrite Hsplit, Z.mul_assoc. apply Hlow.
    rewrite <- Z.mul_assoc, <- Hsplit, Hpe. lia. }
  assert (HkxP' : k * x * P <= (j * 2 ^ 53 + x - 1) * P)
    by (apply Z.mul_le_mono_nonneg_r; lia).
  assert (HVhi : V < (j + 1) * 2 ^ (- e)).
  { rewrite Hpe.
    assert (Hh : V <= k * x * P + 2 ^ 52 * P).
    { destruct Hup as [H|(Hn0 & H & _)]; [lia|].
      assert (2 ^ (n - 1) <= 2 ^ (- e - 1)) by (apply Z.pow_le_mono_r; lia).
      assert (2 ^ (- e - 1) = 2 ^ 52 * P).
      { unfold P. rewrite <- Z.pow_add_r by (unfold e, eu; lia). f_equal. lia. }
      lia. }
    assert (Hx52 : (x - 1 + 2 ^ 52) * P < 2 ^ 53 * P)
      by (apply Z.mul_lt_mono_pos_r; lia).
    lia. }
  assert (Hsafe : V < 2 ^ 53 * 2 ^ (- e)).
  { assert (Hpe' : 0 < 2 ^ (- e)) by (apply Z.pow_pos_nonneg; lia).
    assert ((j + 1) * 2 ^ (- e) <= 2 ^ 53 * 2 ^ (- e))
      by (apply Z.mul_le_mono_nonneg_r; lia). lia. }
  destruct (rounded_floor m3 e2 e V j Hm3 He He2 HV Hsafe)
    as (r & Er & Hr0 & _ & Hge).
  destruct (rounded_floor m3 e2 e V (j + 1) Hm3 He He2 HV Hsafe)
    as (r' & Er' & _ & Hlt' & _).
  assert (Err : r' = r) by congruence. rewrite Err in Hlt'. rewrite <- Er.
  specialize (Hge HVlo). specialize (Hlt' HVhi). unfold j in *. lia.
Qed.
End ProductFacts.

Local Open Scope nat_scope.
Local Open Scope list_scope.
Local Open Scope task_scope.
Local Open Scope char_scope.
Local Open Scope string_scope.

(** ** C9: rejection sampling *)

Section SamplingFacts.
Variable random : Random.
Variable max : nat.

Lemma includes_In (l : list nat) (x : nat) :
  InventoryPage.includes l x = true <-> In x l.
Proof.
  unfold InventoryPage.includes. rewrite existsb_exists. split.
  - intros (y & Hy & E). apply Nat.eqb_eq in E. now subst.
  - intros H. exists x. split; [exact H | apply Nat.eqb_refl].
Qed.

Lemma collect_extends (l : list nat) (x : nat) :
  exists t, collect l x = (l ++ t)%list /\ List.length t <= 1.
Proof.
  unfold collect. destruct (InventoryPage.includes l x).
  - exists []. rewrite app_nil_r. split; [reflexivity | simpl; lia].
  - exists [x]. split; [reflexivity | simpl; lia].
Qed.

Lemma collect_NoDup (l : list nat) (x : nat) : NoDup l -> NoDup (collect l x).
Proof.
  intros H. unfold collect.
  destruct (InventoryPage.includes l x) eqn:E; [exact H|].
  apply NoDup_app; [exact H | repeat constructor; intros [] |].
  intros y Hy [Hx|[]]. subst y.
  apply includes_In in Hy. congruence.
Qed.

Lemma collect_below (l : list nat) (x : nat) :
  Forall (fun i => i < max) l -> x < max -> Forall (fun i => i < max) (collect l x).
Proof.
  intros H Hx. unfold collect. destruct (InventoryPage.includes l x); [exact H|].
  apply Forall_app. split; [exact H | now constructor].
Qed.

Lemma collected_extends (ds l : list nat) :
  exists t, fold_left collect ds l = (l ++ t)%list.
Proof.
  revert l. induction ds as [|d ds IH]; intros l; simpl.
  - exists []. now rewrite app_nil_r.
  - destruct (collect_extends l d) as (t & -> & _).
    destruct (IH (l ++ t)%list) as (t' & ->).
    exists (t ++ t')%list. now rewrite app_assoc.
Qed.

Lemma collected_NoDup (ds l : list nat) :
  NoDup l -> NoDup (fold_left collect ds l).
Proof.
  revert l. induction ds as [|d ds IH]; intros l H; simpl; [exact H|].
  apply IH. now apply collect_NoDup.
Qed.

Lemma collected_below (ds l : list nat) :
  Forall (fun i => i < max) l -> Forall (fun i => i < max) ds ->
  Forall (fun i => i < max) (fold_left collect ds l).
Proof.
  revert l. induction ds as [|d ds IH]; intros l H Hds; simpl; [exact H|].
  inversion Hds; subst. apply IH; [now apply collect_below | assumption].
Qed.

(** Distinct indices below [max] are at most [max]. *)
Lemma distinct_below_bound (l : list nat) :
  NoDup l -> Forall (fun i => i < max) l -> List.length l <= max.
Proof.
  intros Hnd Hlt. rewrite <- (length_seq max 0).
  apply NoDup_incl_length; [exact Hnd|].
  intros x Hx. apply in_seq. rewrite Forall_forall in Hlt.
  specialize (Hlt x Hx). lia.
Qed.

Lemma draws_S (drawn n : nat) :
  draws random max drawn (S n) =
    floorScaled (random drawn) max :: draws random max (S drawn) n.
Proof. reflexivity. Qed.

(** The loop returns as soon as [count] indices are collected. *)
Lemma generateLoop_returns (count : nat) : forall fuel drawn indices,
  List.length indices <= count ->
  count <= List.length (fold_left collect (draws random max drawn fuel) indices) ->
  InventoryPage.generateLoop fuel random drawn max count indices =
    Some (firstn count (fold_left collect (draws random max drawn fuel) indices)).
Proof.
  induction fuel as [|fuel IH]; intros drawn indices Hle Hge.
  - simpl in *. assert (E : List.length indices = count) by lia.
    replace (List.length indices <? count)%nat with false
      by (symmetry; apply Nat.ltb_ge; lia).
    now rewrite <- E, firstn_all.
  - rewrite draws_S in *. cbn [fold_left] in *.
    cbn [InventoryPage.generateLoop].
    fold (collect indices (floorScaled (random drawn) max)).
    destruct (Nat.ltb_spec (List.length indices) count) as [Hlt|Hnlt].
    + apply IH.
      * destruct (collect_extends indices (floorScaled (random drawn) max))
          as (t & -> & Ht).
        rewrite length_app. lia.
      * exact Hge.
    + assert (E : List.length indices = count) by lia.
      destruct (collected_extends
                  (draws random max (S drawn) fuel)
                  (collect indices (floorScaled (random drawn) max))) as (t & ->).
      destruct (collect_extends indices (floorScaled (random drawn) max))
        as (t' & -> & _).
      rewrite <- app_assoc, <- E, firstn_app, firstn_all, Nat.sub_diag.
      simpl. now rewrite app_nil_r.
Qed.

(** The loop is still running as long as fewer than [count] indices are
    collected. *)
Lemma generateLoop_running (count : nat) : forall fuel drawn indices,
  List.length (fold_left collect (draws random max drawn fuel) indices) < count ->
  InventoryPage.generateLoop fuel random drawn max count indices = None.
Proof.
  induction fuel as [|fuel IH]; intros drawn indices Hlt.
  - simpl in *. apply Nat.ltb_lt in Hlt. now rewrite Hlt.
  - rewrite draws_S in *. cbn [fold_left] in *.
    cbn [InventoryPage.generateLoop].
    fold (collect indices (floorScaled (random drawn) max)).
    assert (Hlen : List.length indices < count).
    { destruct (collected_extends
                  (draws random max (S drawn) fuel)
                  (collect indices (floorScaled (random drawn) max))) as (t & E).
      destruct (collect_extends indices (floorScaled (random drawn) max))
        as (t' & E' & _).
      rewrite E, E', !length_app in Hlt. lia. }
    apply Nat.ltb_lt in Hlen. rewrite Hlen.
    now apply IH.
Qed.
End SamplingFacts.

(** The indices drawn are below the count. *)
Section RangeFacts.
Variable random : Random.
Variable max : nat.
Hypothesis random_unit : forall d, inUnitInterval (random d).
Hypothesis max_safe : (Z.of_nat max < 2 ^ 53)%Z.

Lemma floorScaled_range (d : nat) : 0 < max -> floorScaled (random d) max < max.
Proof.
  intros Hmax. apply floorScaled_below; [apply random_unit | lia | exact max_safe].
Qed.

Lemma draws_below (drawn n : nat) :
  0 < max -> Forall (fun i => i < max) (draws random max drawn n).
Proof.
  intros Hmax. unfold draws. apply Forall_map, Forall_forall.
  intros d _. now apply floorScaled_range.
Qed.
End RangeFacts.

Section CountingFacts.
Variable max : nat.

Lemma length_indexSequences (n : nat) :
  List.length (indexSequences max n) = max ^ n.
Proof.
  induction n as [|n IH]; [reflexivity|].
  cbn [indexSequences Nat.pow].
  assert (H : forall l, List.length
             (flat_map (fun i => map (cons i) (indexSequences max n)) l)
             = List.length l * max ^ n).
  { induction l as [|i l IHl]; [reflexivity|].
    cbn [flat_map]. rewrite length_app, length_map, IH, IHl. simpl. lia. }
  now rewrite H, length_seq.
Qed.

Lemma length_others (v : nat) : forall start,
  start <= v < start + max ->
  List.length (filter (fun i => negb (i =? v)%nat) (seq start max)) = max - 1.
Proof.
  induction max as [|m IH]; intros start H; [lia|].
  cbn [seq filter].
  destruct (Nat.eqb_spec start v) as [->|Hne]; cbn [negb].
  - assert (Hall : forall k s, v < s ->
              filter (fun i => negb (i =? v)%nat) (seq s k) = seq s k).
    { induction k as [|k IHk]; intros s Hs; [reflexivity|].
      cbn [seq filter]. destruct (Nat.eqb_spec s v); [lia|].
      cbn [negb]. now rewrite IHk by lia. }
    rewrite Hall by lia. rewrite length_seq. lia.
  - cbn [List.length]. rewrite IH by lia. lia.
Qed.
End CountingFacts.

Lemma length_avoiding (max v n : nat) :
  v < max ->
  List.length (filter (avoids v) (indexSequences max n)) = (max - 1) ^ n.
Proof.
  intros Hv. induction n as [|n IH]; [reflexivity|].
  cbn [indexSequences Nat.pow].
  assert (H : forall l,
            List.length (filter (avoids v)
               (flat_map (fun i => map (cons i) (indexSequences max n)) l))
            = List.length (filter (fun i => negb (i =? v)%nat) l) * (max - 1) ^ n).
  { induction l as [|i l IHl]; [reflexivity|].
    cbn [flat_map filter]. rewrite filter_app, length_app, IHl.
    assert (Hi : List.length (filter (avoids v) (map (cons i) (indexSequences max n)))
                 = if negb (i =? v)%nat then (max - 1) ^ n else 0).
    { rewrite <- IH. generalize (indexSequences max n) as L.
      induction L as [|x L IHL]; [now destruct (negb (i =? v)%nat)|].
      cbn [map filter avoids forallb]. fold (avoids v x).
      destruct (negb (i =? v)%nat); cbn [andb].
      - destruct (avoids v x); cbn [List.length]; now rewrite IHL.
      - exact IHL. }
    rewrite Hi. destruct (negb (i =? v)%nat); cbn [List.length]; lia. }
  rewrite H, (length_others max v 0) by lia. reflexivity.
Qed.

Lemma collected_contains (ds : list nat) : forall l x,
  In x l \/ In x ds -> In x (fold_left collect ds l).
Proof.
  induction ds as [|d ds IH]; intros l x H; cbn [fold_left].
  - destruct H as [H|[]]. exact H.
  - apply IH. destruct H as [H|[H|H]].
    + left. unfold collect. destruct (InventoryPage.includes l d); [exact H|].
      apply in_or_app. now left.
    + left. subst d. unfold collect.
      destruct (InventoryPage.includes l x) eqn:E.
      * now apply includes_In.
      * apply in_or_app. right. now left.
    + now right.
Qed.

Lemma running_avoids (max count : nat) (l : list nat) :
  count <= max -> stillRunning count l = true ->
  exists v, In v (seq 0 max) /\ avoids v l = true.
Proof.
  intros Hcount Hrun. unfold stillRunning in Hrun. apply Nat.ltb_lt in Hrun.
  destruct (existsb (fun v => avoids v l) (seq 0 max)) eqn:E.
  - apply existsb_exists in E. exact E.
  - exfalso.
    assert (Hincl : incl (seq 0 max) (fold_left collect l [])).
    { intros v Hv. apply collected_contains. right.
      destruct (in_dec Nat.eq_dec v l) as [Hin|Hout]; [exact Hin|]. exfalso.
      assert (Ha : avoids v l = true).
      { unfold avoids. apply forallb_forall. intros i Hi.
        destruct (Nat.eqb_spec i v); [subst; contradiction | reflexivity]. }
      assert (existsb (fun v => avoids v l) (seq 0 max) = true)
        by (apply existsb_exists; now exists v).
      congruence. }
    pose proof (NoDup_incl_length (seq_NoDup max 0) Hincl) as Hlen.
    rewrite length_seq in Hlen. lia.
Qed.

Lemma tally_cons {A B} (g : B -> A -> bool) (V : list B) (x : A) (L : list A) :
  tally g V (x :: L) =
    List.length (filter (fun v => g v x) V) + tally g V L.
Proof.
  induction V as [|v V IH]; [reflexivity|].
  unfold tally in *. cbn [fold_right]. rewrite IH.
  cbn [filter]. destruct (g v x); cbn [List.length]; lia.
Qed.

Lemma union_bound {A B} (f : A -> bool) (g : B -> A -> bool) (V : list B) (L : list A) :
  (forall x, In x L -> f x = true -> exists v, In v V /\ g v x = true) ->
  List.length (filter f L) <= tally g V L.
Proof.
  induction L as [|x L IH]; intros H.
  - simpl. lia.
  - rewrite tally_cons.
    assert (IH' : List.length (filter f L) <= tally g V L).
    { apply IH. intros y Hy. apply H. now right. }
    cbn [filter]. destruct (f x) eqn:Ef; cbn [List.length]; [|lia].
    destruct (H x (or_introl eq_refl) Ef) as (v & Hv & Hg).
    assert (Hin : In v (filter (fun v => g v x) V))
      by (apply filter_In; now split).
    destruct (filter (fun v => g v x) V); [destruct Hin | cbn [List.length]; lia].
Qed.

Lemma running_bound (max count n : nat) :
  count <= max ->
  List.length (filter (stillRunning count) (indexSequences max n)) <=
    max * (max - 1) ^ n.
Proof.
  intros Hcount.
  eapply Nat.le_trans.
  - apply (union_bound (stillRunning count) avoids (seq 0 max)).
    intros l _ Hl. now apply (running_avoids max count).
  - assert (H : forall V, Forall (fun v => v < max) V ->
              tally avoids V (indexSequences max n)
              = List.length V * (max - 1) ^ n).
    { induction 1 as [|v V Hv _ IH]; [reflexivity|].
      unfold tally in *. cbn [fold_right List.length].
      rewrite IH, length_avoiding by assumption. lia. }
    rewrite H, length_seq; [lia|].
    apply Forall_forall. intros v Hv. apply in_seq in Hv. lia.
Qed.

Lemma bernoulli (a n : nat) : a ^ n * (a + n) <= a * (a + 1) ^ n.
Proof.
  induction n as [|n IH]; [simpl; lia|].
  cbn [Nat.pow]. set (X := a ^ n) in *. set (Y := (a + 1) ^ n) in *.
  assert (E1 : (a + 1) * (X * (a + n)) = a * X * (a + S n) + n * X) by ring.
  assert (E2 : (a + 1) * (a * Y) = a * ((a + 1) * Y)) by ring.
  assert (H : (a + 1) * (X * (a + n)) <= (a + 1) * (a * Y))
    by (apply Nat.mul_le_mono_l; exact IH).
  lia.
Qed.

(** With ever more draws the share of the sequences on which the loop is
    still running falls below every bound. *)
Lemma vanishing (max k : nat) :
  0 < max -> 0 < k ->
  k * (max * (max - 1) ^ (k * max * max)) <= max ^ (k * max * max).
Proof.
  intros Hmax Hk. destruct max as [|[|b]]; [lia | |].
  - replace (k * 1 * 1) with (S (k - 1)) by lia. simpl. lia.
  - set (n := k * S (S b) * S (S b)).
    replace (S (S b) - 1) with (S b) by lia.
    replace (S (S b)) with (S b + 1) at 1 2 by lia.
    pose proof (bernoulli (S b) n) as HB.
    assert (Hn : k * (S b + 1) * S b <= S b + n).
    { unfold n. replace (S (S b)) with (S b + 1) by lia.
      apply Nat.le_trans with (k * (S b + 1) * (S b + 1)); [|lia].
      apply Nat.mul_le_mono_l. lia. }
    set (X := S b ^ n) in *. set (Y := (S b + 1) ^ n) in *.
    assert (H1 : k * (S b + 1) * S b * X <= (S b + n) * X)
      by (apply Nat.mul_le_mono_r; exact Hn).
    assert (H2 : S b * (k * ((S b + 1) * X)) <= S b * Y).
    { replace (S b * (k * ((S b + 1) * X))) with (k * (S b + 1) * S b * X) by ring.
      replace ((S b + n) * X) with (X * (S b + n)) in H1 by ring. lia. }
    apply Nat.mul_le_mono_pos_l in H2; lia.
Qed.

(** The loop is still running after [fuel] turns exactly when the draws made
    so far show fewer than [count] distinct indices. *)
Lemma generate_running_iff (random : Random) (max count fuel : nat) :
  InventoryPage.generateRandomUniqueIndices fuel random max count = None <->
  stillRunning count (draws random max 0 fuel) = true.
Proof.
  unfold InventoryPage.generateRandomUniqueIndices, stillRunning. split.
  - intros H. apply Nat.ltb_lt.
    destruct (Nat.lt_ge_cases
                (List.length (fold_left collect (draws random max 0 fuel) [])) count)
      as [Hlt|Hge]; [exact Hlt|].
    rewrite (generateLoop_returns random max count fuel 0 []) in H;
      [discriminate | simpl; lia | exact Hge].
  - intros H. apply Nat.ltb_lt in H. now apply generateLoop_running.
Qed.

(** The index sequences of length [n] are the lists of [n] indices below
    [max]. *)
Lemma In_indexSequences (max n : nat) : forall l,
  In l (indexSequences max n) <->
  List.length l = n /\ Forall (fun i => i < max) l.
Proof.
  induction n as [|n IH]; intros l; cbn [indexSequences].
  - split.
    + intros [<-|[]]. split; [reflexivity | constructor].
    + intros [H _]. destruct l; [now left | discriminate].
  - rewrite in_flat_map. split.
    + intros (i & Hi & Hl). apply in_map_iff in Hl. destruct Hl as (t & <- & Ht).
      apply IH in Ht. destruct Ht as [Hlen Hlt]. apply in_seq in Hi.
      split; [simpl; now rewrite Hlen | constructor; [lia | exact Hlt]].
    + intros [Hlen Hlt]. destruct l as [|i t]; [discriminate|].
      inversion Hlt; subst. exists i. split; [apply in_seq; lia|].
      apply in_map, IH. split; [simpl in Hlen; lia | assumption].
Qed.

(** Every sequence of indices below [max] is drawn from some source of
    numbers of the unit interval. *)
Lemma draws_sourceOf (max : nat) (l : list nat) :
  (Z.of_nat max <= 2 ^ 52)%Z ->
  0 < max -> Forall (fun i => i < max) l ->
  (forall d, inUnitInterval (sourceOf max l d)) /\
  draws (sourceOf max l) max 0 (List.length l) = l.
Proof.
  intros Hsafe Hmax Hlt.
  assert (Hd : forall d, List.nth d l 0 < max).
  { intros d. destruct (Nat.lt_ge_cases d (List.length l)) as [H|H].
    - rewrite Forall_forall in Hlt. apply Hlt. now apply nth_In.
    - now rewrite nth_overflow. }
  split.
  - intros d. unfold sourceOf. now apply indexSource_spec.
  - unfold draws. apply nth_ext with (d := 0) (d' := 0).
    + now rewrite length_map, length_seq.
    + intros d Hlen. rewrite length_map, length_seq in Hlen.
      set (f := fun d => floorScaled (sourceOf max l d) max).
      rewrite (nth_indep _ 0 (f 0)) by (rewrite length_map, length_seq; exact Hlen).
      rewrite (map_nth f), seq_nth by exact Hlen. unfold f, sourceOf. simpl.
      now apply indexSource_spec.
Qed.

(** C9. Numbers are floats: [Math.random()] returns a float of the
    interval [0, 1), and [Math.floor(Math.random() * max)] is the floor of
    the product rounded to the nearest float. For a count [max > 0] that
    is below 2^53 (as every array length is) and [count <= max]: on every
    sequence of draws whose first [fuel] members show [count] distinct
    indices, the loop returns within [fuel] turns, and what it returns are
    the first [count] distinct indices in the order drawn: exactly [count]
    pairwise distinct integers, each in the range [0, max). The loop is
    still running after [fuel] turns only when the draws made so far show
    fewer than [count] distinct indices, and of the sequences of
    [k * max * max] indices at most one in [k] is of that kind, for every
    [k]: with draws that make these sequences equally likely the loop
    returns with probability 1. For [count > max] the loop has not returned
    after any number of turns, whatever is drawn. The first [n] draws are
    one of the index sequences of length [n], and, for [max] up to 2^52,
    each of these is drawn from some source of floats of the unit
    interval. *)
Theorem generateRandomUniqueIndices_spec
    (random : Random) (max count : nat) :
  (forall d, inUnitInterval (random d)) ->
  0 < max ->
  (Z.of_nat max < 2 ^ 53)%Z ->
  (count <= max ->
   (forall fuel, count <= List.length (selection random max fuel) ->
      exists indices,
        InventoryPage.generateRandomUniqueIndices fuel random max count = Some indices /\
        indices = firstn count (selection random max fuel) /\
        List.length indices = count /\
        NoDup indices /\
        Forall (fun i => i < max) indices) /\
   (forall fuel,
      InventoryPage.generateRandomUniqueIndices fuel random max count = None <->
      stillRunning count (draws random max 0 fuel) = true) /\
   (forall k, 0 < k ->
      k * List.length (filter (stillRunning count)
                              (indexSequences max (k * max * max))) <=
      List.length (indexSequences max (k * max * max)))) /\
  (max < count ->
   forall fuel,
     InventoryPage.generateRandomUniqueIndices fuel random max count = None) /\
  (forall n, In (draws random max 0 n) (indexSequences max n)) /\
  ((Z.of_nat max <= 2 ^ 52)%Z ->
   forall n l, In l (indexSequences max n) ->
     exists source,
       (forall d, inUnitInterval (source d)) /\ draws source max 0 n = l).
Proof.
  intros Hunit Hmax Hsafe. split; [|split; [|split]].
  - intros Hcount. split; [|split].
    + intros fuel Hsel.
      exists (firstn count (selection random max fuel)).
      assert (Hnd : NoDup (selection random max fuel))
        by (apply collected_NoDup; constructor).
      assert (Hlt : Forall (fun i => i < max) (selection random max fuel))
        by (apply collected_below; [constructor | now apply draws_below]).
      repeat split.
      * unfold InventoryPage.generateRandomUniqueIndices.
        apply generateLoop_returns; [simpl; lia | exact Hsel].
      * rewrite length_firstn. lia.
      * rewrite <- (firstn_skipn count) in Hnd. now apply NoDup_app_remove_r in Hnd.
      * rewrite <- (firstn_skipn count) in Hlt. now apply Forall_app in Hlt.
    + intros fuel. apply generate_running_iff.
    + intros k Hk. rewrite length_indexSequences.
      apply Nat.le_trans with (k * (max * (max - 1) ^ (k * max * max))).
      * apply Nat.mul_le_mono_l. now apply running_bound.
      * now apply vanishing.
  - intros Hgt fuel. unfold InventoryPage.generateRandomUniqueIndices.
    apply generateLoop_running.
    assert (List.length (fold_left collect (draws random max 0 fuel) []) <= max).
    { apply distinct_below_bound.
      - apply collected_NoDup. constructor.
      - apply collected_below; [constructor | now apply draws_below]. }
    lia.
  - intros n. apply In_indexSequences. split.
    + unfold draws. now rewrite length_map, length_seq.
    + now apply draws_below.
  - intros Hsmall n l Hl. apply In_indexSequences in Hl. destruct Hl as [<- Hlt].
    exists (sourceOf max l). now apply draws_sourceOf.
Qed.

Lemma cycling_unit (d : nat) : inUnitInterval (cycling d).
Proof.
  unfold inUnitInterval, cycling.
  destruct (d mod 3) as [|[|k]]; [now left | right | right];
    eexists _, _; (split; [reflexivity|]); split; reflexivity.
Qed.

Lemma generateRandomUniqueIndices_spec_witness :
  InventoryPage.generateRandomUniqueIndices 5 cycling 6 3 = Some [0; 2; 4] /\
  InventoryPage.generateRandomUniqueIndices 1000 cycling 6 7 = None.
Proof.
  assert (Hsafe : (Z.of_nat 6 < 2 ^ 53)%Z) by reflexivity.
  split.
  - destruct (generateRandomUniqueIndices_spec cycling 6 3 cycling_unit)
      as [Hreturns _]; [lia | exact Hsafe |].
    destruct (Hreturns ltac:(lia)) as (Hwithin & _ & _).
    destruct (Hwithin 5) as (indices & Hgen & Hsel & _).
    + vm_compute. lia.
    + rewrite Hgen, Hsel. vm_compute. reflexivity.
  - destruct (generateRandomUniqueIndices_spec cycling 6 7 cycling_unit)
      as [_ Hruns]; [lia | exact Hsafe |].
    apply Hruns. lia.
Defined.

(** ** C1: adding random products *)

(** C1, as the code has it. On the inventory screen of the shop (with fewer
    than 2^53 products, as on every page), for every [count] up to the
    number of products and every sequence of draws whose first [fuel]
    members show [count] distinct indices, the indices selected by
    [addRandomProductsToCart(count)] are the first [count] distinct indices
    in the order drawn (duplicates are discarded); they are pairwise
    distinct and in range. When none of the selected products is in the
    cart, the call is fulfilled with exactly [count] records: the products
    at these indices, in that order, and the cart has received exactly
    these products, by one click each, in that order. When a selected
    product is in the cart, its add button is not on the page: at the first
    such product the call is rejected with the timeout of the click on that
    button, after the products selected before it have been added; no
    records are returned. *)
Theorem addRandomProductsToCart_adds_selection
    (s : SauceDemo.Shop) (random : Random) (fuel count : nat) :
  let total := List.length (SauceDemo.catalog s) in
  let indices := firstn count (selection random total fuel) in
  SauceDemo.screen s = SauceDemo.Inventory ->
  NoDup (map (fun p => SauceDemo.slug (name p)) (SauceDemo.catalog s)) ->
  (forall d, inUnitInterval (random d)) ->
  (Z.of_nat total < 2 ^ 53)%Z ->
  count <= total ->
  count <= List.length (selection random total fuel) ->
  InventoryPage.generateRandomUniqueIndices fuel random total count = Some indices /\
  List.length indices = count /\
  NoDup indices /\
  Forall (fun i => i < total) indices /\
  (Forall (fun i => ~ In i (SauceDemo.cart s)) indices ->
   InventoryPage.addRandomProductsToCart fuel random count s =
     (Fulfilled (map (productAt (SauceDemo.catalog s)) indices),
      withCart s (SauceDemo.cart s ++ indices))) /\
  (forall before i rest,
     indices = (before ++ i :: rest)%list ->
     Forall (fun j => ~ In j (SauceDemo.cart s)) before ->
     In i (SauceDemo.cart s) ->
     InventoryPage.addRandomProductsToCart fuel random count s =
       (Rejected (TimeoutError
          (dataTest ("add-to-cart-" ++
                     SauceDemo.slug (name (productAt (SauceDemo.catalog s) i))))),
        withCart s (SauceDemo.cart s ++ before))).
Proof.
  intros total indices Hscreen Hnames Hunit Hsafe Hcount Hsel.
  assert (Hgen : InventoryPage.generateRandomUniqueIndices fuel random total count
                 = Some indices).
  { unfold InventoryPage.generateRandomUniqueIndices.
    apply generateLoop_returns; [simpl; lia | exact Hsel]. }
  assert (Hlen : List.length indices = count)
    by (unfold indices; rewrite length_firstn; lia).
  assert (Hnd : NoDup indices).
  { assert (H : NoDup (selection random total fuel))
      by (apply collected_NoDup; constructor).
    rewrite <- (firstn_skipn count) in H. now apply NoDup_app_remove_r in H. }
  assert (Hlt : Forall (fun i => i < total) indices).
  { destruct count as [|count]; [constructor|].
    assert (H : Forall (fun i => i < total) (selection random total fuel)).
    { apply collected_below; [constructor|].
      apply draws_below; [exact Hunit | exact Hsafe | lia]. }
    rewrite <- (firstn_skipn (S count)) in H. now apply Forall_app in H. }
  assert (Hcall : InventoryPage.addRandomProductsToCart fuel random count s =
                  InventoryPage.addEach indices [] s).
  { unfold InventoryPage.addRandomProductsToCart, bind.
    rewrite (getProductCount_shop s Hscreen). fold total.
    replace (total <? count)%nat with false by (symmetry; apply Nat.ltb_ge; lia).
    now rewrite Hgen. }
  split; [exact Hgen|]. split; [exact Hlen|]. split; [exact Hnd|].
  split; [exact Hlt|]. split.
  - intros Hcart. rewrite Hcall.
    now rewrite (addEach_shop indices s [] Hscreen Hnames Hnd Hlt Hcart).
  - intros before i rest Hsplit Hfree Hin. rewrite Hcall, Hsplit.
    rewrite Hsplit in Hnd, Hlt.
    replace (before ++ i :: rest)%list with ((before ++ [i]) ++ rest)%list
      in Hnd, Hlt by now rewrite <- app_assoc.
    apply NoDup_app_remove_r in Hnd. apply Forall_app in Hlt.
    now apply addEach_stops.
Qed.

Lemma addRandomProductsToCart_adds_selection_witness :
  InventoryPage.addRandomProductsToCart 5 cycling 3 (SauceDemo.fresh SauceDemo.demoCatalog) =
    (Fulfilled [ {| name := "Sauce Labs Backpack"; price := "$29.99" |};
                 {| name := "Sauce Labs Bolt T-Shirt"; price := "$15.99" |};
                 {| name := "Sauce Labs Onesie"; price := "$7.99" |} ],
     withCart (SauceDemo.fresh SauceDemo.demoCatalog) [0; 2; 4]) /\
  InventoryPage.addRandomProductsToCart 5 cycling 3
      (withCart (SauceDemo.fresh SauceDemo.demoCatalog) [4]) =
    (Rejected (TimeoutError (dataTest "add-to-cart-sauce-labs-onesie")),
     withCart (SauceDemo.fresh SauceDemo.demoCatalog) [4; 0; 2]).
Proof.
  split.
  - destruct (addRandomProductsToCart_adds_selection
                (SauceDemo.fresh SauceDemo.demoCatalog) cycling 5 3)
      as (_ & _ & _ & _ & H & _).
    + reflexivity.
    + exact demoCatalog_distinct.
    + exact cycling_unit.
    + reflexivity.
    + vm_compute. lia.
    + vm_compute. lia.
    + rewrite H; [vm_compute; reflexivity|].
      vm_compute. repeat constructor; intros [].
  - destruct (addRandomProductsToCart_adds_selection
                (withCart (SauceDemo.fresh SauceDemo.demoCatalog) [4]) cycling 5 3)
      as (_ & _ & _ & _ & _ & H).
    + reflexivity.
    + exact demoCatalog_distinct.
    + exact cycling_unit.
    + reflexivity.
    + vm_compute. lia.
    + vm_compute. lia.
    + rewrite (H [0; 2] 4 []).
      * vm_compute. reflexivity.
      * vm_compute. reflexivity.
      * repeat constructor; simpl; lia.
      * simpl. now left.
Defined.

(** C1, counterexample. The demo shop with the backpack in the cart, and a
    first draw of 0: one product is requested, six are on the page, and
    the call is rejected, because the backpack shows a remove button in
    place of its add button. No record is returned and nothing is added. *)
Lemma addRandomProductsToCart_rejected_when_in_cart :
  let s := withCart (SauceDemo.fresh SauceDemo.demoCatalog) [0] in
  SauceDemo.screen s = SauceDemo.Inventory /\
  InventoryPage.getProductCount s = (Fulfilled 6, s) /\
  cycling 0 = S754_zero false /\
  InventoryPage.generateRandomUniqueIndices 5 cycling 6 1 = Some [0] /\
  InventoryPage.addRandomProductsToCart 5 cycling 1 s =
    (Rejected (TimeoutError (dataTest "add-to-cart-sauce-labs-backpack")), s).
Proof.
  intros s. split; [|split; [|split; [|split]]]; vm_compute; reflexivity.
Qed.

(** ** Reading and clicking past the end of a list *)

Section BoundsFacts.
Context {W : Type} {site : Site W}.

Lemma innerText_nth_miss (sel : string) (i : nat) (w : W) :
  List.length (matches sel w) <= i ->
  innerText (nth (locator sel) i) w = (Rejected (TimeoutError sel), w).
Proof.
  intros H. apply nth_error_None in H.
  pose proof (resolve_nth sel i w) as R. rewrite H in R.
  unfold innerText, bind, theElement.
  destruct (resolve (nth (locator sel) i) w); [reflexivity | discriminate].
Qed.

Lemma click_nth_beyond (sel : string) (i : nat) (w : W) :
  List.length (matches sel w) <= i ->
  click (nth (locator sel) i) w = (Rejected (TimeoutError sel), w).
Proof.
  intros H. apply nth_error_None in H.
  pose proof (resolve_nth sel i w) as R. rewrite H in R.
  unfold click, bind, theElement.
  destruct (resolve (nth (locator sel) i) w); [reflexivity | discriminate].
Qed.
End BoundsFacts.

(** X1. An index at or past the number of product names on the page: the
    reads and the clicks by index are rejected with a timeout on the list
    that is too short, and the page is as it was; no click is made. *)
Theorem index_past_the_end_times_out {W : Type} {site : Site W} (w : W) (index : nat) :
  (List.length (matches ".inventory_item_name" w) <= index ->
     InventoryPage.getProductDetails index w =
       (Rejected (TimeoutError ".inventory_item_name"), w) /\
     InventoryPage.addProductToCartByIndex index w =
       (Rejected (TimeoutError ".inventory_item_name"), w) /\
     CartPage.getItemDetails index w =
       (Rejected (TimeoutError ".inventory_item_name"), w)) /\
  (List.length (matches (selector CartPage.removeButtons) w) <= index ->
     CartPage.removeItemByIndex index w =
       (Rejected (TimeoutError (selector CartPage.removeButtons)), w)).
Proof.
  split.
  - intros H. repeat split.
    + unfold InventoryPage.getProductDetails, InventoryPage.productNames, bind.
      now rewrite innerText_nth_miss.
    + unfold InventoryPage.addProductToCartByIndex, InventoryPage.productNames, bind.
      now rewrite innerText_nth_miss.
    + unfold CartPage.getItemDetails, CartPage.cartItemNames, bind.
      now rewrite innerText_nth_miss.
  - intros H. unfold CartPage.removeItemByIndex.
    change CartPage.removeButtons with (locator (selector CartPage.removeButtons)).
    now apply click_nth_beyond.
Qed.

Lemma index_past_the_end_times_out_witness :
  InventoryPage.getProductDetails 6 (SauceDemo.fresh SauceDemo.demoCatalog) =
    (Rejected (TimeoutError ".inventory_item_name"),
     SauceDemo.fresh SauceDemo.demoCatalog) /\
  CartPage.removeItemByIndex 0 (SauceDemo.fresh SauceDemo.demoCatalog) =
    (Rejected (TimeoutError (selector CartPage.removeButtons)),
     SauceDemo.fresh SauceDemo.demoCatalog).
Proof.
  destruct (index_past_the_end_times_out (SauceDemo.fresh SauceDemo.demoCatalog) 6)
    as [Hnames _].
  destruct (index_past_the_end_times_out (SauceDemo.fresh SauceDemo.demoCatalog) 0)
    as [_ Hbuttons].
  split.
  - apply Hnames. vm_compute. lia.
  - apply Hbuttons. vm_compute. lia.
Defined.

(** ** Names and prices read from the rows *)

Section ListingFacts.
Context {W : Type} {site : Site W}.

Lemma allInnerTexts_texts (sel : string) (w : W) :
  allInnerTexts (locator sel) w = (Fulfilled (textsOf sel w), w).
Proof.
  unfold allInnerTexts, textsOf. rewrite <- resolve_nodes, map_map. reflexivity.
Qed.

Lemma array_includes_In (a : list string) (x : string) :
  includes a x = true <-> In x a.
Proof.
  unfold includes. rewrite existsb_exists. split.
  - intros (y & Hy & E). apply String.eqb_eq in E. now subst.
  - intros H. exists x. split; [exact H | apply String.eqb_refl].
Qed.

Lemma every_includes (a names : list string) :
  every names (fun name => includes a name) = true <->
  (forall name, In name names -> In name a).
Proof.
  unfold every. rewrite forallb_forall. split.
  - intros H name Hn. apply array_includes_In. now apply H.
  - intros H name Hn. apply array_includes_In. now apply H.
Qed.
End ListingFacts.

(** X2. [areItemsInCart] and [areItemsInOrder] are fulfilled on every page
    and leave it as it was; the answer is [true] exactly when every
    requested name is the text of some name element of the page, so it is
    [true] for no names at all, also on an empty cart. [isItemInCart] is
    the same question about one name. *)
Theorem areItemsInCart_spec {W : Type} {site : Site W} (w : W) (productNames : list string) :
  exists answer,
    CartPage.areItemsInCart productNames w = (Fulfilled answer, w) /\
    CheckoutStepTwoPage.areItemsInOrder productNames w = (Fulfilled answer, w) /\
    (answer = true <->
     forall name, In name productNames -> In name (textsOf ".inventory_item_name" w)) /\
    (productNames = [] -> answer = true) /\
    (forall name,
       productNames = [name] ->
       CartPage.isItemInCart name w = (Fulfilled answer, w)).
Proof.
  eexists. split; [|split; [|split; [|split]]].
  - unfold CartPage.areItemsInCart, CartPage.getAllItemNames,
      CartPage.cartItemNames, bind, ret.
    rewrite allInnerTexts_texts. reflexivity.
  - unfold CheckoutStepTwoPage.areItemsInOrder, CheckoutStepTwoPage.getAllItemNames,
      CheckoutStepTwoPage.cartItemNames, bind, ret.
    rewrite allInnerTexts_texts. reflexivity.
  - apply every_includes.
  - intros ->. reflexivity.
  - intros name ->.
    unfold CartPage.isItemInCart, CartPage.getAllItemNames,
      CartPage.cartItemNames, bind, ret.
    rewrite allInnerTexts_texts. cbn [every forallb]. now rewrite andb_true_r.
Qed.

(** ** The total of the prices in the cart *)

Section TotalFacts.

Lemma add_NaN_r (x : number) : add x NaN = NaN.
Proof. now destruct x. Qed.

Lemma add_NaN_l (x : number) : add NaN x = NaN.
Proof. reflexivity. Qed.

Lemma addPrices_NaN (prices : list string) : CartPage.addPrices prices NaN = NaN.
Proof.
  induction prices as [|t prices IH]; [reflexivity|].
  cbn [CartPage.addPrices]. now rewrite add_NaN_l.
Qed.

Lemma addPrices_unread (prices : list string) : forall (total : number) (t : string),
  In t prices ->
  parseFloat (replaceFirst t "$" EmptyString) = NaN ->
  CartPage.addPrices prices total = NaN.
Proof.
  induction prices as [|p prices IH]; intros total t Hin Hnan; [destruct Hin|].
  cbn [CartPage.addPrices]. destruct Hin as [->|Hin].
  - rewrite Hnan, add_NaN_r. apply addPrices_NaN.
  - now apply (IH _ t).
Qed.

Lemma addPrices_fold (prices : list string) : forall total,
  CartPage.addPrices prices total =
    fold_left add
      (map (fun priceStr => parseFloat (replaceFirst priceStr "$" EmptyString)) prices)
      total.
Proof.
  induction prices as [|p prices IH]; intros total; [reflexivity|].
  cbn [CartPage.addPrices map fold_left]. apply IH.
Qed.

(** A plain price is a dollar sign before digits, a point and digits. *)
Lemma plainPrice_parts (t : string) :
  plainPrice t = true ->
  exists whole point fraction,
    t = "$" ++ whole ++ point ++ fraction /\
    whole <> EmptyString /\ allDigits whole = true /\ allDigits fraction = true /\
    (point = "." \/ (point = EmptyString /\ fraction = EmptyString)).
Proof.
  destruct t as [|c u]; [discriminate|]. cbn [plainPrice].
  intros H. apply andb_prop in H. destruct H as [H Htail].
  apply andb_prop in H. destruct H as [Hc Hu].
  apply Ascii.eqb_eq in Hc. subst c.
  pose proof (span_append isDigit u) as Hsplit.
  pose proof (span_allDigits u) as Hwhole.
  destruct (span isDigit u) as [whole r1] eqn:E. cbn [fst snd] in *.
  assert (Hne : whole <> EmptyString).
  { destruct u as [|d u']; [discriminate|]. cbn [startsWithDigit] in Hu.
    cbn [span] in E. rewrite Hu in E. destruct (span isDigit u').
    inversion E. discriminate. }
  destruct r1 as [|d r].
  - exists whole, EmptyString, EmptyString. rewrite Hsplit.
    repeat split; try assumption; try reflexivity. right. now split.
  - apply andb_prop in Htail. destruct Htail as [Hd Hr].
    apply Ascii.eqb_eq in Hd. subst d.
    exists whole, ".", r. rewrite Hsplit.
    repeat split; try assumption; try reflexivity. now left.
Qed.

(** The cart and the overview read the same number from a plain price. *)
Lemma plainPrice_amount (t : string) :
  plainPrice t = true ->
  parseFloat (replaceFirst t "$" EmptyString) = CheckoutStepTwoPage.amountOf t.
Proof.
  intros H. destruct (plainPrice_parts t H)
    as (whole & point & fraction & -> & Hne & Hwhole & Hfraction & Hpoint).
  rewrite amountOf_firstAmount.
  pose proof (firstAmount_some EmptyString whole point fraction EmptyString
                eq_refl Hne Hwhole Hfraction eq_refl) as Hfirst.
  rewrite !append_empty_r in Hfirst. cbn [append] in Hfirst.
  cbn [append]. rewrite Hfirst.
  - reflexivity.
  - destruct Hpoint as [Hp|[Hp Hf]]; [now left | right; repeat split; assumption].
Qed.
End TotalFacts.

(** X3. [calculateTotalPrice] is fulfilled on every page. With no price
    on the page the total is [0]. One price text from which no number is
    read after its first dollar sign is removed makes the total [NaN],
    whatever the other prices are. *)
Theorem calculateTotalPrice_unread_price {W : Type} {site : Site W} (w : W) :
  (textsOf ".inventory_item_price" w = [] ->
     CartPage.calculateTotalPrice w = (Fulfilled zero, w)) /\
  (forall priceStr,
     In priceStr (textsOf ".inventory_item_price" w) ->
     parseFloat (replaceFirst priceStr "$" EmptyString) = NaN ->
     CartPage.calculateTotalPrice w = (Fulfilled NaN, w)).
Proof.
  unfold CartPage.calculateTotalPrice, CartPage.getAllItemPrices,
    CartPage.cartItemPrices, bind, ret.
  rewrite allInnerTexts_texts. split.
  - intros ->. reflexivity.
  - intros t Hin Hnan. now rewrite (addPrices_unread _ zero t Hin Hnan).
Qed.

(** X4. On a page whose prices are all plain, the total of
    [calculateTotalPrice] is the float sum, from [0] and in document
    order, of the amounts that the price pattern of the checkout overview
    reads from the same texts. *)
Theorem calculateTotalPrice_plain_prices {W : Type} {site : Site W} (w : W) :
  forallb plainPrice (textsOf ".inventory_item_price" w) = true ->
  CartPage.calculateTotalPrice w =
    (Fulfilled
       (fold_left add
          (map CheckoutStepTwoPage.amountOf (textsOf ".inventory_item_price" w))
          zero), w).
Proof.
  intros H.
  unfold CartPage.calculateTotalPrice, CartPage.getAllItemPrices,
    CartPage.cartItemPrices, bind, ret.
  rewrite allInnerTexts_texts, addPrices_fold.
  assert (E : map (fun priceStr => parseFloat (replaceFirst priceStr "$" EmptyString))
                  (textsOf ".inventory_item_price" w) =
              map CheckoutStepTwoPage.amountOf (textsOf ".inventory_item_price" w)).
  { apply map_ext_in. intros t Ht. apply plainPrice_amount.
    rewrite forallb_forall in H. now apply H. }
  now rewrite E.
Qed.

Lemma calculateTotalPrice_unread_price_witness :
  CartPage.calculateTotalPrice
    {| StaticPage.nodes := [StaticPage.label ".title" "Your Cart"];
       StaticPage.address := "https://www.saucedemo.com/cart.html" |} =
    (Fulfilled zero,
     {| StaticPage.nodes := [StaticPage.label ".title" "Your Cart"];
        StaticPage.address := "https://www.saucedemo.com/cart.html" |}) /\
  CartPage.calculateTotalPrice
    {| StaticPage.nodes :=
         [ StaticPage.label ".inventory_item_price" "$9.99";
           StaticPage.label ".inventory_item_price" "Free";
           StaticPage.label ".inventory_item_price" "$7.99" ];
       StaticPage.address := "https://www.saucedemo.com/cart.html" |} =
    (Fulfilled NaN,
     {| StaticPage.nodes :=
         [ StaticPage.label ".inventory_item_price" "$9.99";
           StaticPage.label ".inventory_item_price" "Free";
           StaticPage.label ".inventory_item_price" "$7.99" ];
       StaticPage.address := "https://www.saucedemo.com/cart.html" |}).
Proof.
  split.
  - apply calculateTotalPrice_unread_price. reflexivity.
  - apply (proj2 (calculateTotalPrice_unread_price _) "Free").
    + right. left. reflexivity.
    + reflexivity.
Defined.

Lemma calculateTotalPrice_plain_prices_witness :
  CartPage.calculateTotalPrice cartOfTwo =
    (Fulfilled (add (add zero (ofDecimal false 4999 (-2))) (ofDecimal false 999 (-2))),
     cartOfTwo).
Proof.
  rewrite (calculateTotalPrice_plain_prices cartOfTwo).
  - vm_compute. reflexivity.
  - vm_compute. reflexivity.
Defined.

(** ** The rows of the cart and of the order *)

Section RowFacts.
Context {W : Type} {site : Site W}.

Lemma length_textsOf (sel : string) (w : W) :
  List.length (textsOf sel w) = List.length (matches sel w).
Proof. apply length_map. Qed.

Lemma innerText_nth_text (sel : string) (i : nat) (w : W) :
  i < List.length (matches sel w) ->
  innerText (nth (locator sel) i) w =
    (Fulfilled (List.nth i (textsOf sel w) EmptyString), w).
Proof.
  intros H. destruct (nth_error (matches sel w) i) as [n|] eqn:E;
    [|apply nth_error_None in E; lia].
  rewrite (innerText_nth sel i w n E). unfold textsOf.
  now rewrite (nth_error_nth _ _ _ (map_nth_error innerTextOf _ _ E)).
Qed.

Lemma getItemDetails_at (w : W) (i : nat) :
  i < List.length (matches ".inventory_item_name" w) ->
  i < List.length (matches ".inventory_item_price" w) ->
  i < List.length (matches ".cart_quantity" w) ->
  CartPage.getItemDetails i w = (Fulfilled (cartItemAt w i), w).
Proof.
  intros Hn Hp Hq.
  unfold CartPage.getItemDetails, CartPage.cartItemNames, CartPage.cartItemPrices,
    CartPage.cartItemQuantities, bind, ret.
  now rewrite !innerText_nth_text by assumption.
Qed.

Lemma cart_getItemsFrom (w : W) : forall turns i items,
  i + turns <= List.length (matches ".inventory_item_name" w) ->
  i + turns <= List.length (matches ".inventory_item_price" w) ->
  i + turns <= List.length (matches ".cart_quantity" w) ->
  CartPage.getItemsFrom turns i items w =
    (Fulfilled (items ++ map (cartItemAt w) (seq i turns))%list, w).
Proof.
  induction turns as [|turns IH]; intros i items Hn Hp Hq.
  - cbn [CartPage.getItemsFrom seq map]. unfold ret. now rewrite app_nil_r.
  - cbn [CartPage.getItemsFrom]. unfold bind at 1.
    rewrite getItemDetails_at by lia.
    rewrite IH by lia. cbn [seq map]. now rewrite <- app_assoc.
Qed.

Lemma cart_getItemsFrom_short (w : W) : forall turns i items,
  i <= List.length (matches ".inventory_item_name" w) ->
  List.length (matches ".inventory_item_name" w) < i + turns ->
  List.length (matches ".inventory_item_name" w) <=
    List.length (matches ".inventory_item_price" w) ->
  List.length (matches ".inventory_item_name" w) <=
    List.length (matches ".cart_quantity" w) ->
  CartPage.getItemsFrom turns i items w =
    (Rejected (TimeoutError ".inventory_item_name"), w).
Proof.
  induction turns as [|turns IH]; intros i items Hi Hshort Hp Hq; [lia|].
  cbn [CartPage.getItemsFrom]. unfold bind at 1.
  destruct (Nat.eq_dec i (List.length (matches ".inventory_item_name" w))) as [E|E].
  - unfold CartPage.getItemDetails, CartPage.cartItemNames, bind.
    now rewrite innerText_nth_miss by lia.
  - rewrite getItemDetails_at by lia. apply IH; lia.
Qed.

Lemma order_getItemsFrom (w : W) : forall turns i items,
  i + turns <= List.length (matches ".inventory_item_name" w) ->
  i + turns <= List.length (matches ".inventory_item_price" w) ->
  CheckoutStepTwoPage.getItemsFrom turns i items w =
    (Fulfilled (items ++ map (orderItemAt w) (seq i turns))%list, w).
Proof.
  induction turns as [|turns IH]; intros i items Hn Hp.
  - cbn [CheckoutStepTwoPage.getItemsFrom seq map]. unfold ret. now rewrite app_nil_r.
  - cbn [CheckoutStepTwoPage.getItemsFrom].
    unfold CheckoutStepTwoPage.cartItemNames, CheckoutStepTwoPage.cartItemPrices.
    unfold bind at 1. rewrite innerText_nth_text by lia.
    unfold bind at 1. rewrite innerText_nth_text by lia.
    rewrite IH by lia. cbn [seq map]. now rewrite <- app_assoc.
Qed.

Lemma order_getItemsFrom_short (w : W) : forall turns i items,
  i <= List.length (matches ".inventory_item_name" w) ->
  List.length (matches ".inventory_item_name" w) < i + turns ->
  List.length (matches ".inventory_item_name" w) <=
    List.length (matches ".inventory_item_price" w) ->
  CheckoutStepTwoPage.getItemsFrom turns i items w =
    (Rejected (TimeoutError ".inventory_item_name"), w).
Proof.
  induction turns as [|turns IH]; intros i items Hi Hshort Hp; [lia|].
  cbn [CheckoutStepTwoPage.getItemsFrom].
  unfold CheckoutStepTwoPage.cartItemNames, CheckoutStepTwoPage.cartItemPrices.
  unfold bind at 1.
  destruct (Nat.eq_dec i (List.length (matches ".inventory_item_name" w))) as [E|E].
  - now rewrite innerText_nth_miss by lia.
  - rewrite innerText_nth_text by lia.
    unfold bind at 1. rewrite innerText_nth_text by lia.
    apply IH; lia.
Qed.
End RowFacts.

(** X5. [getAllCartItems] on a page that shows a name, a price and a
    quantity for each of its rows is fulfilled with one record per row, in
    document order, and leaves the page as it was; with no row the result
    is the empty array. On a page with more rows than names (and a price
    and a quantity for every name) it is rejected with a timeout on the
    names. *)
Theorem getAllCartItems_spec {W : Type} {site : Site W} (w : W) :
  let rows := List.length (matches ".cart_item" w) in
  let names := List.length (matches ".inventory_item_name" w) in
  let prices := List.length (matches ".inventory_item_price" w) in
  let quantities := List.length (matches ".cart_quantity" w) in
  (rows <= names -> rows <= prices -> rows <= quantities ->
     CartPage.getAllCartItems w =
       (Fulfilled (map (cartItemAt w) (seq 0 rows)), w)) /\
  (names < rows -> names <= prices -> names <= quantities ->
     CartPage.getAllCartItems w =
       (Rejected (TimeoutError ".inventory_item_name"), w)).
Proof.
  intros rows names prices quantities.
  unfold CartPage.getAllCartItems, CartPage.getCartItemCount, CartPage.cartItems, bind.
  rewrite count_matches. fold rows. split.
  - intros Hn Hp Hq. exact (cart_getItemsFrom w rows 0 [] Hn Hp Hq).
  - intros Hn Hp Hq. now apply cart_getItemsFrom_short; try lia.
Qed.

(** X6. [getAllOrderItems] on a page that shows a name and a price for
    each of its rows is fulfilled with one record per row, in document
    order, and leaves the page as it was. On a page with more rows than
    names (and a price for every name) it is rejected with a timeout on
    the names. *)
Theorem getAllOrderItems_spec {W : Type} {site : Site W} (w : W) :
  let rows := List.length (matches ".cart_item" w) in
  let names := List.length (matches ".inventory_item_name" w) in
  let prices := List.length (matches ".inventory_item_price" w) in
  (rows <= names -> rows <= prices ->
     CheckoutStepTwoPage.getAllOrderItems w =
       (Fulfilled (map (orderItemAt w) (seq 0 rows)), w)) /\
  (names < rows -> names <= prices ->
     CheckoutStepTwoPage.getAllOrderItems w =
       (Rejected (TimeoutError ".inventory_item_name"), w)).
Proof.
  intros rows names prices.
  unfold CheckoutStepTwoPage.getAllOrderItems, CheckoutStepTwoPage.getItemCount,
    CheckoutStepTwoPage.cartItems, bind.
  rewrite count_matches. fold rows. split.
  - intros Hn Hp. exact (order_getItemsFrom w rows 0 [] Hn Hp).
  - intros Hn Hp. now apply order_getItemsFrom_short; try lia.
Qed.

Lemma getAllCartItems_spec_witness :
  CartPage.getAllCartItems cartOfTwo =
    (Fulfilled
       [ {| CartPage.name := "Sauce Labs Fleece Jacket"; CartPage.price := "$49.99";
            CartPage.quantity := S754_finite false 4503599627370496 (-52) |};
         {| CartPage.name := "Sauce Labs Bike Light"; CartPage.price := "$9.99";
            CartPage.quantity := S754_finite false 4503599627370496 (-52) |} ],
     cartOfTwo) /\
  CartPage.getAllCartItems brokenListing =
    (Rejected (TimeoutError ".inventory_item_name"), brokenListing).
Proof.
  split.
  - destruct (getAllCartItems_spec cartOfTwo) as [Hrows _].
    rewrite Hrows; [reflexivity | vm_compute; lia ..].
  - destruct (getAllCartItems_spec brokenListing) as [_ Hshort].
    apply Hshort; vm_compute; lia.
Defined.

Lemma getAllOrderItems_spec_witness :
  CheckoutStepTwoPage.getAllOrderItems cartOfTwo =
    (Fulfilled
       [ {| name := "Sauce Labs Fleece Jacket"; price := "$49.99" |};
         {| name := "Sauce Labs Bike Light"; price := "$9.99" |} ],
     cartOfTwo) /\
  CheckoutStepTwoPage.getAllOrderItems brokenListing =
    (Rejected (TimeoutError ".inventory_item_name"), brokenListing).
Proof.
  split.
  - destruct (getAllOrderItems_spec cartOfTwo) as [Hrows _].
    rewrite Hrows; [reflexivity | vm_compute; lia ..].
  - destruct (getAllOrderItems_spec brokenListing) as [_ Hshort].
    apply Hshort; vm_compute; lia.
Defined.

(** ** The success of a checkout *)

Section VisibilityFacts.
Context {W : Type} {site : Site W}.

Lemma isVisible_matches (sel : string) (w : W) :
  isVisible (locator sel) w =
    match matches sel w with
    | [] => (Fulfilled false, w)
    | [n] => (Fulfilled (visible n), w)
    | _ => (Rejected (StrictModeViolation sel), w)
    end.
Proof.
  unfold isVisible. rewrite <- resolve_nodes.
  destruct (resolve (locator sel) w) as [|e [|e' r]]; reflexivity.
Qed.
Lemma isVisible_at_most_one (sel : string) (w : W) :
  List.length (matches sel w) <= 1 ->
  exists shown,
    isVisible (locator sel) w = (Fulfilled shown, w) /\
    (shown = true <-> exists n, matches sel w = [n] /\ visible n = true).
Proof.
  intros H. rewrite isVisible_matches.
  destruct (matches sel w) as [|n [|? ?]]; [| |simpl in H; lia].
  - exists false. split; [reflexivity|]. split; [discriminate|].
    intros (n & Hn & _). discriminate.
  - exists (visible n). split; [reflexivity|]. split.
    + intros Hv. now exists n.
    + intros (m & Hm & Hv). now inversion Hm.
Qed.

Lemma isVisible_several (sel : string) (w : W) :
  2 <= List.length (matches sel w) ->
  isVisible (locator sel) w = (Rejected (StrictModeViolation sel), w).
Proof.
  intros H. rewrite isVisible_matches.
  destruct (matches sel w) as [|n [|? ?]]; simpl in H; try lia. reflexivity.
Qed.

Lemma isVisible_cases (sel : string) (w : W) :
  (exists shown, isVisible (locator sel) w = (Fulfilled shown, w) /\
                 List.length (matches sel w) <= 1) \/
  (isVisible (locator sel) w = (Rejected (StrictModeViolation sel), w)).
Proof.
  rewrite isVisible_matches.
  destruct (matches sel w) as [|n [|? ?]].
  - left. exists false. split; [reflexivity | simpl; lia].
  - left. exists (visible n). split; [reflexivity | simpl; lia].
  - now right.
Qed.
End VisibilityFacts.

(** X7. On a page where none of the four success elements is there more
    than once, [isCheckoutSuccessful] is fulfilled and leaves the page as
    it was; the answer is [true] exactly when each of the four is there
    and visible. An element that is there twice or more rejects the call
    with a strict-mode violation. *)
Theorem isCheckoutSuccessful_spec {W : Type} {site : Site W} (w : W) :
  ((forall sel, In sel successElements -> List.length (matches sel w) <= 1) ->
   exists answer,
     CheckoutCompletePage.isCheckoutSuccessful w = (Fulfilled answer, w) /\
     (answer = true <->
      forall sel, In sel successElements ->
        exists n, matches sel w = [n] /\ visible n = true)) /\
  ((exists sel, In sel successElements /\ 2 <= List.length (matches sel w)) ->
   exists sel,
     In sel successElements /\
     CheckoutCompletePage.isCheckoutSuccessful w =
       (Rejected (StrictModeViolation sel), w)).
Proof.
  unfold CheckoutCompletePage.isCheckoutSuccessful, CheckoutCompletePage.completeHeader,
    CheckoutCompletePage.completeText, CheckoutCompletePage.ponyExpressImage,
    CheckoutCompletePage.backHomeButton, successElements. split.
  - intros Hone.
    destruct (isVisible_at_most_one ".complete-header" w
                (Hone ".complete-header" ltac:(simpl; tauto))) as (b1 & E1 & H1).
    destruct (isVisible_at_most_one ".complete-text" w
                (Hone ".complete-text" ltac:(simpl; tauto))) as (b2 & E2 & H2).
    destruct (isVisible_at_most_one ".pony_express" w
                (Hone ".pony_express" ltac:(simpl; tauto))) as (b3 & E3 & H3).
    destruct (isVisible_at_most_one (dataTest "back-to-products") w
                (Hone (dataTest "back-to-products") ltac:(simpl; tauto))) as (b4 & E4 & H4).
    exists (b1 && b2 && b3 && b4). split.
    + unfold bind at 1. rewrite E1. unfold bind at 1. rewrite E2.
      unfold bind at 1. rewrite E3. unfold bind at 1. rewrite E4. reflexivity.
    + rewrite !andb_true_iff, H1, H2, H3, H4. split.
      * intros [[[P1 P2] P3] P4] sel [<-|[<-|[<-|[<-|[]]]]]; assumption.
      * intros Hall. repeat split; apply Hall; simpl; tauto.
  - intros (sel & Hin & Hmany).
    destruct (isVisible_cases ".complete-header" w) as [(b1 & E1 & L1)|E1];
      [|exists ".complete-header"; split; [simpl; tauto|];
        unfold bind at 1; now rewrite E1].
    destruct (isVisible_cases ".complete-text" w) as [(b2 & E2 & L2)|E2];
      [|exists ".complete-text"; split; [simpl; tauto|];
        unfold bind at 1; rewrite E1; unfold bind at 1; now rewrite E2].
    destruct (isVisible_cases ".pony_express" w) as [(b3 & E3 & L3)|E3];
      [|exists ".pony_express"; split; [simpl; tauto|];
        unfold bind at 1; rewrite E1; unfold bind at 1; rewrite E2;
        unfold bind at 1; now rewrite E3].
    destruct (isVisible_cases (dataTest "back-to-products") w)
      as [(b4 & E4 & L4)|E4];
      [|exists (dataTest "back-to-products"); split; [simpl; tauto|];
        unfold bind at 1; rewrite E1; unfold bind at 1; rewrite E2;
        unfold bind at 1; rewrite E3; unfold bind at 1; now rewrite E4].
    exfalso. destruct Hin as [<-|[<-|[<-|[<-|[]]]]]; lia.
Qed.

Lemma isCheckoutSuccessful_spec_witness :
  CheckoutCompletePage.isCheckoutSuccessful (completePage true) =
    (Fulfilled true, completePage true) /\
  CheckoutCompletePage.isCheckoutSuccessful (completePage false) =
    (Fulfilled false, completePage false).
Proof.
  split.
  - destruct (isCheckoutSuccessful_spec (completePage true)) as [Hone _].
    destruct Hone as (answer & Hanswer & Htrue).
    + intros sel [<-|[<-|[<-|[<-|[]]]]]; vm_compute; lia.
    + rewrite Hanswer. f_equal. f_equal. apply Htrue.
      intros sel [<-|[<-|[<-|[<-|[]]]]]; eexists; split; reflexivity.
  - destruct (isCheckoutSuccessful_spec (completePage false)) as [Hone _].
    destruct Hone as (answer & Hanswer & Htrue).
    + intros sel [<-|[<-|[<-|[<-|[]]]]]; vm_compute; lia.
    + rewrite Hanswer. f_equal. f_equal.
      destruct answer; [|reflexivity].
      destruct (proj1 Htrue eq_refl ".pony_express" ltac:(simpl; tauto))
        as (n & Hn & Hv).
      vm_compute in Hn. inversion Hn; subst n. discriminate Hv.
Defined.

(** ** More of the shop *)

Section SingleElementFacts.
Context {W : Type} {site : Site W}.

Lemma resolve_one (sel : string) (w : W) (n : Node) :
  matches sel w = [n] -> exists i, resolve (locator sel) w = [(i, n)].
Proof.
  intros H. rewrite <- resolve_nodes in H.
  destruct (resolve (locator sel) w) as [|[i m] [|e r]]; try discriminate.
  inversion H. now exists i.
Qed.

Lemma innerText_none (sel : string) (w : W) :
  matches sel w = [] ->
  innerText (locator sel) w = (Rejected (TimeoutError sel), w).
Proof.
  intros H. unfold innerText, bind, theElement. now rewrite (resolve_none _ _ H).
Qed.

Lemma innerText_one (sel : string) (w : W) (n : Node) :
  matches sel w = [n] ->
  innerText (locator sel) w = (Fulfilled (innerTextOf n), w).
Proof.
  intros H. destruct (resolve_one _ _ _ H) as [i Hi].
  unfold innerText, bind, theElement. now rewrite Hi.
Qed.

End SingleElementFacts.

Section DigitsOfCounts.

(** Reading back a count that was written in decimal. *)
Lemma parseInt10_decimal (n : N) : parseInt10 (decimal n) = ofDecimal false n 0.
Proof.
  pose proof (decimal_digits n) as Hd. pose proof (decimal_nonempty n) as Hne.
  pose proof (decimal_value n) as Hv.
  unfold parseInt10. destruct (decimal n) as [|c t] eqn:E; [contradiction|].
  pose proof Hd as Hc. cbn [allDigits] in Hc. apply andb_prop in Hc.
  destruct Hc as [Hc _].
  destruct (digit_is_plain c Hc) as (Hs & Hminus & Hplus & _).
  cbn [trimStart]. rewrite Hs. cbn [signPrefix]. rewrite Hminus, Hplus.
  rewrite (span_all_digits _ Hd). now rewrite Hv.
Qed.
End DigitsOfCounts.

Section MoreShopFacts.
Import SauceDemo.

Lemma remove_selector_inj (x y : string) :
  String.eqb (dataTest ("remove-" ++ x)) (dataTest ("remove-" ++ y)) =
  String.eqb x y.
Proof.
  destruct (String.eqb_spec x y) as [->|Hne].
  - apply String.eqb_refl.
  - apply String.eqb_neq. intros H. apply dataTest_inj in H.
    simpl in H. inversion H. contradiction.
Qed.

(** What the badge selector matches on the two screens. *)
Lemma hits_badge (s : Shop) :
  screen s <> Elsewhere ->
  hits ".shopping_cart_badge" s =
    match cart s with
    | [] => []
    | _ => [element [".shopping_cart_badge"] (showCount (List.length (cart s)))
                    NoAction]
    end.
Proof.
  intros Hscreen. unfold hits, elements.
  destruct (screen s); [| |contradiction].
  - rewrite filter_app, filter_flat_map, flat_map_nil.
    + unfold header. destruct (cart s); reflexivity.
    + intros [product p]. unfold productCard.
      destruct (inCart s product); reflexivity.
  - rewrite !filter_app, filter_flat_map, flat_map_nil.
    + unfold header. destruct (cart s); reflexivity.
    + intros product. unfold cartRow.
      destruct (nth_error (catalog s) product); reflexivity.
Qed.

(** What the remove-button selector of a name matches in one row. *)
Lemma row_remove_hit (s : Shop) (x : string) (k : nat) :
  filter (fun e => matchesSelector (dataTest ("remove-" ++ x)) (fst e))
         (cartRow s k) =
  match nth_error (catalog s) k with
  | Some p => if String.eqb x (slug (name p)) then [removeButton k p] else []
  | None => []
  end.
Proof.
  unfold cartRow. destruct (nth_error (catalog s) k) as [p|]; [|reflexivity].
  cbn [filter]. unfold matchesSelector, removeButton, element.
  cbn [fst matching existsb]. rewrite remove_selector_inj.
  cbn. rewrite !orb_false_r.
  destruct (String.eqb x (slug (name p))); reflexivity.
Qed.

Lemma hits_remove_name (s : Shop) (x : string) :
  screen s = Cart ->
  hits (dataTest ("remove-" ++ x)) s =
    flat_map (fun k =>
                match nth_error (catalog s) k with
                | Some p => if String.eqb x (slug (name p))
                            then [removeButton k p] else []
                | None => []
                end) (cart s).
Proof.
  intros Hscreen. rewrite cart_hits; try assumption; try reflexivity.
  apply flat_map_ext. intros k. apply row_remove_hit.
Qed.

Lemma no_remove_hit (s : Shop) (x : string) (l : list nat) :
  (forall k p, In k l -> nth_error (catalog s) k = Some p ->
               slug (name p) <> x) ->
  flat_map (fun k =>
              match nth_error (catalog s) k with
              | Some p => if String.eqb x (slug (name p))
                          then [removeButton k p] else []
              | None => []
              end) l = [].
Proof.
  intros H. induction l as [|k l IH]; [reflexivity|].
  cbn [flat_map]. rewrite IH by (intros k' p Hk; apply H; now right).
  destruct (nth_error (catalog s) k) as [p|] eqn:E; [|reflexivity].
  destruct (String.eqb_spec x (slug (name p))) as [Hx|_]; [|reflexivity].
  exfalso. apply (H k p); [now left | exact E | now symmetry].
Qed.

Lemma one_remove_hit (s : Shop) (i : nat) (p : ProductDetails) (l : list nat) :
  NoDup (map (fun p => slug (name p)) (catalog s)) ->
  nth_error (catalog s) i = Some p ->
  NoDup l -> In i l ->
  flat_map (fun k =>
              match nth_error (catalog s) k with
              | Some q => if String.eqb (slug (name p)) (slug (name q))
                          then [removeButton k q] else []
              | None => []
              end) l = [removeButton i p].
Proof.
  intros Hnames Hp Hnd Hin.
  assert (Hother : forall k q, k <> i -> nth_error (catalog s) k = Some q ->
                               slug (name q) <> slug (name p)).
  { intros k q Hk Hq E. apply Hk.
    apply (proj1 (NoDup_nth_error _) Hnames).
    - rewrite length_map. apply nth_error_Some. congruence.
    - rewrite !nth_error_map, Hq, Hp. simpl. now rewrite E. }
  induction l as [|k l IH]; [destruct Hin|].
  inversion Hnd as [|? ? Hk Hnd']; subst. cbn [flat_map].
  destruct Hin as [->|Hin].
  - rewrite Hp, String.eqb_refl.
    rewrite no_remove_hit; [reflexivity|].
    intros k q Hkl Hq. apply (Hother k q); [|exact Hq].
    intros ->. contradiction.
  - rewrite (IH Hnd' Hin).
    destruct (nth_error (catalog s) k) as [q|] eqn:E; [|reflexivity].
    destruct (String.eqb_spec (slug (name p)) (slug (name q))) as [Hx|_];
      [|reflexivity].
    exfalso. apply (Hother k q); [|exact E|now symmetry].
    intros ->. contradiction.
Qed.
End MoreShopFacts.

(** X8. On the inventory screen of the shop, [addProductToCartByIndex(i)]
    puts the product at position [i] at the end of the cart when it is not
    in the cart. When it is in the cart its add button is not there: the
    call is rejected with a timeout on that button and the cart is as it
    was, so no product is ever in the cart twice. *)
Theorem addProductToCartByIndex_once
    (s : SauceDemo.Shop) (i : nat) (p : ProductDetails) :
  SauceDemo.screen s = SauceDemo.Inventory ->
  NoDup (map (fun p => SauceDemo.slug (name p)) (SauceDemo.catalog s)) ->
  nth_error (SauceDemo.catalog s) i = Some p ->
  InventoryPage.addProductToCartByIndex i s =
    if SauceDemo.inCart s i
    then (Rejected (TimeoutError
            (dataTest ("add-to-cart-" ++ SauceDemo.slug (name p)))), s)
    else (Fulfilled tt, withCart s (SauceDemo.cart s ++ [i])).
Proof.
  intros Hscreen Hnames Hp.
  destruct (SauceDemo.inCart s i) eqn:Hcart.
  - exact (addProductToCartByIndex_taken s Hscreen Hnames i p Hp Hcart).
  - exact (addProductToCartByIndex_shop s Hscreen Hnames i p Hp Hcart).
Qed.

Lemma addProductToCartByIndex_once_witness :
  InventoryPage.addProductToCartByIndex 3
      (withCart (SauceDemo.fresh SauceDemo.demoCatalog) [3; 1]) =
    (Rejected (TimeoutError (dataTest "add-to-cart-sauce-labs-fleece-jacket")),
     withCart (SauceDemo.fresh SauceDemo.demoCatalog) [3; 1]) /\
  InventoryPage.addProductToCartByIndex 0
      (withCart (SauceDemo.fresh SauceDemo.demoCatalog) [3; 1]) =
    (Fulfilled tt, withCart (SauceDemo.fresh SauceDemo.demoCatalog) [3; 1; 0]).
Proof.
  split.
  - rewrite (addProductToCartByIndex_once _ 3
               {| name := "Sauce Labs Fleece Jacket"; price := "$49.99" |});
      [reflexivity | reflexivity | exact demoCatalog_distinct | reflexivity].
  - rewrite (addProductToCartByIndex_once _ 0
               {| name := "Sauce Labs Backpack"; price := "$29.99" |});
      [reflexivity | reflexivity | exact demoCatalog_distinct | reflexivity].
Defined.

Section RemovingFacts.
Import SauceDemo.

Lemma in_without (i : nat) (l : list nat) (k : nat) :
  In k (without i l) <-> In k l /\ k <> i.
Proof.
  induction l as [|x l IH]; simpl; [tauto|].
  destruct (Nat.eqb_spec x i) as [->|Hx]; simpl; rewrite IH; intuition congruence.
Qed.

(** The button of a product in the cart, looked up by a name that is
    written as the product's name up to case and white space. *)
Lemma removeItemByName_shop (s : Shop) (productName : string) (i : nat)
    (p : ProductDetails) :
  screen s = Cart ->
  NoDup (map (fun p => slug (name p)) (catalog s)) ->
  NoDup (cart s) ->
  In i (cart s) -> nth_error (catalog s) i = Some p ->
  slug productName = slug (name p) ->
  CartPage.removeItemByName productName s =
    (Fulfilled tt, withCart s (without i (cart s))).
Proof.
  intros Hscreen Hnames Hnd Hin Hp Hslug. unfold CartPage.removeItemByName.
  change (replaceAll (toLowerCase productName) whiteSpaceRun "-")
    with (slug productName).
  rewrite Hslug.
  rewrite (click_hit _ s (fst (removeButton i p)) (RemoveFromCart i));
    try reflexivity.
  rewrite hits_remove_name by exact Hscreen.
  now apply one_remove_hit.
Qed.

Lemma removeItemByName_miss (s : Shop) (productName : string) :
  screen s = Cart ->
  (forall i p, In i (cart s) -> nth_error (catalog s) i = Some p ->
               slug (name p) <> slug productName) ->
  CartPage.removeItemByName productName s =
    (Rejected (TimeoutError (dataTest ("remove-" ++ slug productName))), s).
Proof.
  intros Hscreen Hnone. unfold CartPage.removeItemByName.
  change (replaceAll (toLowerCase productName) whiteSpaceRun "-")
    with (slug productName).
  apply click_none.
  rewrite matches_hits, hits_remove_name by exact Hscreen.
  now rewrite no_remove_hit.
Qed.
End RemovingFacts.

(** X9. On the cart screen of the shop, [removeItemByName] with a name
    that is written, up to case and white space, as the name of a product
    in the cart takes that product, and no other, out of the cart. With a
    name that is written as none of the products in the cart it is
    rejected with a timeout on the button of that name and the cart is as
    it was. *)
Theorem removeItemByName_spec (s : SauceDemo.Shop) (productName : string) :
  SauceDemo.screen s = SauceDemo.Cart ->
  NoDup (map (fun p => SauceDemo.slug (name p)) (SauceDemo.catalog s)) ->
  NoDup (SauceDemo.cart s) ->
  (forall i p,
     In i (SauceDemo.cart s) -> nth_error (SauceDemo.catalog s) i = Some p ->
     SauceDemo.slug productName = SauceDemo.slug (name p) ->
     CartPage.removeItemByName productName s =
       (Fulfilled tt, withCart s (SauceDemo.without i (SauceDemo.cart s))) /\
     ~ In i (SauceDemo.without i (SauceDemo.cart s)) /\
     (forall k, k <> i ->
        (In k (SauceDemo.without i (SauceDemo.cart s)) <-> In k (SauceDemo.cart s)))) /\
  ((forall i p,
      In i (SauceDemo.cart s) -> nth_error (SauceDemo.catalog s) i = Some p ->
      SauceDemo.slug (name p) <> SauceDemo.slug productName) ->
   CartPage.removeItemByName productName s =
     (Rejected (TimeoutError
        (dataTest ("remove-" ++ SauceDemo.slug productName))), s)).
Proof.
  intros Hscreen Hnames Hnd. split.
  - intros i p Hin Hp Hslug. split; [|split].
    + now apply (removeItemByName_shop s productName i p).
    + rewrite in_without. tauto.
    + intros k Hk. rewrite in_without. tauto.
  - now apply removeItemByName_miss.
Qed.

Lemma removeItemByName_spec_witness :
  CartPage.removeItemByName "SAUCE LABS  Bike Light" cartOfTwo =
    (Fulfilled tt, withCart cartOfTwo [3]) /\
  CartPage.removeItemByName "Sauce Labs Onesie" cartOfTwo =
    (Rejected (TimeoutError (dataTest "remove-sauce-labs-onesie")), cartOfTwo).
Proof.
  destruct (removeItemByName_spec cartOfTwo "SAUCE LABS  Bike Light")
    as [Hthere _]; [reflexivity | exact demoCatalog_distinct | | ].
  { simpl. repeat constructor; simpl; intuition lia. }
  destruct (removeItemByName_spec cartOfTwo "Sauce Labs Onesie")
    as [_ Hmissing]; [reflexivity | exact demoCatalog_distinct | | ].
  { simpl. repeat constructor; simpl; intuition lia. }
  split.
  - destruct (Hthere 1 {| name := "Sauce Labs Bike Light"; price := "$9.99" |})
      as [Hremoved _]; [simpl; tauto | reflexivity | vm_compute; reflexivity |].
    exact Hremoved.
  - apply Hmissing. intros i p [<-|[<-|[]]] Hp; inversion Hp; subst p;
      vm_compute; discriminate.
Defined.

(** X10. On the cart screen of the shop, [clearCart] returns after at most
    as many removals as there are rows and leaves the cart empty: after it
    [isCartEmpty] answers [true], no row is counted and the badge reads
    [0]. *)
Theorem clearCart_leaves_an_empty_cart (fuel : nat) (s : SauceDemo.Shop) :
  SauceDemo.screen s = SauceDemo.Cart ->
  Forall (fun p => p < List.length (SauceDemo.catalog s)) (SauceDemo.cart s) ->
  List.length (SauceDemo.cart s) <= fuel ->
  (CartPage.clearCart fuel ;;
   empty <- CartPage.isCartEmpty ;;
   rows <- CartPage.getCartItemCount ;;
   badge <- CartPage.getCartBadgeCount ;;
   ret (empty, rows, badge)) s =
    (Fulfilled (true, 0, zero), withCart s []).
Proof.
  intros Hscreen Hvalid Hfuel. unfold bind at 1.
  rewrite (clearCart_empties_cart fuel s Hscreen Hvalid Hfuel).
  unfold CartPage.isCartEmpty. unfold bind at 1. unfold bind at 1.
  rewrite getCartItemCount_shop by (try exact Hscreen; constructor).
  unfold ret at 1. unfold bind at 1.
  rewrite getCartItemCount_shop by (try exact Hscreen; constructor).
  unfold bind at 1.
  unfold CartPage.getCartBadgeCount, tryCatch, bind, CartPage.shoppingCartBadge.
  rewrite innerText_none; [reflexivity|].
  rewrite matches_hits, hits_badge; [reflexivity|].
  cbn [withCart SauceDemo.screen]. rewrite Hscreen. discriminate.
Qed.

Lemma clearCart_leaves_an_empty_cart_witness :
  (CartPage.clearCart 2 ;;
   empty <- CartPage.isCartEmpty ;;
   rows <- CartPage.getCartItemCount ;;
   badge <- CartPage.getCartBadgeCount ;;
   ret (empty, rows, badge)) cartOfTwo =
    (Fulfilled (true, 0, zero), withCart cartOfTwo []).
Proof.
  apply clearCart_leaves_an_empty_cart.
  - reflexivity.
  - simpl. repeat constructor; lia.
  - simpl. lia.
Defined.

(** X11. On the inventory and cart screens of the shop, the two reads of
    the badge give the number of products in the cart, [0] for the empty
    cart whose badge is not there, and the badge is visible exactly when
    the cart is not empty; the page is as it was. *)
Theorem badge_counts_the_cart (s : SauceDemo.Shop) :
  SauceDemo.screen s <> SauceDemo.Elsewhere ->
  InventoryPage.getCartCount s =
    (Fulfilled (ofDecimal false (N.of_nat (List.length (SauceDemo.cart s))) 0), s) /\
  CartPage.getCartBadgeCount s =
    (Fulfilled (ofDecimal false (N.of_nat (List.length (SauceDemo.cart s))) 0), s) /\
  InventoryPage.isCartBadgeVisible s =
    (Fulfilled (negb (List.length (SauceDemo.cart s) =? 0)%nat), s).
Proof.
  intros Hscreen.
  unfold InventoryPage.getCartCount, CartPage.getCartBadgeCount,
    InventoryPage.isCartBadgeVisible, tryCatch, bind,
    InventoryPage.shoppingCartBadge, CartPage.shoppingCartBadge.
  rewrite isVisible_matches.
  pose proof (hits_badge s Hscreen) as Hbadge.
  destruct (SauceDemo.cart s) as [|k l] eqn:Hcart.
  - rewrite innerText_none by (rewrite matches_hits, Hbadge; reflexivity).
    rewrite matches_hits, Hbadge. repeat split.
  - rewrite (innerText_one _ _
               (fst (SauceDemo.element [".shopping_cart_badge"]
                       (showCount (List.length (k :: l))) SauceDemo.NoAction)))
      by (rewrite matches_hits, Hbadge; reflexivity).
    rewrite matches_hits, Hbadge.
    cbn [innerTextOf SauceDemo.element fst]. unfold ret, showCount.
    rewrite parseInt10_decimal. repeat split.
Qed.

Lemma badge_counts_the_cart_witness :
  InventoryPage.getCartCount cartOfTwo =
    (Fulfilled (S754_finite false 4503599627370496 (-51)), cartOfTwo) /\
  InventoryPage.isCartBadgeVisible (SauceDemo.fresh SauceDemo.demoCatalog) =
    (Fulfilled false, SauceDemo.fresh SauceDemo.demoCatalog).
Proof.
  split.
  - destruct (badge_counts_the_cart cartOfTwo) as (H & _); [discriminate|].
    rewrite H. reflexivity.
  - destruct (badge_counts_the_cart (SauceDemo.fresh SauceDemo.demoCatalog))
      as (_ & _ & H); [discriminate|].
    rewrite H. reflexivity.
Defined.

(** X12. On the inventory screen of the shop, adding a product that is
    not in the cart, opening the cart and removing the product by its
    name leaves the cart as it was before the three steps: the page shows
    the cart, with the products it held, in their order. *)
Theorem add_then_remove_by_name (s : SauceDemo.Shop) (i : nat) (p : ProductDetails) :
  SauceDemo.screen s = SauceDemo.Inventory ->
  NoDup (map (fun p => SauceDemo.slug (name p)) (SauceDemo.catalog s)) ->
  NoDup (SauceDemo.cart s) ->
  nth_error (SauceDemo.catalog s) i = Some p ->
  ~ In i (SauceDemo.cart s) ->
  (InventoryPage.addProductToCartByIndex i ;;
   InventoryPage.goToCart ;;
   CartPage.removeItemByName (name p)) s =
    (Fulfilled tt, SauceDemo.show SauceDemo.Cart s).
Proof.
  intros Hscreen Hnames Hnd Hp Hfree.
  assert (Hnot : SauceDemo.inCart s i = false).
  { destruct (SauceDemo.inCart s i) eqn:E; [|reflexivity].
    apply inCart_In in E. contradiction. }
  unfold bind at 1.
  rewrite (addProductToCartByIndex_shop s Hscreen Hnames i p Hp Hnot).
  unfold bind at 1. rewrite goToCart_shop by exact Hscreen.
  rewrite (removeItemByName_shop _ (name p) i p); try assumption; try reflexivity.
  - cbn [SauceDemo.show withCart SauceDemo.cart SauceDemo.catalog SauceDemo.screen].
    unfold withCart, SauceDemo.show.
    cbn [SauceDemo.cart SauceDemo.catalog SauceDemo.screen].
    replace (SauceDemo.cart s ++ [i])%list with (SauceDemo.cart s ++ i :: [])%list
      by reflexivity.
    rewrite without_middle, app_nil_r; [reflexivity|].
    apply NoDup_app; [exact Hnd | repeat constructor; intros [] |].
    intros k Hk [<-|[]]. contradiction.
  - cbn [SauceDemo.show withCart SauceDemo.cart].
    apply NoDup_app; [exact Hnd | repeat constructor; intros [] |].
    intros k Hk [<-|[]]. contradiction.
  - cbn [SauceDemo.show withCart SauceDemo.cart]. apply in_or_app. right. now left.
Qed.

Lemma add_then_remove_by_name_witness :
  (InventoryPage.addProductToCartByIndex 4 ;;
   InventoryPage.goToCart ;;
   CartPage.removeItemByName "Sauce Labs Onesie")
    (withCart (SauceDemo.fresh SauceDemo.demoCatalog) [3; 1]) =
    (Fulfilled tt,
     SauceDemo.show SauceDemo.Cart
       (withCart (SauceDemo.fresh SauceDemo.demoCatalog) [3; 1])).
Proof.
  apply (add_then_remove_by_name
           (withCart (SauceDemo.fresh SauceDemo.demoCatalog) [3; 1]) 4
           {| name := "Sauce Labs Onesie"; price := "$7.99" |}).
  - reflexivity.
  - exact demoCatalog_distinct.
  - simpl. repeat constructor; simpl; intuition lia.
  - reflexivity.
  - simpl. intuition lia.
Defined.

(** ** The random helpers of the test data *)

(** X13. [getRandomValidUser] reads one of five entries of which only the
    first, [TEST_USERS.STANDARD], is defined: with a draw from the unit
    interval the result is the standard user when the index drawn is 0 and
    [undefined] when it is 1, 2, 3 or 4, and each of these four indices is
    drawn by some number of the unit interval. *)
Theorem getRandomValidUser_spec (env : TestData.Env) (random : Random) :
  inUnitInterval (random 0) ->
  floorScaled (random 0) 5 < 5 /\
  (floorScaled (random 0) 5 = 0 ->
   TestData.getRandomValidUser env random = Some (TestData.STANDARD env)) /\
  (floorScaled (random 0) 5 <> 0 ->
   TestData.getRandomValidUser env random = None) /\
  (forall i, 0 < i < 5 ->
   exists u, inUnitInterval u /\ floorScaled u 5 = i /\
             TestData.getRandomValidUser env (fun _ => u) = None).
Proof.
  intros Hunit.
  assert (Hlt : floorScaled (random 0) 5 < 5)
    by (apply floorScaled_below; [exact Hunit | lia | reflexivity]).
  split; [exact Hlt|]. unfold TestData.getRandomValidUser.
  change (List.length (TestData.validUsers env)) with 5.
  split; [|split].
  - intros ->. reflexivity.
  - intros Hne. destruct (floorScaled (random 0) 5) as [|[|[|[|[|k]]]]];
      try reflexivity; [contradiction | lia].
  - intros i Hi. exists (indexSource 5 i).
    destruct (indexSource_spec 5 i) as [Hu Hfloor]; [lia | discriminate |].
    split; [exact Hu|]. split; [exact Hfloor|]. rewrite Hfloor.
    destruct i as [|[|[|[|[|k]]]]]; try reflexivity; lia.
Qed.

Lemma getRandomValidUser_spec_witness :
  TestData.getRandomValidUser
    {| TestData.STANDARD_USERNAME := Some "standard_user";
       TestData.STANDARD_PASSWORD := Some "secret_sauce" |}
    (fun d => cycling (S d)) = None.
Proof.
  destruct (getRandomValidUser_spec
              {| TestData.STANDARD_USERNAME := Some "standard_user";
                 TestData.STANDARD_PASSWORD := Some "secret_sauce" |}
              (fun d => cycling (S d)) (cycling_unit 1)) as (_ & _ & H & _).
  apply H. vm_compute. discriminate.
Defined.

(** X14. [generateRandomCheckoutInfo] with draws from the unit interval
    never leaves a field [undefined]: the first name, the last name and
    the postal code are members of their lists, chosen by the first, the
    second and the third draw. *)
Theorem generateRandomCheckoutInfo_defined (random : Random) :
  (forall d, inUnitInterval (random d)) ->
  exists first last code,
    TestData.generateRandomCheckoutInfo random =
      {| TestData.firstName := Some first;
         TestData.lastName := Some last;
         TestData.postalCode := Some code |} /\
    nth_error TestData.firstNames (floorScaled (random 0) 6) = Some first /\
    nth_error TestData.lastNames (floorScaled (random 1) 6) = Some last /\
    nth_error TestData.postalCodes (floorScaled (random 2) 6) = Some code /\
    In first TestData.firstNames /\
    In last TestData.lastNames /\
    In code TestData.postalCodes.
Proof.
  intros Hunit.
  assert (Hlt : forall d, floorScaled (random d) 6 < 6)
    by (intros d; apply floorScaled_below; [apply Hunit | lia | reflexivity]).
  assert (Hsome : forall (l : list string) i,
            List.length l = 6 -> i < 6 -> exists x, nth_error l i = Some x).
  { intros l i Hl Hi. destruct (nth_error l i) as [x|] eqn:E; [now exists x|].
    apply nth_error_None in E. lia. }
  destruct (Hsome TestData.firstNames _ eq_refl (Hlt 0)) as (first & Hfirst).
  destruct (Hsome TestData.lastNames _ eq_refl (Hlt 1)) as (last & Hlast).
  destruct (Hsome TestData.postalCodes _ eq_refl (Hlt 2)) as (code & Hcode).
  exists first, last, code. unfold TestData.generateRandomCheckoutInfo, at_.
  change (List.length TestData.firstNames) with 6.
  change (List.length TestData.lastNames) with 6.
  change (List.length TestData.postalCodes) with 6.
  rewrite Hfirst, Hlast, Hcode.
  repeat split; try reflexivity; eapply nth_error_In; eassumption.
Qed.

Lemma generateRandomCheckoutInfo_defined_witness :
  TestData.generateRandomCheckoutInfo cycling =
    {| TestData.firstName := Some "John";
       TestData.lastName := Some "Williams";
       TestData.postalCode := Some "94102" |}.
Proof.
  destruct (generateRandomCheckoutInfo_defined cycling cycling_unit)
    as (first & last & code & -> & Hfirst & Hlast & Hcode & _).
  vm_compute in Hfirst, Hlast, Hcode.
  inversion Hfirst. inversion Hlast. inversion Hcode. reflexivity.
Defined.

(** ** Selecting every product *)

(** X15. When as many indices are requested as there are to choose from,
    [generateRandomUniqueIndices(max, max)] returns, on every sequence of
    draws whose first [fuel] members show all [max] indices, a permutation
    of 0, ..., [max - 1]: every index once. *)
Theorem generateRandomUniqueIndices_all_is_permutation
    (random : Random) (max fuel : nat) :
  (forall d, inUnitInterval (random d)) ->
  0 < max ->
  (Z.of_nat max < 2 ^ 53)%Z ->
  max <= List.length (selection random max fuel) ->
  exists indices,
    InventoryPage.generateRandomUniqueIndices fuel random max max = Some indices /\
    Permutation indices (seq 0 max) /\
    selection random max fuel = indices.
Proof.
  intros Hunit Hmax Hsafe Hsel.
  assert (Hnd : NoDup (selection random max fuel))
    by (apply collected_NoDup; constructor).
  assert (Hlt : Forall (fun i => i < max) (selection random max fuel))
    by (apply collected_below; [constructor | now apply draws_below]).
  assert (Hlen : List.length (selection random max fuel) = max).
  { apply Nat.le_antisymm; [|exact Hsel].
    now apply distinct_below_bound. }
  exists (selection random max fuel). split; [|split; [|reflexivity]].
  - unfold InventoryPage.generateRandomUniqueIndices.
    rewrite (generateLoop_returns random max max fuel 0 []) by (simpl; lia || exact Hsel).
    fold (selection random max fuel).
    rewrite <- Hlen at 1. now rewrite firstn_all.
  - apply NoDup_Permutation_bis; [exact Hnd | rewrite length_seq; lia |].
    intros i Hi. apply in_seq. rewrite Forall_forall in Hlt.
    specialize (Hlt i Hi). lia.
Qed.

Lemma generateRandomUniqueIndices_all_is_permutation_witness :
  InventoryPage.generateRandomUniqueIndices 7 (sourceOf 6 [3; 1; 3; 4; 0; 5; 2]) 6 6 =
    Some [3; 1; 4; 0; 5; 2].
Proof.
  destruct (generateRandomUniqueIndices_all_is_permutation
              (sourceOf 6 [3; 1; 3; 4; 0; 5; 2]) 6 7) as (indices & -> & _ & <-).
  - apply draws_sourceOf; [discriminate | lia |].
    repeat constructor; lia.
  - lia.
  - reflexivity.
  - vm_compute. lia.
  - vm_compute. reflexivity.
Defined.
